(** * apiregister-gen: the API model builder of [generators/parser.go]

    A shallow embedding of the directive-tag parsers, the declaration indexer
    ([ParseIndex]), the subresource resolver ([GetSubresources]), the
    struct/field graph builder ([ParseStructs], [DoType]) and the scanners of
    packages, group names and controllers ([ParsePackages], [ParseGroupNames],
    [ParseControllers]), followed by the properties stated over it.

    Conventions of the embedding:
    - a Go [string] is a Rocq [string] (a sequence of bytes);
    - [log.Fatalf] and [panic] end the run: every function that can reach one
      returns a [result], whose error carries the diagnostic;
    - a pointer [*types.Type] is an index into the store of declarations of the
      generator context, a pointer [*APIResource] an index into the store of
      resources of the builder, so that sharing is visible;
    - a Go map is a [gmap]; a nil map reads like the empty one. *)

From Stdlib Require Import ZArith Ascii String List Lia Permutation.
From stdpp Require Import base tactics option list gmap strings.

Local Open Scope Z_scope.
Local Open Scope stdpp_scope.

(** ** Failures and the error monad *)

Inductive failure : Type :=
| Fatal (msg : string)   (* log.Fatalf: the diagnostic, then exit *)
| Panic (msg : string).  (* panic(...) or a run-time panic *)

Inductive result (A : Type) : Type :=
| Ok (a : A)
| Err (e : failure).
Arguments Ok {A} a.
Arguments Err {A} e.

(** [x ← m; k] runs [k] when [m] did not end the run. *)
#[global] Instance result_bind : MBind result :=
  λ A B (k : A → result B) (m : result A),
    match m with
    | Ok a => k a
    | Err e => Err e
    end.

Definition is_Ok {A : Type} (m : result A) : Prop := ∃ a, m = Ok a.

(** ** The Go [strings] package, as far as the parser uses it *)

Module strings.

Definition len (s : string) : Z := Z.of_nat (String.length s).

(** [strings.HasPrefix(s, prefix)] *)
Fixpoint HasPrefix (s prefix : string) {struct prefix} : bool :=
match prefix, s with
| EmptyString, _ => true
| String p ps, String c cs => if Ascii.eqb p c then HasPrefix cs ps else false
| String _ _, EmptyString => false
end.

(** [strings.Contains(s, substr)] *)
Fixpoint Contains (s substr : string) : bool :=
HasPrefix s substr ||
match s with
| EmptyString => false
| String _ s' => Contains s' substr
end.

(** [strings.LastIndex(s, substr)]: the byte index of the last instance of
[substr] in [s], or -1. [LastIndex_from i] scans a suffix of the string
that starts at index [i]. *)
Fixpoint LastIndex_from (i : Z) (s substr : string) : Z :=
let later :=
match s with
| EmptyString => -1
| String _ s' => LastIndex_from (i + 1) s' substr
end in
if 0 <=? later then later
else if HasPrefix s substr then i else -1.

Definition LastIndex (s substr : string) : Z := LastIndex_from 0 s substr.

(** [s[lo:hi]] panics when the bounds are out of range. *)
Definition slice (s : string) (lo hi : Z) : result string :=
if (0 <=? lo) && (lo <=? hi) && (hi <=? len s)
then Ok (String.substring (Z.to_nat lo) (Z.to_nat (hi - lo)) s)
else Err (Panic "slice bounds out of range").

(** [strings.HasSuffix] and [strings.TrimSuffix] *)
Definition HasSuffix (s suffix : string) : bool :=
(String.length suffix <=? String.length s)%nat &&
String.eqb
(String.substring (String.length s - String.length suffix)
                  (String.length suffix) s)
suffix.

Definition TrimSuffix (s suffix : string) : string :=
if HasSuffix s suffix
then String.substring 0 (String.length s - String.length suffix) s
else s.

(** [strings.Split(s, sep)] for a non-empty separator: the pieces between the
non-overlapping instances of [sep], found left to right. [skip] counts the
bytes of an instance already matched that are still to be passed over. *)
Fixpoint split_scan (sep : string) (skip : nat) (s : string) : list string :=
match s with
| EmptyString => [""]
| String c s' =>
  match skip with
  | S k => split_scan sep k s'
  | O =>
      if HasPrefix s sep
      then "" :: split_scan sep (String.length sep - 1) s'
      else match split_scan sep O s' with
           | p :: ps => String c p :: ps
           | [] => [String c ""]
           end
  end
end.

(** With an empty separator Go splits after each UTF-8 sequence; the bytes
are taken one by one here, which is the same on ASCII text. No call of
the parser passes an empty separator. *)
Fixpoint explode (s : string) : list string :=
match s with
| EmptyString => []
| String c s' => String c "" :: explode s'
end.

Definition Split (s sep : string) : list string :=
match sep with
| EmptyString => explode s
| _ => split_scan sep O s
end.

(** [strings.Join(elems, sep)] *)
Fixpoint Join (elems : list string) (sep : string) : string :=
match elems with
| [] => ""
| [e] => e
| e :: es => e +:+ sep +:+ Join es sep
end.

(** [strings.Replace(s, old, new, n)]: the first [n] non-overlapping
instances of [old] replaced by [new]; no limit when [n < 0]. *)
Definition fewer (n : Z) : Z := if n <? 0 then n else n - 1.

Fixpoint replace_scan (old new : string) (n : Z) (skip : nat) (s : string)
: string :=
match s with
| EmptyString => ""
| String c s' =>
  match skip with
  | S k => replace_scan old new n k s'
  | O =>
      if n =? 0 then s
      else if HasPrefix s old
      then new +:+ replace_scan old new (fewer n) (String.length old - 1) s'
      else String c (replace_scan old new n O s')
  end
end.

(** An empty [old] matches before every byte and at the end. *)
Fixpoint replace_empty (new : string) (n : Z) (s : string) : string :=
if n =? 0 then s
else match s with
   | EmptyString => new
   | String c s' => new +:+ String c (replace_empty new (fewer n) s')
   end.

Definition Replace (s old new : string) (n : Z) : string :=
if String.eqb old new || (n =? 0) then s
else match old with
   | EmptyString => replace_empty new n s
   | _ => replace_scan old new n O s
   end.

End strings.

(** ** [path/filepath] (on a system whose separator is the slash) *)

Module filepath.

Definition slash : ascii := "/"%char.

(** The string without its trailing slashes. *)
Fixpoint trimTrailingSlashes (s : string) : string :=
match s with
| EmptyString => ""
| String c s' =>
  match trimTrailingSlashes s' with
  | EmptyString => if Ascii.eqb c slash then "" else String c ""
  | t => String c t
  end
end.

Fixpoint drop (n : nat) (s : string) : string :=
match n, s with
| O, _ => s
| S k, String _ s' => drop k s'
| S _, EmptyString => ""
end.

(** [filepath.Base(path)]: the last element of the path. *)
Definition Base (path : string) : string :=
if String.eqb path "" then "."
else
let p := trimTrailingSlashes path in
let i := strings.LastIndex p "/" in
let p := if 0 <=? i then drop (Z.to_nat (i + 1)) p else p in
if String.eqb p "" then "/" else p.

End filepath.

(** ** The data model *)

(** The declarations of [k8s.io/gengo/types]. A [*types.Type] is a [TypeRef],
    an index into [generator.Context.types]; types may refer to each other in
    cycles. *)
Module types.

Definition TypeRef : Type := nat.

Module Name.
Record t : Type := mk { Package : string; Name : string }.

(** [func (n Name) String() string] *)
Definition String_ (n : t) : string :=
if String.eqb (Package n) "" then Name n
else Package n +:+ "." +:+ Name n.
End Name.

Module Member.
Record t : Type := mk { Name : string; Embedded : bool; Type_ : TypeRef }.
End Member.

Module Type_.
Record t : Type := mk {
Name : Name.t;
Kind : string;
CommentLines : list string;
Members : list Member.t;
Elem : option TypeRef
}.

(** [func (t *Type) String() string] *)
Definition String_ (x : t) : string := Name.String_ (Name x).
End Type_.

End types.

Module generator.
Module Context.
Record t : Type := mk {
Order : list types.TypeRef;
(** the store that the [*types.Type] pointers point into *)
types : list types.Type_.t
}.
End Context.
End generator.

Module Field.
Record t : Type := mk {
Name : string;
VersionedPackage : string;
UnversionedImport : string;
UnversionedType : string
}.
End Field.

Module Struct.
Record t : Type := mk {
Name : string;
GenClient : bool;
GenDeepCopy : bool;
GenUnversioned : bool;
Fields : list Field.t
}.
End Struct.

(** The fields [RequestType] and [RESTType] of the source are never assigned
    by the builder: they stay nil, and are printed as such by [format]. *)
Module APISubresource.
Record t : Type := mk {
Domain : string;
Group : string;
Version : string;
Kind : string;
Resource : string;
Request : string;
REST : string;
Path : string;
ImportPackage : string
}.

(** What [%v] prints for a [*APISubresource]. *)
Definition format (x : t) : string :=
"&{" +:+ Domain x +:+ " " +:+ Group x +:+ " " +:+ Version x +:+ " " +:+
Kind x +:+ " " +:+ Resource x +:+ " " +:+ Request x +:+ " " +:+
REST x +:+ " " +:+ Path x +:+ " " +:+ ImportPackage x +:+ " <nil> <nil>}".
End APISubresource.

Module APIResource.
Record t : Type := mk {
Domain : string;
Group : string;
Version : string;
Kind : string;
Resource : string;
REST : string;
Subresources : gmap string APISubresource.t;
Type_ : types.TypeRef;
Strategy : string;
StatusStrategy : string;
NonNamespaced : bool
}.

Definition with_Subresources (m : gmap string APISubresource.t) (r : t) : t :=
mk (Domain r) (Group r) (Version r) (Kind r) (Resource r) (REST r) m
 (Type_ r) (Strategy r) (StatusStrategy r) (NonNamespaced r).
End APIResource.

Module APIVersion.
Record t : Type := mk {
Domain : string;
Group : string;
Version : string;
Resources : gmap string APIResource.t
}.
End APIVersion.

Module APIGroup.
Record t : Type := mk {
Package : string;
Domain : string;
Group : string;
GroupTitle : string;
Versions : gmap string APIVersion.t;
UnversionedResources : gmap string APIResource.t;
Structs : list Struct.t;
PkgPath : string
}.

Definition with_Structs (l : list Struct.t) (g : t) : t :=
mk (Package g) (Domain g) (Group g) (GroupTitle g) (Versions g)
 (UnversionedResources g) l (PkgPath g).
End APIGroup.

(** [*APIResource]: an index into [APIsBuilder.resources]. *)
Definition ResourceRef : Type := nat.

(** The builder, with the fields that the indexer and the graph builder use.
    [resources] is the store of the [APIResource] values allocated so far. *)
Module APIsBuilder.
Record t : Type := mk {
context : generator.Context.t;
Domain : string;
ByGroupKindVersion : gmap string (gmap string (gmap string ResourceRef));
ByGroupVersionKind : gmap string (gmap string (gmap string ResourceRef));
SubByGroupVersionKind : gmap string (gmap string (gmap string types.TypeRef));
resources : list APIResource.t
}.
End APIsBuilder.

Module schema.
Module GroupVersionKind.
Record t : Type := mk { Group : string; Version : string; Kind : string }.
End GroupVersionKind.
End schema.

Module ResourceTags.
Record t : Type := mk { Resource : string; REST : string; Strategy : string }.
End ResourceTags.

Module ControllerTags.
Record t : Type := mk { gvk : schema.GroupVersionKind.t; resource : string }.
End ControllerTags.

Module SubresourceTags.
Record t : Type := mk {
Path : string;
Kind : string;
RequestKind : string;
REST : string
}.
End SubresourceTags.

(** ** Three-level maps

    [m[a][b][c]] as the source reads and writes it. An assignment through an
    absent inner map is an assignment to an entry of a nil map, which panics in
    Go; the guards of the source create the inner maps first. *)
Section Index3.
Context {A : Type}.

Definition lookup3 (m : gmap string (gmap string (gmap string A)))
(a b c : string) : option A :=
match m !! a with
| None => None
| Some ma => match ma !! b with
           | None => None
           | Some mab => mab !! c
           end
end.

(** [if _, f := m[a]; !f { m[a] = map{} }] *)
Definition ensure1 (a : string) (m : gmap string (gmap string (gmap string A)))
: gmap string (gmap string (gmap string A)) :=
match m !! a with
| Some _ => m
| None => <[a := ∅]> m
end.

(** [if _, f := m[a][b]; !f { m[a][b] = map{} }] *)
Definition ensure2 (a b : string) (m : gmap string (gmap string (gmap string A)))
: result (gmap string (gmap string (gmap string A))) :=
match m !! a with
| None => Err (Panic "assignment to entry in nil map")
| Some ma =>
  match ma !! b with
  | Some _ => Ok m
  | None => Ok (<[a := <[b := ∅]> ma]> m)
  end
end.

(** [m[a][b][c] = x] *)
Definition assign3 (a b c : string) (x : A)
(m : gmap string (gmap string (gmap string A)))
: result (gmap string (gmap string (gmap string A))) :=
match m !! a with
| None => Err (Panic "assignment to entry in nil map")
| Some ma =>
  match ma !! b with
  | None => Err (Panic "assignment to entry in nil map")
  | Some mab => Ok (<[a := <[b := <[c := x]> mab]> ma]> m)
  end
end.
End Index3.

(** A loop over a slice whose body may end the run. *)
Fixpoint foldM {S A : Type} (f : S → A → result S) (l : list A) (s : S)
  : result S :=
  match l with
  | [] => Ok s
  | x :: l' => s' ← f s x; foldM f l' s'
  end.

(** ** [path]: [Base], [Clean] and [Dir] *)

Module path.

(** [path.Base] is the algorithm of [filepath.Base]. *)
Definition Base (p : string) : string := filepath.Base p.

(** One element of the path met by [Clean], with the elements kept so far
(last one first): empty and [.] elements are dropped, [..] removes the
element before it when there is one that is not [..] itself, is dropped
at the root, and is kept otherwise. *)
Definition clean_elem (rooted : bool) (kept : list string) (e : string)
: list string :=
if String.eqb e "" || String.eqb e "." then kept
else if String.eqb e ".." then
match kept with
| k :: kept' => if String.eqb k ".." then e :: kept else kept'
| [] => if rooted then [] else [e]
end
else e :: kept.

(** [path.Clean(p)]: the shortest path name equivalent to [p]. *)
Definition Clean (p : string) : string :=
let rooted := strings.HasPrefix p "/" in
let kept := fold_left (clean_elem rooted) (strings.Split p "/") [] in
let out := (if rooted then "/" else "") +:+ strings.Join (rev kept) "/" in
if String.eqb out "" then "." else out.

(** [path.Dir(p)]: all but the last element of [p], cleaned. *)
Definition Dir (p : string) : string :=
let i := strings.LastIndex p "/" in
Clean (String.substring 0 (Z.to_nat (i + 1)) p).

End path.

(** ** The tag grammar parser *)

Definition malformed_resource (tag : string) : string :=
  "// +resource: tags must be key value pairs.  Expected " +:+
  "keys [path=<subresourcepath>] " +:+
  "Got string: [" +:+ tag +:+ "]".

Definition malformed_controller (tag : string) : string :=
  "// +controller: tags must be key value pairs.  Expected " +:+
  "keys [group=<group>,version=<version>,kind=<kind>,resource=<resource>] " +:+
  "Got string: [" +:+ tag +:+ "]".

Definition malformed_subresource (tag : string) : string :=
  "// +subresource: tags must be key value pairs.  Expected " +:+
  "keys [request=<requestType>,rest=<restImplType>,path=<subresourcepath>] " +:+
  "Got string: [" +:+ tag +:+ "]".

(** The body of the loop of [ParseResourceTag], for one element of the tag. *)
Definition ParseResourceTag_elem (tag : string) (res : ResourceTags.t)
  (elem : string) : result ResourceTags.t :=
  match strings.Split elem "=" with
  | [key; value] =>
      if String.eqb key "rest" then
        Ok (ResourceTags.mk (ResourceTags.Resource res) value (ResourceTags.Strategy res))
      else if String.eqb key "path" then
        Ok (ResourceTags.mk value (ResourceTags.REST res) (ResourceTags.Strategy res))
      else if String.eqb key "strategy" then
        Ok (ResourceTags.mk (ResourceTags.Resource res) (ResourceTags.REST res) value)
      else Ok res
  | _ => Err (Fatal (malformed_resource tag))
  end.

Definition ParseResourceTag (tag : string) : result ResourceTags.t :=
  foldM (ParseResourceTag_elem tag) (strings.Split tag ",")
        (ResourceTags.mk "" "" "").

Definition with_gvk_Group (value : string) (res : ControllerTags.t) : ControllerTags.t :=
  let gvk := ControllerTags.gvk res in
  ControllerTags.mk
    (schema.GroupVersionKind.mk value (schema.GroupVersionKind.Version gvk)
                                (schema.GroupVersionKind.Kind gvk))
    (ControllerTags.resource res).

Definition with_gvk_Version (value : string) (res : ControllerTags.t) : ControllerTags.t :=
  let gvk := ControllerTags.gvk res in
  ControllerTags.mk
    (schema.GroupVersionKind.mk (schema.GroupVersionKind.Group gvk) value
                                (schema.GroupVersionKind.Kind gvk))
    (ControllerTags.resource res).

Definition with_gvk_Kind (value : string) (res : ControllerTags.t) : ControllerTags.t :=
  let gvk := ControllerTags.gvk res in
  ControllerTags.mk
    (schema.GroupVersionKind.mk (schema.GroupVersionKind.Group gvk)
                                (schema.GroupVersionKind.Version gvk) value)
    (ControllerTags.resource res).

Definition ParseControllerTag_elem (tag : string) (res : ControllerTags.t)
  (elem : string) : result ControllerTags.t :=
  match strings.Split elem "=" with
  | [key; value] =>
      if String.eqb key "group" then Ok (with_gvk_Group value res)
      else if String.eqb key "version" then Ok (with_gvk_Version value res)
      else if String.eqb key "kind" then Ok (with_gvk_Kind value res)
      else if String.eqb key "resource" then
        Ok (ControllerTags.mk (ControllerTags.gvk res) value)
      else Ok res
  | _ => Err (Fatal (malformed_controller tag))
  end.

Definition ParseControllerTag (tag : string) : result ControllerTags.t :=
  foldM (ParseControllerTag_elem tag) (strings.Split tag ",")
        (ControllerTags.mk (schema.GroupVersionKind.mk "" "" "") "").

Definition ParseSubresourceTag_elem (c : APIResource.t) (tag : string)
  (res : SubresourceTags.t) (elem : string) : result SubresourceTags.t :=
  match strings.Split elem "=" with
  | [key; value] =>
      if String.eqb key "request" then
        Ok (SubresourceTags.mk (SubresourceTags.Path res) (SubresourceTags.Kind res)
                               value (SubresourceTags.REST res))
      else if String.eqb key "rest" then
        Ok (SubresourceTags.mk (SubresourceTags.Path res) (SubresourceTags.Kind res)
                               (SubresourceTags.RequestKind res) value)
      else if String.eqb key "path" then
        (* Strip the parent resource *)
        Ok (SubresourceTags.mk
              (strings.Replace value (APIResource.Resource c +:+ "/") "" (-1))
              (SubresourceTags.Kind res) (SubresourceTags.RequestKind res)
              (SubresourceTags.REST res))
      else Ok res
  | _ => Err (Fatal (malformed_subresource tag))
  end.

Definition ParseSubresourceTag (c : APIResource.t) (tag : string)
  : result SubresourceTags.t :=
  foldM (ParseSubresourceTag_elem c tag) (strings.Split tag ",")
        (SubresourceTags.mk "" "" "" "").

(** ** The subresource resolver: request types *)

(** Returns true if the subresource Request type is in the same package as the
    resource type *)
Definition IsInPackage (tags : SubresourceTags.t) : bool :=
  negb (strings.Contains (SubresourceTags.RequestKind tags) ".").

Definition GetNameAndImport (tags : SubresourceTags.t) : result (string * string) :=
  let last := strings.LastIndex (SubresourceTags.RequestKind tags) "." in
  importPackage ← strings.slice (SubresourceTags.RequestKind tags) 0 last;
  (* Set the request kind to the struct name *)
  requestKind ← strings.slice (SubresourceTags.RequestKind tags) (last + 1)
                  (strings.len (SubresourceTags.RequestKind tags));
  (* Find the package *)
  let pkg := filepath.Base importPackage in
  (* Prefix the struct name with the package it is in *)
  Ok (strings.Join [pkg; requestKind] ".", importPackage).

Definition duplicate_subresource (path : string) (v : APISubresource.t)
  (subresource : string) : string :=
  "Multiple subresources registered for path " +:+ path +:+ ": " +:+
  APISubresource.format v +:+ " " +:+ subresource.

(** s[p] for a [*types.Type] [p]. *)
Definition deref (ctx : generator.Context.t) (p : types.TypeRef)
  : result types.Type_.t :=
  match generator.Context.types ctx !! p with
  | Some t => Ok t
  | None => Err (Panic "invalid memory address or nil pointer dereference")
  end.

(** ** What the parser takes from outside

    The classifier predicates, the group/version/kind accessors and the readers
    of comment tags are functions of the package that [parser.go] calls but does
    not define; [IsPrimitive] is a method of gengo's [types.Type]. They are pure
    functions of a declaration (of its comment lines, for the tag readers) and
    the parser is a function of them. *)
Class Classifier : Type := {
  IsAPIResource : types.Type_.t → bool;
  IsAPISubresource : types.Type_.t → bool;
  HasSubresource : types.Type_.t → bool;
  IsNonNamespaced : types.Type_.t → bool;
  GetGroup : types.Type_.t → string;
  GetVersion : types.Type_.t → string → string;
  GetKind : types.Type_.t → string → string;
  IsPrimitive : types.Type_.t → bool;
  (** [Comments.GetTag(name, sep)], [Comments.GetTags(name, sep)] and
      [Comments.HasTag(name)] *)
  GetTag : list string → string → string → string;
  GetTags : list string → string → string → list string;
  HasTag : list string → string → bool
}.

Definition dquote : string := String (Ascii.ascii_of_nat 34) EmptyString.

Definition metav1_package : string := "k8s.io/apimachinery/pkg/apis/meta/v1".

(** The state of the loop of [ParseStructs]. *)
Module worklist.
Record t : Type := mk {
remaining : list types.TypeRef;
done : gset string;
Structs : list Struct.t
}.
End worklist.

(** Pop the next element from the list: the first one, whose place the last
    one takes. *)
Definition pop (remaining : list types.TypeRef)
  : option (types.TypeRef * list types.TypeRef) :=
  match remaining with
  | [] => None
  | next :: tl =>
      Some (next, match tl with
                  | [] => []
                  | _ :: _ => List.last tl next :: List.removelast tl
                  end)
  end.

Section Parser.
Context `{Classifier}.

(** GetResourceTag returns the value of the "+resource=" comment tag *)
Definition GetResourceTag (c : types.Type_.t) : result string :=
let resource := GetTag (types.Type_.CommentLines c) "resource" ":" in
if strings.len resource =? 0 then
Err (Panic ("Must specify +resource comment for type " +:+
            types.Name.String_ (types.Type_.Name c)))
else Ok resource.

Definition GetControllerTag (c : types.Type_.t) : result string :=
let resource := GetTag (types.Type_.CommentLines c) "controller" ":" in
if strings.len resource =? 0 then
Err (Panic ("Must specify +controller comment for type " +:+
            types.Name.String_ (types.Type_.Name c)))
else Ok resource.

Definition GetSubresourceTags (c : types.Type_.t) : list string :=
GetTags (types.Type_.CommentLines c) "subresource" ":".

Definition GenClient (c : types.Type_.t) : bool :=
0 <? strings.len (GetTag (types.Type_.CommentLines c) "resource" ":").

Definition GenDeepCopy (c : types.Type_.t) : bool :=
HasTag (types.Type_.CommentLines c) "subresource-request".

(** *** The subresource resolver *)

(** The descriptor built for one directive: lines 347-362 of the source. *)
Definition new_subresource (b : APIsBuilder.t) (c : APIResource.t)
(subresource : string) : result APISubresource.t :=
(* Parse the values for each subresource *)
tags ← ParseSubresourceTag c subresource;
let sr :=
APISubresource.mk (APIsBuilder.Domain b) (APIResource.Group c)
  (APIResource.Version c) (SubresourceTags.Kind tags)
  (APIResource.Resource c) (SubresourceTags.RequestKind tags)
  (SubresourceTags.REST tags) (SubresourceTags.Path tags) "" in
if negb (IsInPackage tags) then
(* Out of package Request types require an import and are prefixed
   with the package name - e.g. v1.Scale *)
ni ← GetNameAndImport tags;
Ok (APISubresource.mk (APISubresource.Domain sr)
      (APISubresource.Group sr) (APISubresource.Version sr)
      (APISubresource.Kind sr) (APISubresource.Resource sr)
      (fst ni) (APISubresource.REST sr) (APISubresource.Path sr)
      (snd ni))
else Ok sr.

(** The body of the loop of [GetSubresources], for one directive. *)
Definition GetSubresources_step (b : APIsBuilder.t) (c : APIResource.t)
(r : gmap string APISubresource.t) (subresource : string)
: result (gmap string APISubresource.t) :=
sr ← new_subresource b c subresource;
match r !! APISubresource.Path sr with
| Some v =>
  Err (Fatal (duplicate_subresource (APISubresource.Path sr) v subresource))
| None => Ok (<[APISubresource.Path sr := sr]> r)
end.

Definition GetSubresources (b : APIsBuilder.t) (c : APIResource.t)
: result (gmap string APISubresource.t) :=
t ← deref (APIsBuilder.context b) (APIResource.Type_ c);
match GetSubresourceTags t with
| [] => (* Not a subresource *) Ok ∅
| subresources => foldM (GetSubresources_step b c) subresources ∅
end.

(** *** The declaration indexer *)

Definition with_SubByGroupVersionKind
(m : gmap string (gmap string (gmap string types.TypeRef)))
(b : APIsBuilder.t) : APIsBuilder.t :=
APIsBuilder.mk (APIsBuilder.context b) (APIsBuilder.Domain b)
(APIsBuilder.ByGroupKindVersion b) (APIsBuilder.ByGroupVersionKind b)
m (APIsBuilder.resources b).

(** The resource built for the declaration [t] at [c], before its
subresources are attached. *)
Definition new_resource (b : APIsBuilder.t) (c : types.TypeRef)
(t : types.Type_.t) (rt : ResourceTags.t) : APIResource.t :=
let group := GetGroup t in
let version := GetVersion t group in
let kind := GetKind t group in
let strategy := ResourceTags.Strategy rt in
(* If not defined, default the strategy to the group strategy for
 backwards compatibility *)
let strategy :=
if strings.len strategy =? 0
then group +:+ "." +:+ kind +:+ "Strategy"
else strategy in
(* Copy the Status strategy to mirror the non-status strategy *)
let statusStrategy := strings.TrimSuffix strategy "Strategy" in
let statusStrategy := statusStrategy +:+ "StatusStrategy" in
APIResource.mk (APIsBuilder.Domain b) group version kind
(ResourceTags.Resource rt) (ResourceTags.REST rt) ∅ c
strategy statusStrategy (IsNonNamespaced t).

(** The first part of the body of the loop of [ParseIndex]: a subresource
type is recorded in the index of subresource types. *)
Definition ParseIndex_subresource (b : APIsBuilder.t) (c : types.TypeRef)
(t : types.Type_.t) : result APIsBuilder.t :=
if IsAPISubresource t then
let group := GetGroup t in
let version := GetVersion t group in
let kind := GetKind t group in
m ← ensure2 group version
      (ensure1 group (APIsBuilder.SubByGroupVersionKind b));
m ← assign3 group version kind c m;
Ok (with_SubByGroupVersionKind m b)
else Ok b.

(** The second part, for a declaration that is an API resource. *)
Definition ParseIndex_resource (b : APIsBuilder.t) (c : types.TypeRef)
(t : types.Type_.t) : result APIsBuilder.t :=
tag ← GetResourceTag t;
rt ← ParseResourceTag tag;
let r := new_resource b c t rt in
let p : ResourceRef := length (APIsBuilder.resources b) in
gkv ← ensure2 (APIResource.Group r) (APIResource.Kind r)
      (ensure1 (APIResource.Group r) (APIsBuilder.ByGroupKindVersion b));
gvk ← ensure2 (APIResource.Group r) (APIResource.Version r)
      (ensure1 (APIResource.Group r) (APIsBuilder.ByGroupVersionKind b));
gkv ← assign3 (APIResource.Group r) (APIResource.Kind r)
      (APIResource.Version r) p gkv;
gvk ← assign3 (APIResource.Group r) (APIResource.Version r)
      (APIResource.Kind r) p gvk;
let b :=
APIsBuilder.mk (APIsBuilder.context b) (APIsBuilder.Domain b) gkv gvk
  (APIsBuilder.SubByGroupVersionKind b)
  (APIsBuilder.resources b ++ [r]) in
(* Do subresources *)
if negb (HasSubresource t) then Ok b
else
subresources ← GetSubresources b r;
Ok (APIsBuilder.mk (APIsBuilder.context b) (APIsBuilder.Domain b)
      (APIsBuilder.ByGroupKindVersion b)
      (APIsBuilder.ByGroupVersionKind b)
      (APIsBuilder.SubByGroupVersionKind b)
      (<[p := APIResource.with_Subresources subresources r]>
         (APIsBuilder.resources b))).

(** The body of the loop of [ParseIndex], for one declaration. *)
Definition ParseIndex_step (b : APIsBuilder.t) (c : types.TypeRef)
: result APIsBuilder.t :=
t ← deref (APIsBuilder.context b) c;
b ← ParseIndex_subresource b c t;
if negb (IsAPIResource t) then Ok b
else ParseIndex_resource b c t.

(** ParseIndex indexes all types with the comment "// +resource=RESOURCE" by
GroupVersionKind and GroupKindVersion *)
Definition ParseIndex (b : APIsBuilder.t) : result APIsBuilder.t :=
foldM ParseIndex_step (generator.Context.Order (APIsBuilder.context b))
(APIsBuilder.mk (APIsBuilder.context b) (APIsBuilder.Domain b) ∅ ∅ ∅
   (APIsBuilder.resources b)).

(** The resource that an index entry points to. *)
Definition resource_at (b : APIsBuilder.t) (p : ResourceRef)
: option APIResource.t := APIsBuilder.resources b !! p.

End Parser.

(** ** The struct/field graph builder *)

Section Structs.
Context `{Classifier}.

(** The unversioned import and type of a member that is not in the package
of the owning type: lines 641-666 of the source. [uType] is the bare name
of the member type, the value that stands when nothing is rewritten. The
diagnostic line that the default case prints on the standard output is
not part of the model. *)
Definition unversioned (ctx : generator.Context.t) (mt : types.Type_.t)
(base uType : string) : result (string * string) :=
let parts := strings.Split base "." in
if (1 <? length parts)%nat then
if String.eqb (types.Name.Package (types.Type_.Name mt)) metav1_package
then
  (* Use versioned types for meta/v1 *)
  Ok ("metav1 " +:+ dquote +:+ metav1_package +:+ dquote,
      "metav1." +:+ nth 1 parts "")
else
  (* Use unversioned types for everything else *)
  te ← (match types.Type_.Elem mt with
        | Some e =>
            (* Handle Pointers, Maps, Slices correctly *)
            t ← deref ctx e; Ok (t, true)
        | None => Ok (mt, false)
        end : result (types.Type_.t * bool));
  let t : types.Type_.t := fst te in
  let hasElem : bool := snd te in
  let tpkg := types.Name.Package (types.Type_.Name t) in
  let uImportName := path.Base (path.Dir tpkg) in
  let uImport := path.Dir tpkg in
  let uType := uImportName +:+ "." +:+ types.Name.Name (types.Type_.Name t) in
  let uType :=
    if hasElem then
      strings.Replace
        (strings.Replace (types.Type_.String_ mt)
           (path.Dir uImport +:+ "/") "" 1)
        ("/" +:+ path.Base tpkg) "" 1
    else uType in
  Ok (uImport, uType)
else Ok ("", uType).

(** The body of the loop of [DoType] over the members of [t]: the fields and
the types to process, each extended at its end. *)
Definition DoType_member (ctx : generator.Context.t) (t : types.Type_.t)
(acc : list Field.t * list types.TypeRef) (member : types.Member.t)
: result (list Field.t * list types.TypeRef) :=
mt ← deref ctx (types.Member.Type_ member);
let memberGroup := GetGroup mt in
let uType := types.Name.Name (types.Type_.Name mt) in
let memberName := types.Member.Name member in
let base := filepath.Base (types.Type_.String_ mt) in
let samepkg :=
String.eqb (types.Name.Package (types.Type_.Name t))
           (types.Name.Package (types.Type_.Name mt)) in
(* If not in the same package, calculate the import pkg *)
iu ← (if negb samepkg then unversioned ctx mt base uType
    else Ok ("", uType) : result (string * string));
let memberName := if types.Member.Embedded member then "" else memberName in
let fields :=
fst acc ++ [Field.mk memberName (types.Name.Package (types.Type_.Name mt))
                     (fst iu) (snd iu)] in
(* Add this member Type for processing *)
let remaining :=
if negb (IsPrimitive mt) && String.eqb memberGroup (GetGroup t)
then snd acc ++ [types.Member.Type_ member]
else snd acc in
Ok (fields, remaining).

Definition DoType (ctx : generator.Context.t) (t : types.Type_.t)
: result (Struct.t * list types.TypeRef) :=
(* Generate unversioned structs by default *)
let genUnversioned :=
negb (existsb (λ c, strings.Contains c "+genregister:unversioned=false")
              (types.Type_.CommentLines t)) in
fr ← foldM (DoType_member ctx t) (types.Type_.Members t) ([], []);
Ok (Struct.mk (types.Name.Name (types.Type_.Name t)) false false
            genUnversioned (fst fr),
  snd fr).

(** One turn of the loop of [ParseStructs], entered with a non-empty list. *)
Definition ParseStructs_step (ctx : generator.Context.t) (s : worklist.t)
: result worklist.t :=
match pop (worklist.remaining s) with
| None => Ok s
| Some (nextp, remaining) =>
  next ← deref ctx nextp;
  let name := types.Name.Name (types.Type_.Name next) in
  (* Already processed this type.  Skip it *)
  if decide (name ∈ worklist.done s) then
    Ok (worklist.mk remaining (worklist.done s) (worklist.Structs s))
  else
    let done := {[name]} ∪ worklist.done s in
    (* Generate the struct and append to the list *)
    ra ← DoType ctx next;
    let result := fst ra in
    (* This is a resource, so generate the client *)
    let result :=
      if GenClient next then
        Struct.mk (Struct.Name result) true true
                  (Struct.GenUnversioned result) (Struct.Fields result)
      else result in
    let result :=
      if GenDeepCopy next then
        Struct.mk (Struct.Name result) (Struct.GenClient result) true
                  (Struct.GenUnversioned result) (Struct.Fields result)
      else result in
    (* Add the newly discovered subtypes *)
    Ok (worklist.mk (remaining ++ snd ra) done
                    (worklist.Structs s ++ [result]))
end.

(** [for len(remaining) > 0 { ... }]: [None] when the turns allowed by
[fuel] do not empty the list. *)
Fixpoint ParseStructs_loop (ctx : generator.Context.t) (fuel : nat)
(s : worklist.t) : option (result worklist.t) :=
match worklist.remaining s with
| [] => Some (Ok s)
| _ :: _ =>
  match fuel with
  | O => None
  | S fuel' =>
      match ParseStructs_step ctx s with
      | Ok s' => ParseStructs_loop ctx fuel' s'
      | Err e => Some (Err e)
      end
  end
end.

(** The types the traversal starts from: the type of every resource of every
version of the group, then the subresource types indexed for the group.
Go ranges over these maps in an order of its own choice; the order of
[map_to_list] stands for it here, and the properties of the loop are
proved for every list. *)
Definition seeds (b : APIsBuilder.t) (apigroup : APIGroup.t)
: list types.TypeRef :=
flat_map (λ version : string * APIVersion.t,
          (λ resource : string * APIResource.t,
             APIResource.Type_ resource.2) <$>
            map_to_list (APIVersion.Resources version.2))
       (map_to_list (APIGroup.Versions apigroup))
++ flat_map (λ version : string * gmap string types.TypeRef,
             snd <$> map_to_list version.2)
   (map_to_list
      (default ∅ (APIsBuilder.SubByGroupVersionKind b
                    !! APIGroup.Group apigroup))).

Definition ParseStructs (b : APIsBuilder.t) (fuel : nat) (apigroup : APIGroup.t)
: option (result APIGroup.t) :=
match ParseStructs_loop (APIsBuilder.context b) fuel
      (worklist.mk (seeds b apigroup) ∅ (APIGroup.Structs apigroup)) with
| None => None
| Some (Ok s) => Some (Ok (APIGroup.with_Structs (worklist.Structs s) apigroup))
| Some (Err e) => Some (Err e)
end.

(** The number of turns that is enough for [ParseStructs_loop]: every turn
either shortens the list by one or marks a new name, and then adds at
most the members of one type to the list. *)
Definition max_members (ctx : generator.Context.t) : nat :=
max_list ((λ t, length (types.Type_.Members t)) <$> generator.Context.types ctx).

Definition names (ctx : generator.Context.t) : gset string :=
list_to_set ((λ t, types.Name.Name (types.Type_.Name t)) <$>
             generator.Context.types ctx).

Definition turns (ctx : generator.Context.t) (s : worklist.t) : nat :=
length (worklist.remaining s)
+ S (max_members ctx) * size (names ctx ∖ worklist.done s).

End Structs.

(** ** A classifier to run the parser on examples

    An instance of [Classifier] that reads the directives off the comment
    lines and the group and version off the package path
    [<apis>/<group>/<version>]. It serves the examples below; the theorems
    hold for every classifier. *)
Module example.

Definition has_comment (marker : string) (t : types.Type_.t) : bool :=
existsb (λ c, strings.Contains c marker) (types.Type_.CommentLines t).

Fixpoint get_tags (comments : list string) (prefix : string) : list string :=
match comments with
| [] => []
| c :: cs =>
  if strings.HasPrefix c prefix
  then strings.Replace c prefix "" 1 :: get_tags cs prefix
  else get_tags cs prefix
end.

Definition classifier : Classifier := {|
IsAPIResource := has_comment "+resource";
IsAPISubresource := has_comment "+subresource-request";
HasSubresource := has_comment "+subresource";
IsNonNamespaced := has_comment "+nonNamespaced=true";
GetGroup t :=
filepath.Base (path.Dir (types.Name.Package (types.Type_.Name t)));
GetVersion t _ := filepath.Base (types.Name.Package (types.Type_.Name t));
GetKind t _ := types.Name.Name (types.Type_.Name t);
IsPrimitive t := String.eqb (types.Type_.Kind t) "Builtin";
GetTag comments name sep :=
hd "" (get_tags comments ("+" +:+ name +:+ sep));
GetTags comments name sep := get_tags comments ("+" +:+ name +:+ sep);
HasTag comments name :=
existsb (λ c, strings.HasPrefix c ("+" +:+ name)) comments
|}.

Definition v1 : string := "example.com/apis/core/v1".

(** [Widget], with the members of scenario B and the directive of scenario A
(and C); [WidgetStatus], [ObjectMeta], [string] and a list node that
refers to itself. *)
Definition Widget : types.Type_.t :=
types.Type_.mk (types.Name.mk v1 "Widget") "Struct"
["+resource:path=widgets,strategy=core.WidgetStrategy";
 "+subresource:request=ScaleRequest,path=widgets/scale,rest=ScaleREST"]
[types.Member.mk "Status" false 1%nat; types.Member.mk "ObjectMeta" true 2%nat]
None.

Definition WidgetStatus : types.Type_.t :=
types.Type_.mk (types.Name.mk v1 "WidgetStatus") "Struct" []
[types.Member.mk "Phase" false 3%nat; types.Member.mk "Next" false 4%nat] None.

Definition ObjectMeta : types.Type_.t :=
types.Type_.mk (types.Name.mk metav1_package "ObjectMeta") "Struct" [] [] None.

Definition string_ : types.Type_.t :=
types.Type_.mk (types.Name.mk "" "string") "Builtin" [] [] None.

Definition Node : types.Type_.t :=
types.Type_.mk (types.Name.mk v1 "Node") "Struct" []
[types.Member.mk "Next" false 4%nat; types.Member.mk "Owner" false 0%nat] None.

(** A second declaration of kind [Widget] in the same group and version, and
one whose two subresource directives resolve to the same path. *)
Definition Widget' : types.Type_.t :=
types.Type_.mk (types.Name.mk v1 "Widget") "Struct"
["+resource:path=gadgets,rest=GadgetREST"] [] None.

Definition Scaled : types.Type_.t :=
types.Type_.mk (types.Name.mk v1 "Scaled") "Struct"
["+resource:path=scaleds";
 "+subresource:request=ScaleRequest,path=scaleds/scale,rest=ScaleREST";
 "+subresource:request=k8s.io/api/autoscaling/v1.Scale,path=scale,rest=OtherREST"]
[] None.

Definition ctx : generator.Context.t :=
generator.Context.mk [0; 1; 5]%nat
[Widget; WidgetStatus; ObjectMeta; string_; Node; Widget'; Scaled].

Definition builder (order : list types.TypeRef) : APIsBuilder.t :=
APIsBuilder.mk (generator.Context.mk order (generator.Context.types ctx))
"example.com" ∅ ∅ ∅ [].

Definition resource (name : string) : APIResource.t :=
APIResource.mk "example.com" "core" "v1" "Widget" name "" ∅ 0%nat "" "" false.

(** The resource built for [Scaled]. *)
Definition scaled : APIResource.t :=
APIResource.mk "example.com" "core" "v1" "Scaled" "scaleds" "" ∅ 6%nat "" "" false.

End example.

(** ** The words of the specification

    Definitions that follow the specification rather than the code, to state
    what the code is compared with. *)

(** An element of a tag splits on "=" into exactly two parts. *)
Definition two_parts (elem : string) : bool :=
  (length (strings.Split elem "=") =? 2)%nat.

(** Every comma-separated element of the tag does. *)
Definition well_formed (tag : string) : bool :=
  forallb two_parts (strings.Split tag ",").

(** The key of an element, when it has one. *)
Definition key_of (elem : string) : option string :=
  match strings.Split elem "=" with
  | [key; _] => Some key
  | _ => None
  end.

Definition has_key (key elem : string) : bool :=
  match key_of elem with
  | Some k => String.eqb k key
  | None => false
  end.

(** The value of an element whose key is [key]. *)
Definition value_of (key elem : string) : option string :=
  match strings.Split elem "=" with
  | [k; v] => if String.eqb k key then Some v else None
  | _ => None
  end.

(** The value of the last element of [elems] whose key is [key]. *)
Fixpoint last_value (key : string) (elems : list string) : option string :=
  match elems with
  | [] => None
  | e :: es =>
      match last_value key es with
      | Some v => Some v
      | None => value_of key e
      end
  end.

(** How many elements have the key [key]. *)
Definition occurrences (key : string) (elems : list string) : nat :=
  length (filter (λ e, has_key key e = true) elems).

(** The keys that [ParseResourceTag] recognizes. *)
Definition resource_keys : list string := ["rest"; "path"; "strategy"].

Definition recognized (keys : list string) (elem : string) : bool :=
  existsb (λ k, has_key k elem) keys.

(** [s] without the instances of the non-empty string [old], found from left
    to right and not overlapping; [fuel] is at least the length of [s]. *)
Fixpoint remove_all (fuel : nat) (old s : string) : string :=
  match fuel with
  | O => s
  | S fuel' =>
      match s with
      | EmptyString => ""
      | String c s' =>
          if strings.HasPrefix s old
          then remove_all fuel' old (filepath.drop (String.length old) s)
          else String c (remove_all fuel' old s')
      end
  end.

(** [msg] names [x]: [x] occurs in it. *)
Definition names_string (msg x : string) : Prop := strings.Contains msg x = true.

(** The path that a directive on the type of [c] resolves to. *)
Definition resolved_path (b : APIsBuilder.t) (c : APIResource.t)
  (subresource : string) : option string :=
match new_subresource b c subresource with
| Ok sr => Some (APISubresource.Path sr)
| Err _ => None
end.

(** The declaration [t] is an API resource of group [g], version [v] and
    kind [k]. *)
Definition declares `{Classifier} (t : types.Type_.t) (g v k : string) : bool :=
IsAPIResource t && String.eqb (GetGroup t) g
&& String.eqb (GetVersion t (GetGroup t)) v
&& String.eqb (GetKind t (GetGroup t)) k.

(** The last declaration of [order] that is an API resource of group [g],
    version [v] and kind [k]. *)
Fixpoint last_declared `{Classifier} (ctx : generator.Context.t)
  (order : list types.TypeRef) (g v k : string) : option types.TypeRef :=
match order with
| [] => None
| c :: order' =>
    match last_declared ctx order' g v k with
    | Some c' => Some c'
    | None =>
        match generator.Context.types ctx !! c with
        | Some t => if declares t g v k then Some c else None
        | None => None
        end
    end
end.

(** The strategy rule for the resource [r] built from the declaration [t]:
    the strategy of the tag when it has one, the name [<group>.<Kind>Strategy]
    otherwise; the status strategy is the strategy without its suffix
    [Strategy], followed by [StatusStrategy]. *)
Definition strategy_rule `{Classifier} (t : types.Type_.t) (r : APIResource.t)
  : Prop :=
∃ tag rt,
  GetResourceTag t = Ok tag ∧ ParseResourceTag tag = Ok rt ∧
  APIResource.Group r = GetGroup t ∧
  APIResource.Kind r = GetKind t (GetGroup t) ∧
  (ResourceTags.Strategy rt = "" →
   APIResource.Strategy r
   = APIResource.Group r +:+ "." +:+ APIResource.Kind r +:+ "Strategy") ∧
  (ResourceTags.Strategy rt ≠ "" →
   APIResource.Strategy r = ResourceTags.Strategy rt) ∧
  APIResource.StatusStrategy r
  = strings.TrimSuffix (APIResource.Strategy r) "Strategy" +:+ "StatusStrategy" ∧
  (∀ stem, APIResource.Strategy r = stem +:+ "Strategy" →
           APIResource.StatusStrategy r = stem +:+ "StatusStrategy").

(** The declaration of the resource that an index entry points to. *)
Definition type_of (b : APIsBuilder.t) (entry : option ResourceRef)
  : option types.TypeRef :=
match entry with
| Some p =>
    match APIsBuilder.resources b !! p with
    | Some r => Some (APIResource.Type_ r)
    | None => None
    end
| None => None
end.

(** Every entry of the index points to a resource of the store, built from a
    declaration that is an API resource of the same group, version and kind,
    by the strategy rule. *)
Definition well_indexed `{Classifier} (b : APIsBuilder.t) : Prop :=
∀ g v k p,
  lookup3 (APIsBuilder.ByGroupVersionKind b) g v k = Some p →
  ∃ r t,
    APIsBuilder.resources b !! p = Some r ∧
    deref (APIsBuilder.context b) (APIResource.Type_ r) = Ok t ∧
    IsAPIResource t = true ∧ strategy_rule t r.

(** What the map of [GetSubresources] holds after the directives [pre]: the
    descriptor of each of them, under its path. *)
Definition registered (b : APIsBuilder.t) (c : APIResource.t)
  (pre : list string) (r : gmap string APISubresource.t) : Prop :=
(∀ q v, r !! q = Some v →
        ∃ i d, pre !! i = Some d ∧ new_subresource b c d = Ok v ∧
               APISubresource.Path v = q) ∧
(∀ i d sr, pre !! i = Some d → new_subresource b c d = Ok sr →
           is_Some (r !! APISubresource.Path sr)).

(** The collision that the loop of [GetSubresources] reports among the
    directives [ds]: the directive [d2] at [j] resolves to the path of the
    descriptor [v] of an earlier directive; the diagnostic carries the path,
    the descriptor [v] and the string [d2]. *)
Definition collision (b : APIsBuilder.t) (c : APIResource.t)
  (ds : list string) (e : failure) : Prop :=
∃ i j d1 d2 v sr2,
  (i < j)%nat ∧ ds !! i = Some d1 ∧ ds !! j = Some d2 ∧
  new_subresource b c d1 = Ok v ∧ new_subresource b c d2 = Ok sr2 ∧
  APISubresource.Path v = APISubresource.Path sr2 ∧
  e = Fatal (duplicate_subresource (APISubresource.Path sr2) v d2).

(** The duplicate-path property in the words of the specification: whenever two
    directives on the type of a resource resolve to the same path,
    [GetSubresources] is fatal with a diagnostic that names the path and both
    directive strings. *)
Definition duplicate_names_both_directives `{Classifier} : Prop :=
∀ (b : APIsBuilder.t) (c : APIResource.t) (t : types.Type_.t)
  (i j : nat) (d1 d2 p : string),
  deref (APIsBuilder.context b) (APIResource.Type_ c) = Ok t →
  i ≠ j →
  GetSubresourceTags t !! i = Some d1 →
  GetSubresourceTags t !! j = Some d2 →
  resolved_path b c d1 = Some p →
  resolved_path b c d2 = Some p →
  ∃ msg, GetSubresources b c = Err (Fatal msg) ∧
         names_string msg p ∧ names_string msg d1 ∧ names_string msg d2.

(** ** Further notions for the properties of the graph builder *)

(** The struct [st] is what [ParseStructs] emits for the declaration [t]: the
    struct of [DoType] with the flags of the post-processing. *)
Definition emitted_from `{Classifier} (ctx : generator.Context.t)
  (t : types.Type_.t) (st : Struct.t) (more : list types.TypeRef) : Prop :=
∃ st0,
  DoType ctx t = Ok (st0, more) ∧
  Struct.Name st = types.Name.Name (types.Type_.Name t) ∧
  Struct.Fields st = Struct.Fields st0 ∧
  Struct.GenUnversioned st = Struct.GenUnversioned st0 ∧
  Struct.GenClient st = GenClient t ∧
  Struct.GenDeepCopy st = GenClient t || GenDeepCopy t.

(** The type at [p] is still on the work list, or its name is marked. *)
Definition pending (ctx : generator.Context.t) (s : worklist.t)
  (p : types.TypeRef) : Prop :=
p ∈ worklist.remaining s ∨
∃ t, deref ctx p = Ok t ∧
     types.Name.Name (types.Type_.Name t) ∈ worklist.done s.

(** Every pointer of the universe points into the universe: the types of the
    members and the element types. *)
Definition closed (ctx : generator.Context.t) : Prop :=
∀ t, t ∈ generator.Context.types ctx →
     (∀ m, m ∈ types.Type_.Members t →
           is_Some (generator.Context.types ctx !! types.Member.Type_ m)) ∧
     (∀ e, types.Type_.Elem t = Some e →
           is_Some (generator.Context.types ctx !! e)).

(** An API group with the one resource of [example.Widget]. *)
Definition example_group : APIGroup.t :=
APIGroup.mk "example.com/apis" "example.com" "core" "Core"
  {[ "v1" := APIVersion.mk "example.com" "core" "v1"
               {[ "Widget" := example.resource "widgets" ]} ]}
  ∅ [] "".

(** ** Writing tags back *)

(** A value that can stand in a tag: it has no "," and no "=". *)
Definition plain (value : string) : Prop :=
strings.Contains value "," = false ∧ strings.Contains value "=" = false.

(** The tag with the recognized keys of a [+resource] directive. *)
Definition resource_tag_string (rt : ResourceTags.t) : string :=
"path=" +:+ ResourceTags.Resource rt +:+ ",rest=" +:+ ResourceTags.REST rt
+:+ ",strategy=" +:+ ResourceTags.Strategy rt.

(** The tag with the recognized keys of a [+controller] directive. *)
Definition controller_tag_string (ct : ControllerTags.t) : string :=
"group=" +:+ schema.GroupVersionKind.Group (ControllerTags.gvk ct)
+:+ ",version=" +:+ schema.GroupVersionKind.Version (ControllerTags.gvk ct)
+:+ ",kind=" +:+ schema.GroupVersionKind.Kind (ControllerTags.gvk ct)
+:+ ",resource=" +:+ ControllerTags.resource ct.

(** ** Further notions for the properties of the indexer *)

(** The resource [r] is the one that [ParseIndex] builds for the declaration
    [t]: the domain of the builder, the group, version and kind of the
    accessors, the resource name and REST name of the parsed tag, and the
    subresources of [GetSubresources] when the declaration has some. *)
Definition resource_of `{Classifier} (b : APIsBuilder.t) (t : types.Type_.t)
  (r : APIResource.t) : Prop :=
∃ tag rt,
  GetResourceTag t = Ok tag ∧ ParseResourceTag tag = Ok rt ∧
  APIResource.Domain r = APIsBuilder.Domain b ∧
  APIResource.Group r = GetGroup t ∧
  APIResource.Version r = GetVersion t (GetGroup t) ∧
  APIResource.Kind r = GetKind t (GetGroup t) ∧
  APIResource.Resource r = ResourceTags.Resource rt ∧
  APIResource.REST r = ResourceTags.REST rt ∧
  APIResource.NonNamespaced r = IsNonNamespaced t ∧
  (if HasSubresource t
   then GetSubresources b r = Ok (APIResource.Subresources r)
   else APIResource.Subresources r = ∅).

(** The declaration [t] is a subresource type of group [g], version [v] and
    kind [k]. *)
Definition declares_subresource `{Classifier} (t : types.Type_.t)
  (g v k : string) : bool :=
IsAPISubresource t && String.eqb (GetGroup t) g
&& String.eqb (GetVersion t (GetGroup t)) v
&& String.eqb (GetKind t (GetGroup t)) k.

(** The last declaration of [order] that is a subresource type of group [g],
    version [v] and kind [k]. *)
Fixpoint last_subresource_type `{Classifier} (ctx : generator.Context.t)
  (order : list types.TypeRef) (g v k : string) : option types.TypeRef :=
match order with
| [] => None
| c :: order' =>
    match last_subresource_type ctx order' g v k with
    | Some c' => Some c'
    | None =>
        match generator.Context.types ctx !! c with
        | Some t => if declares_subresource t g v k then Some c else None
        | None => None
        end
    end
end.

(** [ParseIndex] can index the declaration at [c]: the pointer points to a
    declaration, and when this is an API resource its [+resource] tag is not
    empty and well-formed, and its subresource directives, if it has
    subresources, are well-formed and resolve to different paths. *)
Definition indexable `{Classifier} (b : APIsBuilder.t) (c : types.TypeRef)
  : Prop :=
∃ t, deref (APIsBuilder.context b) c = Ok t ∧
  (IsAPIResource t = true →
   GetTag (types.Type_.CommentLines t) "resource" ":" ≠ "" ∧
   well_formed (GetTag (types.Type_.CommentLines t) "resource" ":") = true ∧
   (HasSubresource t = true →
    ∃ rt, ParseResourceTag (GetTag (types.Type_.CommentLines t) "resource" ":")
          = Ok rt ∧
          Forall (λ d, well_formed d = true) (GetSubresourceTags t) ∧
          NoDup (resolved_path b (new_resource b c t rt)
                   <$> GetSubresourceTags t))).

(** ** The package scanner and the controller scanner *)

(** [filepath.Dir] where the separator is "/" and paths have no volume name:
    the algorithm of [path.Dir]. *)
Definition filepath_Dir (p : string) : string := path.Dir p.

(** gengo's [types.Package], with the fields that the parser reads. *)
Module Package.
Record t : Type := mk { Path : string; Name : string; Comments : list string }.
End Package.

(** gengo's [types.Universe], the packages by import path: the field
    [Universe] of the context. A path that is no key gives the nil package. *)
Definition Universe : Type := gmap string Package.t.

Module Controller.
Record t : Type := mk {
Target : schema.GroupVersionKind.t;
Resource : string;
Pkg : option Package.t;
Repo : string
}.
End Controller.

(** The fields of the builder that [ParsePackages] writes. *)
Module Packages.
Record t : Type := mk {
VersionedPkgs : gset string;
UnversionedPkgs : gset string;
APIsPkg : string
}.
End Packages.

Definition multiple_apis (a b : string) : string :=
"Found multiple apis directory paths: " +:+ a +:+ " and " +:+ b +:+ ".  " +:+
"Do you have a +resource tag on a resource that is not in a version " +:+
"directory?".

(** The body of the loop of [ParsePackages], for one declaration. *)
Definition ParsePackages_step `{Classifier} (ctx : generator.Context.t)
  (s : Packages.t) (o : types.TypeRef) : result Packages.t :=
t ← deref ctx o;
if IsAPIResource t then
  let versioned := types.Name.Package (types.Type_.Name t) in
  let vs := {[versioned]} ∪ Packages.VersionedPkgs s in
  let unversioned := filepath_Dir versioned in
  let us := {[unversioned]} ∪ Packages.UnversionedPkgs s in
  let apis := filepath_Dir unversioned in
  if negb (String.eqb apis (Packages.APIsPkg s))
     && (0 <? strings.len (Packages.APIsPkg s))
  then Err (Panic (multiple_apis (Packages.APIsPkg s) apis))
  else Ok (Packages.mk vs us apis)
else Ok s.

(** ParsePackages parses out the sets of Versioned, Unversioned packages and
    identifies the root Apis package. [APIsPkg] is the root that the builder
    holds when the function is called. *)
Definition ParsePackages `{Classifier} (ctx : generator.Context.t)
  (APIsPkg : string) : result Packages.t :=
foldM (ParsePackages_step ctx) (generator.Context.Order ctx)
  (Packages.mk ∅ ∅ APIsPkg).

(** The body of the loop of [ParseGroupNames], for one package path. *)
Definition ParseGroupNames_step (universe : Universe) (GroupNames : gset string)
  (p : string) : gset string :=
match universe !! p with
| None => (* If the input had no Go files, for example. *) GroupNames
| Some _ => {[filepath.Base p]} ∪ GroupNames
end.

(** The loop of [ParseGroupNames] ranges over a set, in an order of Go's
    choice: [ps] is the order it takes. *)
Definition ParseGroupNames_in (universe : Universe) (ps : list string)
  : gset string :=
fold_left (ParseGroupNames_step universe) ps ∅.

(** ParseGroupNames initializes b.GroupNames with the set of all groups *)
Definition ParseGroupNames (universe : Universe) (UnversionedPkgs : gset string)
  : gset string :=
ParseGroupNames_in universe (elements UnversionedPkgs).

(** The body of the loop of [ParseControllers], for one declaration.
    [IsController] is a function of the package that [parser.go] calls but
    does not define. *)
Definition ParseControllers_step `{Classifier}
  (IsController : types.Type_.t → bool) (ctx : generator.Context.t)
  (universe : Universe) (Controllers : list Controller.t) (c : types.TypeRef)
  : result (list Controller.t) :=
t ← deref ctx c;
if IsController t then
  tag ← GetControllerTag t;
  tags ← ParseControllerTag tag;
  match strings.Split (types.Name.Package (types.Type_.Name t))
          "/pkg/controller" with
  | repo :: _ =>
      let pkg := universe !! types.Name.Package (types.Type_.Name t) in
      Ok (Controllers ++
          [Controller.mk (ControllerTags.gvk tags) (ControllerTags.resource tags)
             pkg repo])
  | [] => Err (Panic "runtime error: index out of range [0] with length 0")
  end
else Ok Controllers.

Definition ParseControllers `{Classifier}
  (IsController : types.Type_.t → bool) (ctx : generator.Context.t)
  (universe : Universe) (Controllers : list Controller.t)
  : result (list Controller.t) :=
foldM (ParseControllers_step IsController ctx universe)
  (generator.Context.Order ctx) Controllers.

(** *** Notions for the scanners *)

(** [t] is a declaration that [Order] points to. *)
Definition declared (ctx : generator.Context.t) (t : types.Type_.t) : Prop :=
∃ c, c ∈ generator.Context.Order ctx ∧ deref ctx c = Ok t.

(** The directory two levels above the package of a declaration. *)
Definition apis_of (t : types.Type_.t) : string :=
filepath_Dir (filepath_Dir (types.Name.Package (types.Type_.Name t))).

(** The declarations that [Order] points to, in its order. *)
Definition declarations (ctx : generator.Context.t) : list types.Type_.t :=
omap (λ c, generator.Context.types ctx !! c) (generator.Context.Order ctx).

(** [repo] is the part of [pkg] before its first "/pkg/controller", and the
    whole of it when there is none. *)
Definition repo_of (pkg repo : string) : Prop :=
if strings.Contains pkg "/pkg/controller"
then ∃ rest, pkg = repo +:+ "/pkg/controller" +:+ rest ∧
       ∀ a b, pkg = a +:+ "/pkg/controller" +:+ b →
              (String.length repo ≤ String.length a)%nat
else repo = pkg.

(** The controller that [ParseControllers] records for the declaration [t]. *)
Definition controller_of `{Classifier} (universe : Universe)
  (t : types.Type_.t) (ctl : Controller.t) : Prop :=
∃ tags,
  ParseControllerTag (GetTag (types.Type_.CommentLines t) "controller" ":")
  = Ok tags ∧
  Controller.Target ctl = ControllerTags.gvk tags ∧
  Controller.Resource ctl = ControllerTags.resource tags ∧
  Controller.Pkg ctl = universe !! types.Name.Package (types.Type_.Name t) ∧
  repo_of (types.Name.Package (types.Type_.Name t)) (Controller.Repo ctl).

(** [ParseControllers] can scan the declaration at [c]. *)
Definition scannable `{Classifier} (IsController : types.Type_.t → bool)
  (ctx : generator.Context.t) (c : types.TypeRef) : Prop :=
∃ t, deref ctx c = Ok t ∧
  (IsController t = true →
   GetTag (types.Type_.CommentLines t) "controller" ":" ≠ "" ∧
   well_formed (GetTag (types.Type_.CommentLines t) "controller" ":") = true).

(** A universe for the examples: a controller beside the declarations of
    [example.ctx], and the packages of both. *)
Definition example_controller : types.Type_.t :=
types.Type_.mk
  (types.Name.mk "example.com/pkg/controller/widget" "WidgetController")
  "Struct" ["+controller:group=core,version=v1,kind=Widget,resource=widgets"]
  [] None.

Definition example_ctx : generator.Context.t :=
generator.Context.mk [0; 1; 7]%nat
  (generator.Context.types example.ctx ++ [example_controller]).

Definition example_IsController (t : types.Type_.t) : bool :=
example.has_comment "+controller" t.

Definition example_universe : Universe :=
{[ "example.com/apis/core" := Package.mk "example.com/apis/core" "core" [];
   "example.com/apis" :=
     Package.mk "example.com/apis" "apis" ["+domain=example.com"] ]}.

(** Further examples: a type with three directives for one path followed by
    a malformed directive, the resource built for it and a builder whose
    store holds the type; and two declarations of one subresource type. *)
Definition example_Tripled : types.Type_.t :=
types.Type_.mk (types.Name.mk example.v1 "Tripled") "Struct"
  ["+resource:path=tripleds";
   "+subresource:request=ScaleRequest,path=tripleds/scale,rest=ScaleREST";
   "+subresource:request=OtherRequest,path=scale,rest=OtherREST";
   "+subresource:request=ThirdRequest,path=scale,rest=ThirdREST";
   "+subresource:garbage"]
  [] None.

Definition example_tripled : APIResource.t :=
APIResource.mk "example.com" "core" "v1" "Tripled" "tripleds" "" ∅ 0%nat "" ""
  false.

Definition example_tripled_builder : APIsBuilder.t :=
APIsBuilder.mk (generator.Context.mk [0%nat] [example_Tripled])
  "example.com" ∅ ∅ ∅ [].

Definition example_ScaleRequest : types.Type_.t :=
types.Type_.mk (types.Name.mk example.v1 "ScaleRequest") "Struct"
  ["+subresource-request"] [] None.

Definition example_ScaleRequest' : types.Type_.t :=
types.Type_.mk (types.Name.mk example.v1 "ScaleRequest") "Struct"
  ["+subresource-request"] [types.Member.mk "Replicas" false 2%nat] None.

Definition example_requests_builder : APIsBuilder.t :=
APIsBuilder.mk
  (generator.Context.mk [0; 1]%nat
     [example_ScaleRequest; example_ScaleRequest'; example.string_])
  "example.com" ∅ ∅ ∅ [].

(** * Properties *)

(** ** Strings *)

Example Split_ex1 : strings.Split "path=widgets,rest=R" "," = ["path=widgets"; "rest=R"].
Proof. reflexivity. Qed.
Example Split_ex2 : strings.Split "" "," = [""].
Proof. reflexivity. Qed.
Example Split_ex3 : strings.Split "a==b" "=" = ["a"; ""; "b"].
Proof. reflexivity. Qed.
Example Split_ex4 : strings.Split "x/pkg/controller/y" "/pkg/controller" = ["x"; "/y"].
Proof. reflexivity. Qed.
Example Replace_ex1 : strings.Replace "widgets/scale" "widgets/" "" (-1) = "scale".
Proof. reflexivity. Qed.
Example Replace_ex2 : strings.Replace "a/b/a/c" "a/" "" 1 = "b/a/c".
Proof. reflexivity. Qed.
Example Replace_ex3 : strings.Replace "abc" "" "-" (-1) = "-a-b-c-".
Proof. reflexivity. Qed.
Example TrimSuffix_ex1 : strings.TrimSuffix "core.WidgetStrategy" "Strategy" = "core.Widget".
Proof. reflexivity. Qed.
Example TrimSuffix_ex2 : strings.TrimSuffix "Foo" "Strategy" = "Foo".
Proof. reflexivity. Qed.
Example LastIndex_ex1 : strings.LastIndex "k8s.io/api/v1.Scale" "." = 13.
Proof. reflexivity. Qed.
Example LastIndex_ex2 : strings.LastIndex "Scale" "." = -1.
Proof. reflexivity. Qed.
Example Base_ex1 : filepath.Base "k8s.io/api/autoscaling/v1" = "v1".
Proof. reflexivity. Qed.
Example Base_ex2 : filepath.Base "a/b//" = "b".
Proof. reflexivity. Qed.
Example Base_ex3 : filepath.Base "///" = "/".
Proof. reflexivity. Qed.
Example Base_ex4 : filepath.Base "" = ".".
Proof. reflexivity. Qed.
Example Dir_ex1 : path.Dir "a/b/../c/./d//e" = "a/c/d".
Proof. reflexivity. Qed.
Example Dir_ex2 : path.Dir "example.com/apis/core/v1" = "example.com/apis/core".
Proof. reflexivity. Qed.
Example Clean_ex1 : path.Clean "../../a/.." = "../..".
Proof. reflexivity. Qed.
Example Clean_ex2 : path.Clean "/../a" = "/a".
Proof. reflexivity. Qed.
Example pop_ex1 : pop [1; 2; 3; 4]%nat = Some (1%nat, [4; 2; 3]%nat).
Proof. reflexivity. Qed.

Section StringFacts.
Implicit Types (s t u p : string) (c d : ascii).

Lemma string_app_cons c s t : String c s +:+ t = String c (s +:+ t).
Proof. reflexivity. Qed.

Lemma string_app_nil_l s : "" +:+ s = s.
Proof. reflexivity. Qed.

Lemma string_app_nil_r s : s +:+ "" = s.
Proof. induction s as [|c s IH]; [done|]. by rewrite string_app_cons, IH. Qed.

Lemma string_app_assoc s t u : (s +:+ t) +:+ u = s +:+ t +:+ u.
Proof. induction s as [|c s IH]; [done|]. by rewrite !string_app_cons, IH. Qed.

Lemma string_length_app s t :
String.length (s +:+ t) = (String.length s + String.length t)%nat.
Proof. induction s as [|c s IH]; [done|]. rewrite string_app_cons. simpl. by rewrite IH. Qed.

Lemma substring_0_app s t : String.substring 0 (String.length s) (s +:+ t) = s.
Proof.
induction s as [|c s IH]; [by destruct t|].
rewrite string_app_cons. simpl. by rewrite IH.
Qed.

Lemma substring_all s : String.substring 0 (String.length s) s = s.
Proof. induction s as [|c s IH]; [done|]. simpl. by rewrite IH. Qed.

Lemma substring_skip_app s t n :
String.substring (String.length s) n (s +:+ t) = String.substring 0 n t.
Proof. induction s as [|c s IH]; [done|]. rewrite string_app_cons. simpl. apply IH. Qed.

Lemma HasPrefix_app s p : strings.HasPrefix (p +:+ s) p = true.
Proof.
induction p as [|c p IH]; [done|].
rewrite string_app_cons. simpl. by rewrite Ascii.eqb_refl.
Qed.

Lemma HasPrefix_inv s p : strings.HasPrefix s p = true → ∃ r, s = p +:+ r.
Proof.
revert s. induction p as [|c p IH]; intros s Hp.
- by exists s.
- destruct s as [|d s]; [done|]. simpl in Hp.
destruct (Ascii.eqb_spec c d) as [->|]; [|done].
destruct (IH _ Hp) as [r ->]. by exists r.
Qed.

Lemma Contains_inv s p : strings.Contains s p = true → ∃ a b, s = a +:+ p +:+ b.
Proof.
induction s as [|c s IH]; simpl; intros Hc.
- rewrite orb_false_r in Hc. apply HasPrefix_inv in Hc as [r Hr].
exists "", r. by rewrite string_app_nil_l.
- apply orb_true_iff in Hc as [Hc|Hc].
+ apply HasPrefix_inv in Hc as [r Hr]. exists "", r. by rewrite string_app_nil_l.
+ destruct (IH Hc) as (a & b & ->). by exists (String c a), b.
Qed.

Lemma Contains_app a p b : strings.Contains (a +:+ p +:+ b) p = true.
Proof.
induction a as [|c a IH].
- rewrite string_app_nil_l. destruct (p +:+ b) eqn:E; simpl; rewrite <- E;
  by rewrite HasPrefix_app.
- rewrite string_app_cons. simpl. rewrite IH. apply orb_true_r.
Qed.

Lemma Contains_cons_char c d s :
strings.Contains (String c s) (String d "") =
Ascii.eqb d c || strings.Contains s (String d "").
Proof.
simpl. destruct (Ascii.eqb d c); [|done]. by destruct s.
Qed.

Lemma Contains_app_char_false a b d :
strings.Contains (a +:+ b) (String d "") = false ↔
strings.Contains a (String d "") = false ∧
strings.Contains b (String d "") = false.
Proof.
induction a as [|c a IH].
- rewrite string_app_nil_l. simpl. tauto.
- rewrite string_app_cons, !Contains_cons_char, !orb_false_iff, IH. tauto.
Qed.

Lemma LastIndex_from_none i s d :
strings.Contains s (String d "") = false →
strings.LastIndex_from i s (String d "") = -1.
Proof.
revert i. induction s as [|c s IH]; intros i Hc; [done|].
rewrite Contains_cons_char in Hc. apply orb_false_iff in Hc as [Hd Hs].
simpl. rewrite (IH _ Hs). simpl. by rewrite Hd.
Qed.

Lemma LastIndex_from_last i a b d :
0 ≤ i →
strings.Contains b (String d "") = false →
strings.LastIndex_from i (a +:+ String d b) (String d "") = i + strings.len a.
Proof.
revert i. induction a as [|c a IH]; intros i Hi Hb.
- rewrite string_app_nil_l. simpl. rewrite (LastIndex_from_none _ _ _ Hb). simpl.
rewrite Ascii.eqb_refl. unfold strings.len. simpl. lia.
- rewrite string_app_cons. simpl. rewrite IH by (done || lia).
unfold strings.len. simpl String.length.
destruct (Z.leb_spec 0 (i + 1 + Z.of_nat (String.length a))); lia.
Qed.

Lemma drop_app s t : filepath.drop (String.length s) (s +:+ t) = t.
Proof. induction s as [|c s IH]; [by destruct t|]. by rewrite string_app_cons. Qed.

Lemma HasSuffix_app p suf : strings.HasSuffix (p +:+ suf) suf = true.
Proof.
unfold strings.HasSuffix. rewrite string_length_app.
apply andb_true_iff. split; [apply Nat.leb_le; lia|].
replace (String.length p + String.length suf - String.length suf)%nat
with (String.length p) by lia.
rewrite substring_skip_app, substring_all. apply String.eqb_refl.
Qed.

Lemma TrimSuffix_app p suf : strings.TrimSuffix (p +:+ suf) suf = p.
Proof.
unfold strings.TrimSuffix. rewrite HasSuffix_app, string_length_app.
replace (String.length p + String.length suf - String.length suf)%nat
with (String.length p) by lia.
apply substring_0_app.
Qed.

End StringFacts.

(** ** The error monad *)

Lemma bind_unfold {A B : Type} (m : result A) (k : A → result B) :
  (m ≫= k) = match m with Ok a => k a | Err e => Err e end.
Proof. reflexivity. Qed.

Lemma foldM_cons {S A : Type} (f : S → A → result S) (x : A) (l : list A) (s : S) :
  foldM f (x :: l) s =
  match f s x with Ok s' => foldM f l s' | Err e => Err e end.
Proof. reflexivity. Qed.

Lemma foldM_app {S A : Type} (f : S → A → result S) (l1 l2 : list A) (s : S) :
  foldM f (l1 ++ l2) s = (s' ← foldM f l1 s; foldM f l2 s').
Proof.
  revert s. induction l1 as [|x l1 IH]; intros s; [done|].
  rewrite <- app_comm_cons, !foldM_cons, bind_unfold.
  destruct (f s x) as [s'|e]; [|done]. by rewrite IH, bind_unfold.
Qed.

(** A property of the state that every turn keeps holds at the end. *)
Lemma foldM_inv {S A : Type} (P : S → Prop) (f : S → A → result S)
  (l : list A) (s s' : S) :
  (∀ s x s', x ∈ l → P s → f s x = Ok s' → P s') →
  P s → foldM f l s = Ok s' → P s'.
Proof.
  revert s. induction l as [|x l IH]; intros s Hf Hs Hl.
  - injection Hl as <-. done.
  - rewrite foldM_cons in Hl. destruct (f s x) as [s1|e] eqn:E; [|done].
    apply (IH s1); [|by eapply Hf; [left|..]|done].
    intros ? ? ? ?. apply Hf. by right.
Qed.

(** A loop whose turns cannot fail does not fail. *)
Lemma foldM_total {S A : Type} (f : S → A → result S) (g : S → A → S)
  (l : list A) (s : S) :
  (∀ s x, x ∈ l → f s x = Ok (g s x)) →
  foldM f l s = Ok (fold_left g l s).
Proof.
  revert s. induction l as [|x l IH]; intros s Hf; [done|].
  rewrite foldM_cons, Hf by left. simpl. apply IH. intros ? ? ?. apply Hf. by right.
Qed.

(** A loop in which every failure is [e], and one turn fails from any state,
    fails with [e]. *)
Lemma foldM_fails {S A : Type} (f : S → A → result S) (e : failure)
  (l : list A) (s : S) :
  (∀ s x, x ∈ l → is_Ok (f s x) ∨ f s x = Err e) →
  (∃ x, x ∈ l ∧ ∀ s, f s x = Err e) →
  foldM f l s = Err e.
Proof.
  revert s. induction l as [|x l IH]; intros s Hall (y & Hy & Hfail).
  - by apply elem_of_nil in Hy.
  - rewrite foldM_cons.
    destruct (Hall s x ltac:(left)) as [[s' E]|E]; rewrite E; [|done].
    apply elem_of_cons in Hy as [->|Hy]; [by rewrite Hfail in E|].
    apply IH; [|by exists y]. intros ? ? ?. apply Hall. by right.
Qed.

(** ** The tag grammar parser *)

Lemma two_parts_true elem :
  two_parts elem = true → ∃ k v, strings.Split elem "=" = [k; v].
Proof.
  unfold two_parts. intros Hl. apply Nat.eqb_eq in Hl.
  destruct (strings.Split elem "=") as [|k [|v [|? ?]]]; try done. by exists k, v.
Qed.

Lemma two_parts_false elem :
  two_parts elem = false →
  ∀ k v, strings.Split elem "=" ≠ [k; v].
Proof. unfold two_parts. intros Hl k v E. by rewrite E in Hl. Qed.

Lemma well_formed_elem tag elem :
  well_formed tag = true → elem ∈ strings.Split tag "," → two_parts elem = true.
Proof.
  unfold well_formed. rewrite forallb_forall. intros Hw Hin.
  apply Hw. by apply list_elem_of_In.
Qed.

Lemma ill_formed_elem tag :
  well_formed tag = false →
  ∃ elem, elem ∈ strings.Split tag "," ∧ two_parts elem = false.
Proof.
  unfold well_formed. intros Hw.
  destruct (existsb (λ e, negb (two_parts e)) (strings.Split tag ",")) eqn:E.
  - apply existsb_exists in E as (x & Hx & Hn). exists x. split.
    + by apply list_elem_of_In.
    + by destruct (two_parts x).
  - exfalso. assert (forallb two_parts (strings.Split tag ",") = true); [|congruence].
    apply forallb_forall. intros x Hx.
    destruct (two_parts x) eqn:Ex; [done|].
    assert (existsb (λ e, negb (two_parts e)) (strings.Split tag ",") = true);
      [|congruence].
    apply existsb_exists. exists x. by rewrite Ex.
Qed.


Lemma foldM_is_Ok {S A : Type} (f : S → A → result S) (l : list A) (s : S) :
  (∀ s x, x ∈ l → is_Ok (f s x)) → is_Ok (foldM f l s).
Proof.
  revert s. induction l as [|x l IH]; intros s Hf; [by exists s|].
  rewrite foldM_cons. destruct (Hf s x ltac:(left)) as [s' ->].
  apply IH. intros ? ? ?. apply Hf. by right.
Qed.

Section TagElements.
Variables (tag elem : string).

Lemma ParseResourceTag_elem_ok res :
two_parts elem = true → is_Ok (ParseResourceTag_elem tag res elem).
Proof.
intros (k & v & E)%two_parts_true. unfold ParseResourceTag_elem. rewrite E.
repeat case_match; by eexists.
Qed.

Lemma ParseResourceTag_elem_err res :
two_parts elem = false →
ParseResourceTag_elem tag res elem = Err (Fatal (malformed_resource tag)).
Proof.
intros Hn. pose proof (two_parts_false _ Hn) as Hs.
unfold ParseResourceTag_elem.
destruct (strings.Split elem "=") as [|k [|v [|? ?]]]; try done.
by destruct (Hs k v).
Qed.

Lemma ParseControllerTag_elem_ok res :
two_parts elem = true → is_Ok (ParseControllerTag_elem tag res elem).
Proof.
intros (k & v & E)%two_parts_true. unfold ParseControllerTag_elem. rewrite E.
repeat case_match; by eexists.
Qed.

Lemma ParseControllerTag_elem_err res :
two_parts elem = false →
ParseControllerTag_elem tag res elem = Err (Fatal (malformed_controller tag)).
Proof.
intros Hn. pose proof (two_parts_false _ Hn) as Hs.
unfold ParseControllerTag_elem.
destruct (strings.Split elem "=") as [|k [|v [|? ?]]]; try done.
by destruct (Hs k v).
Qed.

Lemma ParseSubresourceTag_elem_ok c res :
two_parts elem = true → is_Ok (ParseSubresourceTag_elem c tag res elem).
Proof.
intros (k & v & E)%two_parts_true. unfold ParseSubresourceTag_elem. rewrite E.
repeat case_match; by eexists.
Qed.

Lemma ParseSubresourceTag_elem_err c res :
two_parts elem = false →
ParseSubresourceTag_elem c tag res elem = Err (Fatal (malformed_subresource tag)).
Proof.
intros Hn. pose proof (two_parts_false _ Hn) as Hs.
unfold ParseSubresourceTag_elem.
destruct (strings.Split elem "=") as [|k [|v [|? ?]]]; try done.
by destruct (Hs k v).
Qed.
End TagElements.

Lemma ParseSubresourceTag_ok c tag :
  well_formed tag = true → is_Ok (ParseSubresourceTag c tag).
Proof.
  intros Hw. apply foldM_is_Ok. intros s x Hx.
  apply ParseSubresourceTag_elem_ok. by eapply well_formed_elem.
Qed.

Lemma ParseResourceTag_ok tag :
  well_formed tag = true → is_Ok (ParseResourceTag tag).
Proof.
  intros Hw. apply foldM_is_Ok. intros s x Hx.
  apply ParseResourceTag_elem_ok. by eapply well_formed_elem.
Qed.

Lemma ParseSubresourceTag_well_formed c tag tags :
  ParseSubresourceTag c tag = Ok tags → well_formed tag = true.
Proof.
  intros Hp. destruct (well_formed tag) eqn:Hw; [done|].
  apply ill_formed_elem in Hw as (x & Hx & Hn).
  unfold ParseSubresourceTag in Hp.
  rewrite (foldM_fails _ (Fatal (malformed_subresource tag))) in Hp; [done|..].
  - intros s y _. destruct (two_parts y) eqn:Ey.
    + left. by apply ParseSubresourceTag_elem_ok.
    + right. by apply ParseSubresourceTag_elem_err.
  - exists x. split; [done|]. intros s. by apply ParseSubresourceTag_elem_err.
Qed.

Lemma names_string_intro a x b : names_string (a +:+ x +:+ b) x.
Proof. apply Contains_app. Qed.

(** C5. In each of the three tag parsers: when some comma-separated element of
    the tag does not split on "=" into exactly two parts, parsing is fatal, and
    the diagnostic reads "tags must be key value pairs" and includes the raw
    tag; when every element splits into exactly two parts, parsing returns a
    record. *)
Theorem malformed_tag_is_fatal (c : APIResource.t) (tag : string) :
  (well_formed tag = false →
   ParseResourceTag tag = Err (Fatal (malformed_resource tag)) ∧
   ParseControllerTag tag = Err (Fatal (malformed_controller tag)) ∧
   ParseSubresourceTag c tag = Err (Fatal (malformed_subresource tag)) ∧
   ∀ msg, msg ∈ [malformed_resource tag; malformed_controller tag;
                 malformed_subresource tag] →
          names_string msg "tags must be key value pairs" ∧
          names_string msg tag) ∧
  (well_formed tag = true →
   is_Ok (ParseResourceTag tag) ∧ is_Ok (ParseControllerTag tag) ∧
   is_Ok (ParseSubresourceTag c tag)).
Proof.
  split.
  - intros (x & Hx & Hn)%ill_formed_elem. split; [|split; [|split]].
    + apply foldM_fails.
      * intros s y _. destruct (two_parts y) eqn:Ey.
        -- left. by apply ParseResourceTag_elem_ok.
        -- right. by apply ParseResourceTag_elem_err.
      * exists x. split; [done|]. intros s. by apply ParseResourceTag_elem_err.
    + apply foldM_fails.
      * intros s y _. destruct (two_parts y) eqn:Ey.
        -- left. by apply ParseControllerTag_elem_ok.
        -- right. by apply ParseControllerTag_elem_err.
      * exists x. split; [done|]. intros s. by apply ParseControllerTag_elem_err.
    + apply foldM_fails.
      * intros s y _. destruct (two_parts y) eqn:Ey.
        -- left. by apply ParseSubresourceTag_elem_ok.
        -- right. by apply ParseSubresourceTag_elem_err.
      * exists x. split; [done|]. intros s. by apply ParseSubresourceTag_elem_err.
    + intros msg Hmsg. set_unfold in Hmsg.
      destruct Hmsg as [->|[->|[->|[]]]]; split.
      * exact (names_string_intro "// +resource: " "tags must be key value pairs"
                 (".  Expected keys [path=<subresourcepath>] Got string: ["
                  +:+ tag +:+ "]")).
      * exact (names_string_intro
                 "// +resource: tags must be key value pairs.  Expected keys [path=<subresourcepath>] Got string: ["
                 tag "]").
      * exact (names_string_intro "// +controller: " "tags must be key value pairs"
                 (".  Expected keys [group=<group>,version=<version>,kind=<kind>,resource=<resource>] Got string: ["
                  +:+ tag +:+ "]")).
      * exact (names_string_intro
                 "// +controller: tags must be key value pairs.  Expected keys [group=<group>,version=<version>,kind=<kind>,resource=<resource>] Got string: ["
                 tag "]").
      * exact (names_string_intro "// +subresource: " "tags must be key value pairs"
                 (".  Expected keys [request=<requestType>,rest=<restImplType>,path=<subresourcepath>] Got string: ["
                  +:+ tag +:+ "]")).
      * exact (names_string_intro
                 "// +subresource: tags must be key value pairs.  Expected keys [request=<requestType>,rest=<restImplType>,path=<subresourcepath>] Got string: ["
                 tag "]").
  - intros Hw. repeat split.
    + by apply ParseResourceTag_ok.
    + apply foldM_is_Ok. intros s x Hx.
      apply ParseControllerTag_elem_ok. by eapply well_formed_elem.
    + by apply ParseSubresourceTag_ok.
Qed.

Lemma malformed_tag_is_fatal_witness :
  (ParseResourceTag "path=widgets,strategy"
   = Err (Fatal (malformed_resource "path=widgets,strategy"))) ∧
  is_Ok (ParseResourceTag "path=widgets,strategy=S").
Proof.
  split.
  - exact (proj1 (proj1 (malformed_tag_is_fatal (example.resource "widgets")
                           "path=widgets,strategy") eq_refl)).
  - exact (proj1 (proj2 (malformed_tag_is_fatal (example.resource "widgets")
                           "path=widgets,strategy=S") eq_refl)).
Defined.

(** *** The fields of the parsed record are the last values of their keys *)

#[local] Arguments strings.Split : simpl never.
#[local] Arguments strings.Replace : simpl never.

Lemma ParseControllerTag_ok tag :
  well_formed tag = true → is_Ok (ParseControllerTag tag).
Proof.
  intros Hw. apply foldM_is_Ok. intros s x Hx.
  apply ParseControllerTag_elem_ok. by eapply well_formed_elem.
Qed.

Ltac split_elem e :=
  let k := fresh "k" in
  let v := fresh "v" in
  destruct (strings.Split e "=") as [|k [|v [|? ?]]]; try done.

Ltac key_cases k :=
  repeat match goal with
    | |- context [String.eqb k ?lit] =>
        destruct (String.eqb_spec k lit) as [->|?]; simpl
    | H : context [String.eqb k ?lit] |- _ =>
        destruct (String.eqb_spec k lit) as [->|?]; simpl in H
    end.

Lemma last_value_cons key e es :
  last_value key (e :: es) =
  match last_value key es with
  | Some v => Some v
  | None => value_of key e
  end.
Proof. reflexivity. Qed.

Lemma has_key_value_of key e :
  has_key key e = true ↔ is_Some (value_of key e).
Proof.
  unfold has_key, key_of, value_of. split_elem e;
    try (split; [done|by intros [? ?]]).
  destruct (String.eqb k key); split; try done; by intros [? ?].
Qed.

Lemma has_key_false key e : has_key key e = false ↔ value_of key e = None.
Proof.
  pose proof (has_key_value_of key e) as Hk.
  destruct (has_key key e), (value_of key e) as [v|]; split; try done.
  - intros _. by destruct (proj1 Hk eq_refl).
  - intros _. assert (false = true); [|done]. apply Hk. by exists v.
Qed.

(** The definition says what its name says: the value of an element that no
    element with the same key follows. *)
Lemma last_value_last key l1 e l2 v :
  strings.Split e "=" = [key; v] →
  Forall (λ e', has_key key e' = false) l2 →
  last_value key (l1 ++ e :: l2) = Some v.
Proof.
  intros He Hl2.
  assert (last_value key l2 = None) as Hn.
  { induction Hl2 as [|x l Hx _ IH]; [done|].
    rewrite last_value_cons, IH. by apply has_key_false. }
  induction l1 as [|x l1 IH].
  - rewrite (app_nil_l (e :: l2)), last_value_cons, Hn. unfold value_of.
    by rewrite He, String.eqb_refl.
  - rewrite <- app_comm_cons, last_value_cons. by rewrite IH.
Qed.

Lemma ParseResourceTag_fold tag elems res res' :
  foldM (ParseResourceTag_elem tag) elems res = Ok res' →
  ResourceTags.Resource res'
  = default (ResourceTags.Resource res) (last_value "path" elems) ∧
  ResourceTags.REST res'
  = default (ResourceTags.REST res) (last_value "rest" elems) ∧
  ResourceTags.Strategy res'
  = default (ResourceTags.Strategy res) (last_value "strategy" elems).
Proof.
  revert res. induction elems as [|e es IH]; intros res Hf.
  - injection Hf as <-. done.
  - rewrite foldM_cons in Hf.
    destruct (ParseResourceTag_elem tag res e) as [res1|] eqn:E; [|done].
    destruct (IH _ Hf) as (-> & -> & ->). rewrite !last_value_cons. unfold value_of.
    unfold ParseResourceTag_elem in E. split_elem e.
    key_cases k; injection E as <-;
      by destruct (last_value "path" es), (last_value "rest" es),
                  (last_value "strategy" es).
Qed.


Lemma ParseSubresourceTag_fold c tag elems res res' :
  foldM (ParseSubresourceTag_elem c tag) elems res = Ok res' →
  SubresourceTags.RequestKind res'
  = default (SubresourceTags.RequestKind res) (last_value "request" elems) ∧
  SubresourceTags.REST res'
  = default (SubresourceTags.REST res) (last_value "rest" elems) ∧
  SubresourceTags.Path res'
  = default (SubresourceTags.Path res)
      ((λ value, strings.Replace value (APIResource.Resource c +:+ "/") "" (-1))
         <$> last_value "path" elems) ∧
  SubresourceTags.Kind res' = SubresourceTags.Kind res.
Proof.
  revert res. induction elems as [|e es IH]; intros res Hf.
  - injection Hf as <-. done.
  - rewrite foldM_cons in Hf.
    destruct (ParseSubresourceTag_elem c tag res e) as [res1|] eqn:E; [|done].
    destruct (IH _ Hf) as (-> & -> & -> & ->). rewrite !last_value_cons.
    unfold value_of.
    unfold ParseSubresourceTag_elem in E. split_elem e.
    key_cases k; injection E as <-;
      by destruct (last_value "request" es), (last_value "rest" es),
                  (last_value "path" es).
Qed.

Lemma ParseResourceTag_fields tag rt :
  ParseResourceTag tag = Ok rt →
  ResourceTags.Resource rt = default "" (last_value "path" (strings.Split tag ",")) ∧
  ResourceTags.REST rt = default "" (last_value "rest" (strings.Split tag ",")) ∧
  ResourceTags.Strategy rt
  = default "" (last_value "strategy" (strings.Split tag ",")).
Proof.
  intros Hrt.
  exact (ParseResourceTag_fold tag (strings.Split tag ",")
           (ResourceTags.mk "" "" "") rt Hrt).
Qed.


Lemma ParseSubresourceTag_fields c tag st :
  ParseSubresourceTag c tag = Ok st →
  SubresourceTags.RequestKind st
  = default "" (last_value "request" (strings.Split tag ",")) ∧
  SubresourceTags.REST st = default "" (last_value "rest" (strings.Split tag ",")) ∧
  SubresourceTags.Path st
  = default ""
      ((λ value, strings.Replace value (APIResource.Resource c +:+ "/") "" (-1))
         <$> last_value "path" (strings.Split tag ",")) ∧
  SubresourceTags.Kind st = "".
Proof.
  intros Hst.
  exact (ParseSubresourceTag_fold c tag (strings.Split tag ",")
           (SubresourceTags.mk "" "" "" "") st Hst).
Qed.



(** *** The order of the elements *)

Lemma occurrences_cons key e es :
  occurrences key (e :: es) =
  ((if has_key key e then 1 else 0) + occurrences key es)%nat.
Proof.
  unfold occurrences. rewrite filter_cons.
  destruct (decide (has_key key e = true)) as [->|Hn]; [done|].
  by destruct (has_key key e).
Qed.

Lemma occurrences_perm key l l' :
  l ≡ₚ l' → occurrences key l = occurrences key l'.
Proof. intros Hp. unfold occurrences. by rewrite Hp. Qed.

Lemma occurrences_0 key l : occurrences key l = 0%nat → last_value key l = None.
Proof.
  induction l as [|e es IH]; [done|].
  rewrite occurrences_cons, last_value_cons. intros Ho.
  destruct (has_key key e) eqn:E; [lia|].
  rewrite IH by lia. by apply has_key_false.
Qed.

(** A key that occurs at most once has the same last value in every order. *)
Lemma last_value_perm key l l' :
  l ≡ₚ l' → (occurrences key l ≤ 1)%nat → last_value key l = last_value key l'.
Proof.
  induction 1 as [|x l l' Hp IH|x y l|l l' l'' Hp1 IH1 Hp2 IH2]; intros Ho.
  - done.
  - rewrite occurrences_cons in Ho. rewrite !last_value_cons, IH; [done|lia].
  - rewrite !occurrences_cons in Ho. rewrite !last_value_cons.
    destruct (last_value key l); [done|].
    destruct (has_key key x) eqn:Ex, (has_key key y) eqn:Ey; try lia.
    + apply has_key_false in Ey. rewrite Ey. by destruct (value_of key x).
    + apply has_key_false in Ex. rewrite Ex. by destruct (value_of key y).
    + apply has_key_false in Ex, Ey. by rewrite Ex, Ey.
  - rewrite IH1 by done. apply IH2. by rewrite <- (occurrences_perm key l l').
Qed.

Lemma well_formed_perm tag tag' :
  strings.Split tag "," ≡ₚ strings.Split tag' "," →
  well_formed tag = true → well_formed tag' = true.
Proof.
  unfold well_formed. rewrite !forallb_forall. intros Hp Hw x Hx.
  apply Hw. apply list_elem_of_In. rewrite Hp. by apply list_elem_of_In.
Qed.

(** C7. [ParseResourceTag] passes over an element whose key it does not
    recognize: the record is unchanged and parsing goes on. And two well-formed
    tags with the same elements in different orders, each recognized key
    occurring at most once, parse to the same record. *)
Theorem resource_tag_order_and_unknown_keys :
  (∀ tag res elem,
     two_parts elem = true → recognized resource_keys elem = false →
     ParseResourceTag_elem tag res elem = Ok res) ∧
  (∀ tag tag',
     well_formed tag = true →
     strings.Split tag "," ≡ₚ strings.Split tag' "," →
     (∀ key, key ∈ resource_keys →
             (occurrences key (strings.Split tag ",") ≤ 1)%nat) →
     ∃ rt, ParseResourceTag tag = Ok rt ∧ ParseResourceTag tag' = Ok rt).
Proof.
  split.
  - intros tag res elem (k & v & E)%two_parts_true Hr.
    unfold recognized, resource_keys, has_key, key_of in Hr. simpl in Hr.
    rewrite E in Hr. rewrite !orb_false_iff in Hr. destruct Hr as (Hr & Hp & Hs & _).
    unfold ParseResourceTag_elem. by rewrite E, Hr, Hp, Hs.
  - intros tag tag' Hw Hp Ho.
    destruct (ParseResourceTag_ok tag Hw) as [rt Hrt].
    destruct (ParseResourceTag_ok tag' (well_formed_perm _ _ Hp Hw)) as [rt' Hrt'].
    exists rt. split; [done|]. rewrite Hrt'. f_equal.
    apply ParseResourceTag_fields in Hrt as (H1 & H2 & H3).
    apply ParseResourceTag_fields in Hrt' as (H1' & H2' & H3').
    rewrite <- (last_value_perm "path" _ _ Hp) in H1'
      by (apply Ho; set_solver).
    rewrite <- (last_value_perm "rest" _ _ Hp) in H2'
      by (apply Ho; set_solver).
    rewrite <- (last_value_perm "strategy" _ _ Hp) in H3'
      by (apply Ho; set_solver).
    destruct rt, rt'; simpl in *; congruence.
Qed.

Lemma resource_tag_order_and_unknown_keys_witness :
  ParseResourceTag_elem "path=w,zone=z" (ResourceTags.mk "w" "" "") "zone=z"
  = Ok (ResourceTags.mk "w" "" "") ∧
  ∃ rt, ParseResourceTag "path=w,zone=z,strategy=S" = Ok rt ∧
        ParseResourceTag "strategy=S,path=w,zone=z" = Ok rt.
Proof.
  split.
  - exact (proj1 resource_tag_order_and_unknown_keys "path=w,zone=z"
             (ResourceTags.mk "w" "" "") "zone=z" eq_refl eq_refl).
  - apply (proj2 resource_tag_order_and_unknown_keys
             "path=w,zone=z,strategy=S" "strategy=S,path=w,zone=z" eq_refl).
    + change (["path=w"; "zone=z"; "strategy=S"] ≡ₚ ["strategy=S"; "path=w"; "zone=z"]).
      symmetry.
      apply (Permutation_cons_append ["path=w"; "zone=z"] "strategy=S")%list.
    + intros key Hk. unfold resource_keys in Hk. set_unfold in Hk.
      destruct Hk as [->|[->|[->|[]]]]; vm_compute; lia.
Defined.

(** ** Replacing every instance *)

Lemma replace_scan_skip old new n k s :
  strings.replace_scan old new n k s
  = strings.replace_scan old new n 0 (filepath.drop k s).
Proof.
  revert k. induction s as [|c s IH]; intros [|k]; try done.
  simpl. apply IH.
Qed.

Lemma length_drop k s : (String.length (filepath.drop k s) ≤ String.length s)%nat.
Proof.
  revert k. induction s as [|c s IH]; intros [|k]; simpl; try lia.
  specialize (IH k). lia.
Qed.

Lemma replace_scan_remove_all fuel old s :
  old ≠ "" → (String.length s ≤ fuel)%nat →
  strings.replace_scan old "" (-1) 0 s = remove_all fuel old s.
Proof.
  intros Ho. revert s. induction fuel as [|fuel IH]; intros s Hl.
  - destruct s; [done|simpl in Hl; lia].
  - destruct s as [|c s]; [done|].
    simpl remove_all. simpl strings.replace_scan.
    destruct (strings.HasPrefix (String c s) old) eqn:Hp.
    + rewrite string_app_nil_l, replace_scan_skip.
      destruct old as [|o old]; [done|].
      replace (String.length (String o old) - 1)%nat with (String.length old)
        by (simpl; lia).
      simpl filepath.drop. apply IH.
      pose proof (length_drop (String.length old) s). simpl in Hl. lia.
    + f_equal. apply IH. simpl in Hl. lia.
Qed.

Lemma Replace_remove_all old s :
  old ≠ "" →
  strings.Replace s old "" (-1) = remove_all (String.length s) old s.
Proof.
  intros Ho. unfold strings.Replace.
  destruct old as [|o old]; [done|]. simpl.
  by apply replace_scan_remove_all.
Qed.

Lemma app_slash_nonempty s : s +:+ "/" ≠ "".
Proof. by destruct s. Qed.

(** ** The subresource resolver *)

Lemma last_dot s :
  strings.Contains s "." = true →
  ∃ imp bare, s = imp +:+ "." +:+ bare ∧ strings.Contains bare "." = false.
Proof.
  induction s as [|c s IH]; [done|].
  rewrite Contains_cons_char. intros Hc.
  destruct (strings.Contains s ".") eqn:Hs.
  - destruct (IH eq_refl) as (imp & bare & -> & Hb).
    by exists (String c imp), bare.
  - rewrite orb_false_r in Hc. apply Ascii.eqb_eq in Hc as <-.
    by exists "", s.
Qed.

Lemma slice_in_range s lo hi :
  0 ≤ lo ≤ hi → hi ≤ strings.len s →
  strings.slice s lo hi
  = Ok (String.substring (Z.to_nat lo) (Z.to_nat (hi - lo)) s).
Proof.
  intros Hlo Hhi. unfold strings.slice.
  by rewrite (proj2 (Z.leb_le 0 lo)), (proj2 (Z.leb_le lo hi)),
    (proj2 (Z.leb_le hi _)) by lia.
Qed.

Lemma GetNameAndImport_last_dot tags imp bare :
  SubresourceTags.RequestKind tags = imp +:+ "." +:+ bare →
  strings.Contains bare "." = false →
  GetNameAndImport tags = Ok (filepath.Base imp +:+ "." +:+ bare, imp).
Proof.
  intros Hr Hb. unfold GetNameAndImport. rewrite Hr.
  unfold strings.LastIndex.
  change (imp +:+ "." +:+ bare) with (imp +:+ String "." bare).
  rewrite LastIndex_from_last by done.
  change (imp +:+ String "." bare) with (imp +:+ "." +:+ bare).
  assert (strings.len (imp +:+ "." +:+ bare)
          = strings.len imp + 1 + strings.len bare) as Hlen.
  { unfold strings.len. rewrite !string_length_app. simpl String.length. lia. }
  assert (0 ≤ strings.len imp ∧ 0 ≤ strings.len bare) as [Hi Hbl]
    by (unfold strings.len; lia).
  rewrite !slice_in_range by lia. rewrite !bind_unfold, Hlen.
  replace (Z.to_nat (0 + strings.len imp - 0)) with (String.length imp)
    by (unfold strings.len; lia).
  replace (Z.to_nat (0 + strings.len imp + 1))
    with (String.length (imp +:+ "."))
    by (rewrite string_length_app; unfold strings.len; simpl; lia).
  replace (Z.to_nat (strings.len imp + 1 + strings.len bare
                     - (0 + strings.len imp + 1)))
    with (String.length bare) by (unfold strings.len; lia).
  change (Z.to_nat 0) with 0%nat.
  rewrite substring_0_app.
  rewrite <- (string_app_assoc imp "." bare), substring_skip_app, substring_all.
  reflexivity.
Qed.

Lemma new_subresource_fields b c d tags :
  ParseSubresourceTag c d = Ok tags →
  ∃ sr, new_subresource b c d = Ok sr ∧
    APISubresource.Domain sr = APIsBuilder.Domain b ∧
    APISubresource.Group sr = APIResource.Group c ∧
    APISubresource.Version sr = APIResource.Version c ∧
    APISubresource.Resource sr = APIResource.Resource c ∧
    APISubresource.Kind sr = SubresourceTags.Kind tags ∧
    APISubresource.REST sr = SubresourceTags.REST tags ∧
    APISubresource.Path sr = SubresourceTags.Path tags ∧
    (strings.Contains (SubresourceTags.RequestKind tags) "." = false →
     APISubresource.Request sr = SubresourceTags.RequestKind tags ∧
     APISubresource.ImportPackage sr = "") ∧
    (∀ imp bare,
       SubresourceTags.RequestKind tags = imp +:+ "." +:+ bare →
       strings.Contains bare "." = false →
       APISubresource.Request sr = filepath.Base imp +:+ "." +:+ bare ∧
       APISubresource.ImportPackage sr = imp).
Proof.
  intros Hp. unfold new_subresource. rewrite Hp, bind_unfold.
  unfold IsInPackage.
  destruct (strings.Contains (SubresourceTags.RequestKind tags) ".") eqn:Hc; simpl negb; cbv iota.
  - destruct (last_dot _ Hc) as (imp & bare & Hr & Hb).
    rewrite (GetNameAndImport_last_dot _ _ _ Hr Hb), bind_unfold.
    eexists. split; [done|]. simpl. split_and!; try done.
    intros imp' bare' Hr' Hb'.
    pose proof (GetNameAndImport_last_dot _ _ _ Hr Hb) as E1.
    pose proof (GetNameAndImport_last_dot _ _ _ Hr' Hb') as E2.
    rewrite E1 in E2. by injection E2 as -> ->.
  - eexists. split; [done|]. simpl. split_and!; try done.
    intros imp bare Hr Hb. rewrite Hr in Hc.
    by rewrite (Contains_app imp "." bare) in Hc.
Qed.

Lemma new_subresource_ok b c d :
  well_formed d = true → is_Ok (new_subresource b c d).
Proof.
  intros [tags Ht]%(ParseSubresourceTag_ok c).
  destruct (new_subresource_fields b c d tags Ht) as (sr & -> & _). by exists sr.
Qed.

Lemma new_subresource_inv b c d sr :
  new_subresource b c d = Ok sr →
  ∃ tags, ParseSubresourceTag c d = Ok tags.
Proof.
  unfold new_subresource. destruct (ParseSubresourceTag c d) as [tags|e]; [|done].
  intros _. by exists tags.
Qed.

(** C4. A well-formed subresource directive on a resource whose plural name
    is [R] gives a descriptor whose path is the value of the path key with every
    instance of [R/] removed. A request type without a "." is kept as it is,
    with an empty import path; one with a "." is split at the last one into the
    import path and the bare name, and is rewritten to the base name of the
    import path, a ".", and the bare name, the import path being recorded. The
    loop of [GetSubresources] stores the descriptor under its path. *)
Theorem subresource_path_and_request (b : APIsBuilder.t) (c : APIResource.t)
  (r : gmap string APISubresource.t) (d : string) :
  well_formed d = true →
  ∃ tags sr,
    ParseSubresourceTag c d = Ok tags ∧
    new_subresource b c d = Ok sr ∧
    SubresourceTags.RequestKind tags
    = default "" (last_value "request" (strings.Split d ",")) ∧
    APISubresource.Path sr
    = default ""
        ((λ value, remove_all (String.length value)
                     (APIResource.Resource c +:+ "/") value)
           <$> last_value "path" (strings.Split d ",")) ∧
    (strings.Contains (SubresourceTags.RequestKind tags) "." = false →
     APISubresource.Request sr = SubresourceTags.RequestKind tags ∧
     APISubresource.ImportPackage sr = "") ∧
    (∀ imp bare,
       SubresourceTags.RequestKind tags = imp +:+ "." +:+ bare →
       strings.Contains bare "." = false →
       APISubresource.Request sr = filepath.Base imp +:+ "." +:+ bare ∧
       APISubresource.ImportPackage sr = imp) ∧
    (r !! APISubresource.Path sr = None →
     GetSubresources_step b c r d = Ok (<[APISubresource.Path sr := sr]> r)).
Proof.
  intros Hw. destruct (ParseSubresourceTag_ok c d Hw) as [tags Ht].
  destruct (new_subresource_fields b c d tags Ht)
    as (sr & Hsr & _ & _ & _ & _ & _ & _ & Hpath & Hlocal & Himport).
  exists tags, sr. split_and!; try done.
  - by apply ParseSubresourceTag_fields in Ht as (? & _).
  - rewrite Hpath. apply ParseSubresourceTag_fields in Ht as (_ & _ & -> & _).
    destruct (last_value "path" (strings.Split d ",")) as [value|]; [|done].
    simpl. apply Replace_remove_all, app_slash_nonempty.
  - intros Hr. unfold GetSubresources_step. by rewrite Hsr, bind_unfold, Hr.
Qed.

Lemma subresource_path_and_request_witness :
  ∃ sr, new_subresource (example.builder []) (example.resource "widgets")
          "request=k8s.io/api/autoscaling/v1.Scale,path=widgets/scale,rest=ScaleREST"
        = Ok sr ∧
        APISubresource.Path sr = "scale" ∧
        APISubresource.Request sr = "v1.Scale" ∧
        APISubresource.ImportPackage sr = "k8s.io/api/autoscaling/v1".
Proof.
  destruct (subresource_path_and_request (example.builder [])
              (example.resource "widgets") ∅
              "request=k8s.io/api/autoscaling/v1.Scale,path=widgets/scale,rest=ScaleREST"
              eq_refl)
    as (tags & sr & Ht & Hsr & Hreq & Hpath & _ & Himport & _).
  exists sr. split; [exact Hsr|]. split; [exact Hpath|].
  exact (Himport "k8s.io/api/autoscaling/v1" "Scale" Hreq eq_refl).
Defined.

Section ResolverFacts.
Context `{Classifier}.

Lemma GetSubresources_fold b c t :
deref (APIsBuilder.context b) (APIResource.Type_ c) = Ok t →
GetSubresources b c = foldM (GetSubresources_step b c) (GetSubresourceTags t) ∅.
Proof.
intros Ht. unfold GetSubresources. rewrite Ht, bind_unfold.
by destruct (GetSubresourceTags t).
Qed.

Lemma GetSubresources_deref b c m :
GetSubresources b c = Ok m →
∃ t, deref (APIsBuilder.context b) (APIResource.Type_ c) = Ok t.
Proof.
unfold GetSubresources.
destruct (deref (APIsBuilder.context b) (APIResource.Type_ c)) as [t|]; [|done].
intros _. by exists t.
Qed.

Lemma GetSubresources_step_inv b c r d r' :
GetSubresources_step b c r d = Ok r' →
∃ sr, new_subresource b c d = Ok sr ∧
    r !! APISubresource.Path sr = None ∧
    r' = <[APISubresource.Path sr := sr]> r.
Proof.
unfold GetSubresources_step.
destruct (new_subresource b c d) as [sr|]; [|done]. rewrite bind_unfold.
destruct (r !! APISubresource.Path sr) eqn:E; [done|].
intros [= <-]. by exists sr.
Qed.

(** C9. Every descriptor that [GetSubresources] produces has an empty [Kind]:
[ParseSubresourceTag] never assigns the [Kind] of the tags, and
[GetSubresources] copies it to the descriptor. *)
Theorem subresource_kind_is_empty :
(∀ c tag tags,
 ParseSubresourceTag c tag = Ok tags → SubresourceTags.Kind tags = "") ∧
(∀ b c m path sr,
 GetSubresources b c = Ok m → m !! path = Some sr →
 APISubresource.Kind sr = "").
Proof.
assert (∀ c tag tags,
        ParseSubresourceTag c tag = Ok tags → SubresourceTags.Kind tags = "")
as Hkind.
{ intros c tag tags Ht. by apply ParseSubresourceTag_fields in Ht as (_ & _ & _ & ->). }
split; [done|].
intros b c m path sr Hm. destruct (GetSubresources_deref _ _ _ Hm) as [t Ht].
rewrite (GetSubresources_fold _ _ _ Ht) in Hm. revert path sr.
eapply (foldM_inv
        (λ m, ∀ path sr, m !! path = Some sr → APISubresource.Kind sr = ""));
[| |exact Hm].
- intros r d r' _ Hr (sr' & Hsr & _ & ->)%GetSubresources_step_inv path sr.
destruct (decide (APISubresource.Path sr' = path)) as [<-|Hne].
+ rewrite lookup_insert_eq. intros [= <-].
  destruct (new_subresource_inv _ _ _ _ Hsr) as [tags Htags].
  destruct (new_subresource_fields b c d tags Htags)
    as (sr'' & Hsr' & _ & _ & _ & _ & Hk & _).
  rewrite Hsr in Hsr'. injection Hsr' as <-. rewrite Hk. by eapply Hkind.
+ rewrite lookup_insert_ne by done. apply Hr.
- intros path sr. by rewrite lookup_empty.
Qed.

End ResolverFacts.

Lemma subresource_kind_is_empty_witness :
  ∃ m sr, GetSubresources (H := example.classifier) (example.builder [])
            (example.resource "widgets") = Ok m ∧
          m !! "scale" = Some sr ∧ APISubresource.Kind sr = "".
Proof.
  eexists _, _. split; [|split].
  - vm_compute. reflexivity.
  - vm_compute. reflexivity.
  - eapply (proj2 (subresource_kind_is_empty (H := example.classifier))
              (example.builder []) (example.resource "widgets") _ "scale" _).
    + vm_compute. reflexivity.
    + vm_compute. reflexivity.
Defined.

(** *** Two directives for one path *)

Lemma names_string_suffix a x : names_string (a +:+ x) x.
Proof.
  rewrite <- (string_app_nil_r x) at 1. apply names_string_intro.
Qed.

Lemma duplicate_subresource_names path v d :
  names_string (duplicate_subresource path v d) path ∧
  names_string (duplicate_subresource path v d) d.
Proof.
  unfold duplicate_subresource. split.
  - apply names_string_intro.
  - rewrite <- !string_app_assoc. apply names_string_suffix.
Qed.

Section Duplicates.
Variables (b : APIsBuilder.t) (c : APIResource.t).

Lemma GetSubresources_loop pre rest r :
registered b c pre r →
Forall (λ d, well_formed d = true) rest →
(∃ r', foldM (GetSubresources_step b c) rest r = Ok r' ∧
     ∀ i j d1 d2 sr1 sr2,
       (i < j)%nat → (length pre ≤ j)%nat →
       (pre ++ rest) !! i = Some d1 → (pre ++ rest) !! j = Some d2 →
       new_subresource b c d1 = Ok sr1 → new_subresource b c d2 = Ok sr2 →
       APISubresource.Path sr1 ≠ APISubresource.Path sr2) ∨
(∃ e, foldM (GetSubresources_step b c) rest r = Err e ∧
    collision b c (pre ++ rest) e).
Proof.
revert pre r. induction rest as [|d rest IH]; intros pre r [Hreg1 Hreg2] Hwf.
- left. exists r. split; [done|]. intros i j d1 d2 sr1 sr2 Hij Hj _ Hd2.
rewrite app_nil_r in Hd2. apply lookup_lt_Some in Hd2. lia.
- apply Forall_cons in Hwf as [Hd Hwf].
destruct (new_subresource_ok b c d Hd) as [sr Hsr].
rewrite foldM_cons.
assert (GetSubresources_step b c r d
        = match r !! APISubresource.Path sr with
          | Some v => Err (Fatal (duplicate_subresource
                                    (APISubresource.Path sr) v d))
          | None => Ok (<[APISubresource.Path sr := sr]> r)
          end) as ->
  by (unfold GetSubresources_step; by rewrite Hsr, bind_unfold).
destruct (r !! APISubresource.Path sr) as [v|] eqn:Hr.
+ right. eexists. split; [reflexivity|].
  destruct (Hreg1 _ _ Hr) as (i & d1 & Hi & Hv & Hp).
  exists i, (length pre), d1, d, v, sr. split_and!; try done.
  * by apply lookup_lt_Some in Hi.
  * by apply lookup_app_l_Some.
  * by rewrite list_lookup_middle.
+ destruct (IH (pre ++ [d]) (<[APISubresource.Path sr := sr]> r))
    as [(r' & Hr' & Hfree)|(e & He & Hcol)]; [|done|..].
  * split.
    -- intros q v Hq. destruct (decide (APISubresource.Path sr = q)) as [<-|Hne].
       ++ rewrite lookup_insert_eq in Hq. injection Hq as <-.
          exists (length pre), d. split_and!; try done.
          by rewrite list_lookup_middle.
       ++ rewrite lookup_insert_ne in Hq by done.
          destruct (Hreg1 _ _ Hq) as (i & d1 & Hi & Hv & Hp).
          exists i, d1. split_and!; try done. by apply lookup_app_l_Some.
    -- intros i d1 sr1 Hi Hsr1.
       destruct (decide (APISubresource.Path sr = APISubresource.Path sr1))
         as [<-|Hne]; [by rewrite lookup_insert_eq|].
       rewrite lookup_insert_ne by done.
       apply lookup_app_Some in Hi as [Hi|[_ Hi]]; [by eapply Hreg2|].
       apply list_lookup_singleton_Some in Hi as [_ <-].
       rewrite Hsr in Hsr1. by injection Hsr1 as <-.
  * left. exists r'. split; [done|].
    intros i j d1 d2 sr1 sr2 Hij Hj Hd1 Hd2 Hsr1 Hsr2.
    rewrite (cons_middle d), app_assoc in Hd1, Hd2.
    destruct (decide (j = length pre)) as [->|Hne].
    -- rewrite lookup_app_l in Hd2 by (rewrite length_app; simpl; lia).
       rewrite list_lookup_middle in Hd2 by done. injection Hd2 as <-.
       rewrite Hsr in Hsr2. injection Hsr2 as <-.
       rewrite <- app_assoc in Hd1. rewrite lookup_app_l in Hd1 by done.
       destruct (Hreg2 _ _ _ Hd1 Hsr1) as [v Hv]. intros Heq.
       rewrite Heq in Hv. by rewrite Hr in Hv.
    -- eapply (Hfree i j); try done. rewrite length_app. simpl. lia.
  * right. exists e. split; [done|].
    by rewrite (cons_middle d), app_assoc.
Qed.

End Duplicates.

Lemma duplicate_subresource_names_descriptor path v d :
  names_string (duplicate_subresource path v d) (APISubresource.format v).
Proof.
  unfold duplicate_subresource.
  rewrite <- (string_app_assoc path ": "),
    <- (string_app_assoc "Multiple subresources registered for path ").
  apply names_string_intro.
Qed.

Lemma resolved_path_Some b c d p :
  resolved_path b c d = Some p →
  ∃ sr, new_subresource b c d = Ok sr ∧ APISubresource.Path sr = p.
Proof.
  unfold resolved_path. destruct (new_subresource b c d) as [sr|]; [|done].
  intros [= <-]. by exists sr.
Qed.

(** C3, as the specification words it, fails: on [example.Scaled] the two
    directives resolve to the path [scale], and the diagnostic does not
    contain the first directive string. *)
Lemma duplicate_names_both_directives_fails :
  ¬ duplicate_names_both_directives (H := example.classifier).
Proof.
  intros Hc.
  destruct (Hc (example.builder []) example.scaled example.Scaled 0%nat 1%nat
              "request=ScaleRequest,path=scaleds/scale,rest=ScaleREST"
              "request=k8s.io/api/autoscaling/v1.Scale,path=scale,rest=OtherREST"
              "scale" eq_refl ltac:(lia) eq_refl eq_refl eq_refl eq_refl)
    as (msg & Hmsg & _ & Hd1 & _).
  vm_compute in Hmsg. injection Hmsg as <-.
  vm_compute in Hd1. discriminate.
Qed.

(** ** Three-level maps *)

Section Index3Facts.
Context {A : Type}.
Implicit Types m : gmap string (gmap string (gmap string A)).

Lemma lookup3_ensure1 a m x y z :
lookup3 (ensure1 a m) x y z = lookup3 m x y z.
Proof.
unfold ensure1, lookup3. destruct (m !! a) eqn:Ha; [done|].
destruct (decide (a = x)) as [<-|Hne].
- by rewrite lookup_insert_eq, Ha, lookup_empty.
- by rewrite lookup_insert_ne.
Qed.

Lemma ensure1_present a m : is_Some (ensure1 a m !! a).
Proof.
unfold ensure1. destruct (m !! a) eqn:Ha; [by rewrite Ha|].
by rewrite lookup_insert_eq.
Qed.

Lemma ensure2_spec a b m :
is_Some (m !! a) →
∃ m' ma mab,
ensure2 a b m = Ok m' ∧ m' !! a = Some ma ∧ ma !! b = Some mab ∧
∀ x y z, lookup3 m' x y z = lookup3 m x y z.
Proof.
intros [ma Ha]. unfold ensure2. rewrite Ha.
destruct (ma !! b) as [mab|] eqn:Hb.
- by exists m, ma, mab.
- exists (<[a := <[b := ∅]> ma]> m), (<[b := ∅]> ma), ∅.
rewrite !lookup_insert_eq. split_and!; try done.
intros x y z. unfold lookup3.
destruct (decide (a = x)) as [<-|Hne]; [|by rewrite lookup_insert_ne].
rewrite lookup_insert_eq, Ha.
destruct (decide (b = y)) as [<-|Hne]; [|by rewrite lookup_insert_ne].
by rewrite lookup_insert_eq, Hb, lookup_empty.
Qed.

Lemma assign3_spec a b c v m ma mab :
m !! a = Some ma → ma !! b = Some mab →
∃ m', assign3 a b c v m = Ok m' ∧
    ∀ x y z, lookup3 m' x y z
             = if decide (a = x ∧ b = y ∧ c = z) then Some v
               else lookup3 m x y z.
Proof.
intros Ha Hb. unfold assign3. rewrite Ha, Hb. eexists. split; [done|].
intros x y z. unfold lookup3.
destruct (decide (a = x)) as [<-|Hne];
[|rewrite lookup_insert_ne by done; case_decide; [tauto|done]].
rewrite lookup_insert_eq, Ha.
destruct (decide (b = y)) as [<-|Hne];
[|rewrite lookup_insert_ne by done; case_decide; [tauto|done]].
rewrite lookup_insert_eq, Hb.
destruct (decide (c = z)) as [<-|Hne];
[|rewrite lookup_insert_ne by done; case_decide; [tauto|done]].
rewrite lookup_insert_eq. by rewrite decide_True.
Qed.

(** The guards and the assignment of the source, together. *)
Lemma index_assign a b c v m :
∃ m2 m',
ensure2 a b (ensure1 a m) = Ok m2 ∧ assign3 a b c v m2 = Ok m' ∧
∀ x y z, lookup3 m' x y z
         = if decide (a = x ∧ b = y ∧ c = z) then Some v
           else lookup3 m x y z.
Proof.
destruct (ensure2_spec a b (ensure1 a m) (ensure1_present a m))
as (m2 & ma & mab & Hm2 & Ha & Hb & Hl).
destruct (assign3_spec a b c v m2 ma mab Ha Hb) as (m' & Hm' & Hl').
exists m2, m'. split_and!; try done.
intros x y z. rewrite Hl', Hl. by rewrite lookup3_ensure1.
Qed.

End Index3Facts.

(** ** The declaration indexer *)

Section IndexFacts.
Context `{Classifier}.

Lemma new_resource_Domain b b1 c t rt :
APIsBuilder.Domain b1 = APIsBuilder.Domain b →
new_resource b1 c t rt = new_resource b c t rt.
Proof. intros Hd. unfold new_resource. by rewrite Hd. Qed.

Lemma new_resource_fields b c t rt :
let r := new_resource b c t rt in
APIResource.Group r = GetGroup t ∧
APIResource.Version r = GetVersion t (GetGroup t) ∧
APIResource.Kind r = GetKind t (GetGroup t) ∧
APIResource.Type_ r = c.
Proof. done. Qed.

(** The part of a turn of [ParseIndex] that indexes a subresource type does
  not fail, and leaves the resource indices and the store as they are. *)
Lemma ParseIndex_subresource_spec b c t :
∃ b1,
  ParseIndex_subresource b c t = Ok b1 ∧
  APIsBuilder.context b1 = APIsBuilder.context b ∧
  APIsBuilder.Domain b1 = APIsBuilder.Domain b ∧
  APIsBuilder.ByGroupKindVersion b1 = APIsBuilder.ByGroupKindVersion b ∧
  APIsBuilder.ByGroupVersionKind b1 = APIsBuilder.ByGroupVersionKind b ∧
  APIsBuilder.resources b1 = APIsBuilder.resources b.
Proof.
unfold ParseIndex_subresource.
destruct (IsAPISubresource t); [|by exists b].
cbv zeta.
destruct (index_assign (A := types.TypeRef) (GetGroup t)
            (GetVersion t (GetGroup t))
            (GetKind t (GetGroup t)) c (APIsBuilder.SubByGroupVersionKind b))
  as (m2 & m' & -> & Hm' & _).
rewrite bind_unfold, Hm', bind_unfold. by eexists.
Qed.

(** What the indexing of a resource that does not fail has done. *)
Lemma ParseIndex_resource_inv b c t b' :
ParseIndex_resource b c t = Ok b' →
APIsBuilder.context b' = APIsBuilder.context b ∧
APIsBuilder.Domain b' = APIsBuilder.Domain b ∧
∃ tag rt r,
  GetResourceTag t = Ok tag ∧ ParseResourceTag tag = Ok rt ∧
  (r = new_resource b c t rt ∨
   ∃ subs, r = APIResource.with_Subresources subs (new_resource b c t rt)) ∧
  APIsBuilder.resources b' = APIsBuilder.resources b ++ [r] ∧
  (∀ x y z,
     lookup3 (APIsBuilder.ByGroupKindVersion b') x y z
     = if decide (GetGroup t = x ∧ GetKind t (GetGroup t) = y
                  ∧ GetVersion t (GetGroup t) = z)
       then Some (length (APIsBuilder.resources b))
       else lookup3 (APIsBuilder.ByGroupKindVersion b) x y z) ∧
  (∀ x y z,
     lookup3 (APIsBuilder.ByGroupVersionKind b') x y z
     = if decide (GetGroup t = x ∧ GetVersion t (GetGroup t) = y
                  ∧ GetKind t (GetGroup t) = z)
       then Some (length (APIsBuilder.resources b))
       else lookup3 (APIsBuilder.ByGroupVersionKind b) x y z).
Proof.
unfold ParseIndex_resource. intros Hstep.
destruct (GetResourceTag t) as [tag|] eqn:Htag; [|done].
rewrite bind_unfold in Hstep.
destruct (ParseResourceTag tag) as [rt|] eqn:Hrt; [|done].
rewrite bind_unfold in Hstep. cbv zeta in Hstep.
destruct (new_resource_fields b c t rt) as (Hg & Hv & Hk & Hty).
cbv zeta in Hg, Hv, Hk, Hty.
set (r := new_resource b c t rt) in *.
rewrite Hg, Hv, Hk in Hstep.
destruct (index_assign (A := ResourceRef) (GetGroup t) (GetKind t (GetGroup t))
            (GetVersion t (GetGroup t)) (length (APIsBuilder.resources b))
            (APIsBuilder.ByGroupKindVersion b))
  as (gkv2 & gkv & Hgkv2 & Hgkv' & Hlk).
destruct (index_assign (A := ResourceRef) (GetGroup t)
            (GetVersion t (GetGroup t))
            (GetKind t (GetGroup t)) (length (APIsBuilder.resources b))
            (APIsBuilder.ByGroupVersionKind b))
  as (gvk2 & gvk & Hgvk2 & Hgvk' & Hlv).
rewrite Hgkv2, bind_unfold, Hgvk2, bind_unfold, Hgkv', bind_unfold,
  Hgvk', bind_unfold in Hstep.
destruct (HasSubresource t); simpl negb in Hstep; cbv iota in Hstep.
- match type of Hstep with
  | (?m ≫= _) = _ => destruct m as [subs|] eqn:Hsubs; [|done]
  end.
  rewrite bind_unfold in Hstep. injection Hstep as <-. simpl.
  split_and!; try done.
  exists tag, rt, (APIResource.with_Subresources subs r).
  split_and!; try done.
  + right. by exists subs.
  + replace (length (APIsBuilder.resources b))
      with (length (APIsBuilder.resources b) + 0)%nat by lia.
    by rewrite insert_app_r.
- injection Hstep as <-. simpl. split_and!; try done.
  exists tag, rt, r. split_and!; try done. by left.
Qed.

End IndexFacts.

Section IndexInvariants.
Context `{Classifier}.

Lemma new_resource_rule b c t tag rt r :
GetResourceTag t = Ok tag → ParseResourceTag tag = Ok rt →
(r = new_resource b c t rt ∨
 ∃ subs, r = APIResource.with_Subresources subs (new_resource b c t rt)) →
APIResource.Type_ r = c ∧ strategy_rule t r.
Proof.
intros Htag Hrt Hr.
assert (APIResource.Group r = GetGroup t ∧
        APIResource.Kind r = GetKind t (GetGroup t) ∧
        APIResource.Type_ r = c ∧
        APIResource.Strategy r
        = (if strings.len (ResourceTags.Strategy rt) =? 0
           then GetGroup t +:+ "." +:+ GetKind t (GetGroup t) +:+ "Strategy"
           else ResourceTags.Strategy rt) ∧
        APIResource.StatusStrategy r
        = strings.TrimSuffix (APIResource.Strategy r) "Strategy"
          +:+ "StatusStrategy") as (Hg & Hk & Hty & Hs & Hss).
{ by destruct Hr as [->|[subs ->]]. }
split; [done|]. exists tag, rt. split_and!; try done.
- intros He. by rewrite Hs, He, Hg, Hk.
- intros Hne. rewrite Hs.
  destruct (ResourceTags.Strategy rt); [done|]. done.
- intros stem Hstem. by rewrite Hss, Hstem, TrimSuffix_app.
Qed.

(** What a turn of [ParseIndex] that does not fail has done. *)
Lemma ParseIndex_step_inv b c b' :
ParseIndex_step b c = Ok b' →
∃ t, deref (APIsBuilder.context b) c = Ok t ∧
  APIsBuilder.context b' = APIsBuilder.context b ∧
  APIsBuilder.Domain b' = APIsBuilder.Domain b ∧
  ((IsAPIResource t = false ∧
    APIsBuilder.ByGroupKindVersion b' = APIsBuilder.ByGroupKindVersion b ∧
    APIsBuilder.ByGroupVersionKind b' = APIsBuilder.ByGroupVersionKind b ∧
    APIsBuilder.resources b' = APIsBuilder.resources b) ∨
   (IsAPIResource t = true ∧
    ∃ r, APIResource.Type_ r = c ∧ strategy_rule t r ∧
      APIsBuilder.resources b' = APIsBuilder.resources b ++ [r] ∧
      (∀ x y z,
         lookup3 (APIsBuilder.ByGroupKindVersion b') x y z
         = if decide (GetGroup t = x ∧ GetKind t (GetGroup t) = y
                      ∧ GetVersion t (GetGroup t) = z)
           then Some (length (APIsBuilder.resources b))
           else lookup3 (APIsBuilder.ByGroupKindVersion b) x y z) ∧
      (∀ x y z,
         lookup3 (APIsBuilder.ByGroupVersionKind b') x y z
         = if decide (GetGroup t = x ∧ GetVersion t (GetGroup t) = y
                      ∧ GetKind t (GetGroup t) = z)
           then Some (length (APIsBuilder.resources b))
           else lookup3 (APIsBuilder.ByGroupVersionKind b) x y z))).
Proof.
unfold ParseIndex_step. intros Hstep.
destruct (deref (APIsBuilder.context b) c) as [t|] eqn:Ht; [|done].
rewrite bind_unfold in Hstep.
destruct (ParseIndex_subresource_spec b c t)
  as (b1 & Hb1 & Hctx & Hdom & Hgkv & Hgvk & Hres).
rewrite Hb1, bind_unfold in Hstep. exists t. split; [done|].
destruct (IsAPIResource t); simpl negb in Hstep; cbv iota in Hstep.
- apply ParseIndex_resource_inv in Hstep
    as (Hctx' & Hdom' & tag & rt & r & Htag & Hrt & Hr & Hres' & Hlk & Hlv).
  split_and!; [congruence..|]. right. split; [done|].
  destruct (new_resource_rule b1 c t tag rt r Htag Hrt Hr) as [Hty Hrule].
  exists r. rewrite <- Hgkv, <- Hgvk, <- Hres. by split_and!.
- injection Hstep as <-. split_and!; try done. left. by split_and!.
Qed.

Lemma ParseIndex_loop_store l b1 b2 :
foldM ParseIndex_step l b1 = Ok b2 →
APIsBuilder.context b2 = APIsBuilder.context b1 ∧
∃ extra, APIsBuilder.resources b2 = APIsBuilder.resources b1 ++ extra.
Proof.
intros Hf.
eapply (foldM_inv
          (λ b, APIsBuilder.context b = APIsBuilder.context b1 ∧
                ∃ extra, APIsBuilder.resources b
                         = APIsBuilder.resources b1 ++ extra));
  [| |exact Hf].
- intros b c b' _ [Hctx [extra Hres]]
    (t & _ & Hctx' & _ & [(_ & _ & _ & Hr)|(_ & r & _ & _ & Hr & _)])%ParseIndex_step_inv.
  + split; [congruence|]. exists extra. congruence.
  + split; [congruence|]. exists (extra ++ [r]). rewrite Hr, Hres.
    by rewrite app_assoc.
- split; [done|]. exists []. by rewrite app_nil_r.
Qed.

(** The two indices hold the same entries. *)
Lemma ParseIndex_loop_dual l b1 b2 :
(∀ g v k p, lookup3 (APIsBuilder.ByGroupKindVersion b1) g k v = Some p ↔
            lookup3 (APIsBuilder.ByGroupVersionKind b1) g v k = Some p) →
foldM ParseIndex_step l b1 = Ok b2 →
∀ g v k p, lookup3 (APIsBuilder.ByGroupKindVersion b2) g k v = Some p ↔
           lookup3 (APIsBuilder.ByGroupVersionKind b2) g v k = Some p.
Proof.
intros H1 Hf.
eapply (foldM_inv
          (λ b, ∀ g v k p,
             lookup3 (APIsBuilder.ByGroupKindVersion b) g k v = Some p ↔
             lookup3 (APIsBuilder.ByGroupVersionKind b) g v k = Some p));
  [|exact H1|exact Hf].
intros b c b' _ Hb
  (t & _ & _ & _ & [(_ & Hk & Hv & _)|(_ & r & _ & _ & _ & Hk & Hv)])%ParseIndex_step_inv
  g v k p.
- rewrite Hk, Hv. apply Hb.
- rewrite Hk, Hv.
  destruct (decide (GetGroup t = g ∧ GetKind t (GetGroup t) = k
                    ∧ GetVersion t (GetGroup t) = v)) as [Hd|Hd].
  + rewrite decide_True by tauto. done.
  + rewrite decide_False by tauto. apply Hb.
Qed.

Lemma ParseIndex_step_well_indexed b c b' :
well_indexed b → ParseIndex_step b c = Ok b' → well_indexed b'.
Proof.
intros Hb
  (t & Ht & Hctx & _ & [(_ & _ & Hv & Hr)|(Hapi & r & Hty & Hrule & Hr & _ & Hv)])%ParseIndex_step_inv
  g v k p.
- rewrite Hv, Hr, Hctx. apply Hb.
- rewrite Hv, Hr, Hctx. case_decide as Hd.
  + intros [= <-]. exists r, t. rewrite Hty.
    split_and!; try done. by rewrite list_lookup_middle.
  + intros (r0 & t0 & Hr0 & Hrest)%Hb. exists r0, t0.
    split; [by apply lookup_app_l_Some|done].
Qed.

Lemma ParseIndex_loop_well_indexed l b1 b2 :
well_indexed b1 → foldM ParseIndex_step l b1 = Ok b2 → well_indexed b2.
Proof.
intros H1 Hf. eapply (foldM_inv well_indexed); [|exact H1|exact Hf].
intros b c b' _. apply ParseIndex_step_well_indexed.
Qed.

End IndexInvariants.

Section IndexTheorems.
Context `{Classifier}.

Lemma deref_lookup ctx c t :
deref ctx c = Ok t ↔ generator.Context.types ctx !! c = Some t.
Proof.
unfold deref. destruct (generator.Context.types ctx !! c); split; congruence.
Qed.

Lemma declares_true t g v k :
declares t g v k = true ↔
IsAPIResource t = true ∧ GetGroup t = g ∧ GetVersion t (GetGroup t) = v
∧ GetKind t (GetGroup t) = k.
Proof.
unfold declares. rewrite !andb_true_iff, !String.eqb_eq. tauto.
Qed.

(** The entry of a triple after one turn: the declaration of the turn when it
  declares the triple, the entry of before otherwise. *)
Lemma ParseIndex_step_entry b c b' t g v k :
well_indexed b → ParseIndex_step b c = Ok b' →
deref (APIsBuilder.context b) c = Ok t →
type_of b' (lookup3 (APIsBuilder.ByGroupVersionKind b') g v k)
= if declares t g v k then Some c
  else type_of b (lookup3 (APIsBuilder.ByGroupVersionKind b) g v k).
Proof.
intros Hb
  (t' & Ht' & _ & _ & [(Hapi & _ & Hv & Hr)|(Hapi & r & Hty & _ & Hr & _ & Hv)])%ParseIndex_step_inv
  Ht.
all: rewrite Ht in Ht'; injection Ht' as <-.
- replace (declares t g v k) with false
    by (unfold declares; by rewrite Hapi).
  unfold type_of. by rewrite Hv, Hr.
- rewrite Hv. destruct (declares t g v k) eqn:Hd.
  + apply declares_true in Hd as (_ & Hd).
    rewrite decide_True by done. unfold type_of.
    by rewrite Hr, list_lookup_middle, Hty.
  + rewrite decide_False.
    2: { intros Hd'. assert (declares t g v k = true); [|congruence].
         apply declares_true. tauto. }
    destruct (lookup3 (APIsBuilder.ByGroupVersionKind b) g v k) as [p|] eqn:Hp;
      [|done].
    destruct (Hb _ _ _ _ Hp) as (r0 & _ & Hr0 & _).
    unfold type_of. by rewrite Hr, (lookup_app_l_Some _ _ _ _ Hr0), Hr0.
Qed.

(** Last write wins: after the loop the entry of a triple is the last
  declaration of the list that declares it. *)
Lemma ParseIndex_loop_last l b1 b2 g v k :
well_indexed b1 → foldM ParseIndex_step l b1 = Ok b2 →
type_of b2 (lookup3 (APIsBuilder.ByGroupVersionKind b2) g v k)
= match last_declared (APIsBuilder.context b1) l g v k with
  | Some c => Some c
  | None => type_of b1 (lookup3 (APIsBuilder.ByGroupVersionKind b1) g v k)
  end.
Proof.
revert b1. induction l as [|c l IH]; intros b1 Hb1 Hf.
- injection Hf as <-. done.
- rewrite foldM_cons in Hf.
  destruct (ParseIndex_step b1 c) as [b1'|] eqn:Hstep; [|done].
  pose proof (ParseIndex_step_well_indexed _ _ _ Hb1 Hstep) as Hb1'.
  destruct (ParseIndex_step_inv _ _ _ Hstep) as (t & Ht & Hctx & _).
  rewrite (IH _ Hb1' Hf), Hctx. simpl last_declared.
  destruct (last_declared (APIsBuilder.context b1) l g v k); [done|].
  rewrite (ParseIndex_step_entry _ _ _ t g v k Hb1 Hstep Ht).
  apply deref_lookup in Ht. rewrite Ht.
  by destruct (declares t g v k).
Qed.

(** Every declaration of the list that is an API resource has its resource in
  the store. *)
Lemma ParseIndex_loop_built l b1 b2 c t :
foldM ParseIndex_step l b1 = Ok b2 → c ∈ l →
deref (APIsBuilder.context b1) c = Ok t → IsAPIResource t = true →
∃ p r, APIsBuilder.resources b2 !! p = Some r ∧
       APIResource.Type_ r = c ∧ strategy_rule t r.
Proof.
revert b1. induction l as [|c' l IH]; intros b1 Hf Hc Ht Hapi.
- by apply elem_of_nil in Hc.
- rewrite foldM_cons in Hf.
  destruct (ParseIndex_step b1 c') as [b1'|] eqn:Hstep; [|done].
  destruct (ParseIndex_step_inv _ _ _ Hstep) as (t' & Ht' & Hctx & _ & Hcase).
  apply elem_of_cons in Hc as [->|Hc].
  + rewrite Ht in Ht'. injection Ht' as <-.
    destruct Hcase as [(Hn & _)|(_ & r & Hty & Hrule & Hr & _)]; [congruence|].
    destruct (ParseIndex_loop_store _ _ _ Hf) as (_ & extra & Hres).
    exists (length (APIsBuilder.resources b1)), r. split_and!; try done.
    rewrite Hres, Hr. apply lookup_app_l_Some. by rewrite list_lookup_middle.
  + apply (IH b1'); try done. by rewrite Hctx.
Qed.

Lemma ParseIndex_start b :
let b0 := APIsBuilder.mk (APIsBuilder.context b) (APIsBuilder.Domain b) ∅ ∅ ∅
            (APIsBuilder.resources b) in
well_indexed b0 ∧
∀ g v k p, lookup3 (APIsBuilder.ByGroupKindVersion b0) g k v = Some p ↔
           lookup3 (APIsBuilder.ByGroupVersionKind b0) g v k = Some p.
Proof. split; [by intros g v k p|by intros g v k p]. Qed.

(** X9. After [ParseIndex], every declaration of the universe that is an API
  resource has a resource in the store that follows the strategy rule, and
  so does every resource that the indices point to: when the strategy of
  the parsed tag is empty, the strategy is [<group>.<Kind>Strategy], and
  otherwise the one of the tag; in both cases the status strategy is what
  [TrimSuffix] leaves of the strategy, followed by [StatusStrategy], so that
  a strategy [<stem>Strategy] has the status strategy
  [<stem>StatusStrategy]. *)
Theorem default_strategy (b b' : APIsBuilder.t) :
ParseIndex b = Ok b' →
(∀ c t,
   c ∈ generator.Context.Order (APIsBuilder.context b) →
   deref (APIsBuilder.context b) c = Ok t → IsAPIResource t = true →
   ∃ p r, resource_at b' p = Some r ∧ APIResource.Type_ r = c ∧
          strategy_rule t r) ∧
(∀ g v k p,
   lookup3 (APIsBuilder.ByGroupVersionKind b') g v k = Some p ∨
   lookup3 (APIsBuilder.ByGroupKindVersion b') g k v = Some p →
   ∃ r t, resource_at b' p = Some r ∧
          deref (APIsBuilder.context b) (APIResource.Type_ r) = Ok t ∧
          IsAPIResource t = true ∧ strategy_rule t r).
Proof.
unfold ParseIndex. intros Hf. destruct (ParseIndex_start b) as [Hw Hd].
cbv zeta in Hw, Hd. split.
- intros c t Hc Ht Hapi.
  by apply (ParseIndex_loop_built _ _ _ c t Hf).
- intros g v k p Hp.
  assert (lookup3 (APIsBuilder.ByGroupVersionKind b') g v k = Some p) as Hp'.
  { destruct Hp as [Hp|Hp]; [done|].
    by apply (ParseIndex_loop_dual _ _ _ Hd Hf). }
  destruct (ParseIndex_loop_well_indexed _ _ _ Hw Hf _ _ _ _ Hp')
    as (r & t & Hr & Ht & Hapi & Hrule).
  destruct (ParseIndex_loop_store _ _ _ Hf) as (Hctx & _).
  exists r, t. rewrite Hctx in Ht. by split_and!.
Qed.

(** X10. After [ParseIndex] the two indices hold the same entries: the
  resource at [ByGroupKindVersion[g][k][v]] is the one at
  [ByGroupVersionKind[g][v][k]]. When several declarations have the same
  group, version and kind, the entry of both indices is the resource of the
  last of them: the later insertion replaces the earlier one, and nothing
  fails on that account. *)
Theorem dual_indices (b b' : APIsBuilder.t) :
ParseIndex b = Ok b' →
(∀ g v k p,
   lookup3 (APIsBuilder.ByGroupKindVersion b') g k v = Some p ↔
   lookup3 (APIsBuilder.ByGroupVersionKind b') g v k = Some p) ∧
(∀ g v k,
   type_of b' (lookup3 (APIsBuilder.ByGroupVersionKind b') g v k)
   = last_declared (APIsBuilder.context b)
       (generator.Context.Order (APIsBuilder.context b)) g v k ∧
   type_of b' (lookup3 (APIsBuilder.ByGroupKindVersion b') g k v)
   = last_declared (APIsBuilder.context b)
       (generator.Context.Order (APIsBuilder.context b)) g v k).
Proof.
unfold ParseIndex. intros Hf. destruct (ParseIndex_start b) as [Hw Hd].
cbv zeta in Hw, Hd.
pose proof (ParseIndex_loop_dual _ _ _ Hd Hf) as Hdual.
split; [done|]. intros g v k.
assert (lookup3 (APIsBuilder.ByGroupKindVersion b') g k v
        = lookup3 (APIsBuilder.ByGroupVersionKind b') g v k) as ->.
{ apply option_eq. intros p. apply Hdual. }
rewrite (ParseIndex_loop_last _ _ _ g v k Hw Hf). simpl.
by destruct (last_declared _ _ g v k).
Qed.

End IndexTheorems.

Lemma default_strategy_witness :
  ∃ b', ParseIndex (H := example.classifier) (example.builder [0; 1; 5]%nat) = Ok b' ∧
        ∃ p r, resource_at b' p = Some r ∧ APIResource.Type_ r = 5%nat ∧
               strategy_rule (H := example.classifier) example.Widget' r.
Proof.
  assert (∃ b', ParseIndex (H := example.classifier)
                  (example.builder [0; 1; 5]%nat) = Ok b') as [b' Hb']
    by (eexists; vm_compute; reflexivity).
  exists b'. split; [exact Hb'|].
  apply (proj1 (default_strategy (H := example.classifier) _ b' Hb')
           5%nat example.Widget').
  - apply list_elem_of_In. simpl. auto.
  - reflexivity.
  - reflexivity.
Defined.

Lemma dual_indices_witness :
  ∃ b', ParseIndex (H := example.classifier) (example.builder [0; 1; 5]%nat) = Ok b' ∧
        type_of b' (lookup3 (APIsBuilder.ByGroupVersionKind b') "core" "v1" "Widget")
        = Some 5%nat ∧
        type_of b' (lookup3 (APIsBuilder.ByGroupKindVersion b') "core" "Widget" "v1")
        = Some 5%nat.
Proof.
  assert (∃ b', ParseIndex (H := example.classifier)
                  (example.builder [0; 1; 5]%nat) = Ok b') as [b' Hb']
    by (eexists; vm_compute; reflexivity).
  exists b'. split; [exact Hb'|].
  exact (proj2 (dual_indices (H := example.classifier) _ b' Hb')
           "core" "v1" "Widget").
Defined.

(** ** The struct/field graph builder *)

Lemma pop_perm remaining next rest :
  pop remaining = Some (next, rest) →
  remaining ≡ₚ next :: rest ∧ S (length rest) = length remaining.
Proof.
  destruct remaining as [|x tl]; [done|]. intros [= <- <-].
  destruct tl as [|y tl]; [done|].
  pose proof (app_removelast_last (l := y :: tl) x ltac:(done)) as Hl.
  generalize dependent (y :: tl). intros l Hl.
  assert (length l = S (length (removelast l))) as Hlen.
  { rewrite Hl at 1. rewrite length_app. simpl. lia. }
  destruct l as [|z l]; [done|]. split.
  - constructor. rewrite Hl at 1. symmetry. apply Permutation_cons_append.
  - cbn [length] in *. lia.
Qed.

Section StructFacts.
Context `{Classifier}.
Variable ctx : generator.Context.t.

(** A member adds one field, and its type to the list when that type is not
  primitive and in the group of the owner. *)
Lemma DoType_member_inv t acc member acc' :
DoType_member ctx t acc member = Ok acc' →
∃ mt f,
  deref ctx (types.Member.Type_ member) = Ok mt ∧
  acc'.1 = acc.1 ++ [f] ∧
  Field.Name f = (if types.Member.Embedded member then ""
                  else types.Member.Name member) ∧
  Field.VersionedPackage f = types.Name.Package (types.Type_.Name mt) ∧
  acc'.2 = acc.2 ++
           (if negb (IsPrimitive mt) && String.eqb (GetGroup mt) (GetGroup t)
            then [types.Member.Type_ member] else []).
Proof.
unfold DoType_member.
destruct (deref ctx (types.Member.Type_ member)) as [mt|] eqn:Hmt; [|done].
rewrite bind_unfold.
match goal with
| |- (?m ≫= _) = _ → _ => destruct m as [iu|]; [|done]
end.
rewrite bind_unfold. intros [= <-]. exists mt. eexists. simpl.
split_and!; try done.
destruct (negb (IsPrimitive mt) && String.eqb (GetGroup mt) (GetGroup t));
  [done|by rewrite app_nil_r].
Qed.

Lemma DoType_members_inv t members acc acc' :
foldM (DoType_member ctx t) members acc = Ok acc' →
∃ fields more,
  acc'.1 = acc.1 ++ fields ∧ acc'.2 = acc.2 ++ more ∧
  length fields = length members ∧
  (length more ≤ length members)%nat ∧
  (∀ i member, members !! i = Some member →
     ∃ mt f, deref ctx (types.Member.Type_ member) = Ok mt ∧
             fields !! i = Some f ∧
             Field.Name f = (if types.Member.Embedded member then ""
                             else types.Member.Name member) ∧
             Field.VersionedPackage f
             = types.Name.Package (types.Type_.Name mt)) ∧
  (∀ p, p ∈ more ↔
        ∃ member mt, member ∈ members ∧ types.Member.Type_ member = p ∧
                     deref ctx p = Ok mt ∧ IsPrimitive mt = false ∧
                     GetGroup mt = GetGroup t).
Proof.
revert acc. induction members as [|m members IH]; intros acc Hf.
- injection Hf as <-. exists [], []. rewrite !app_nil_r.
  split_and!; try done. intros p. split; [by intros ?%elem_of_nil|].
  by intros (? & ? & ?%elem_of_nil & _).
- rewrite foldM_cons in Hf.
  destruct (DoType_member ctx t acc m) as [acc1|] eqn:Hm; [|done].
  destruct (DoType_member_inv _ _ _ _ Hm) as (mt & f & Hmt & Hf1 & Hn & Hv & Hr1).
  destruct (IH _ Hf) as (fields & more & Hfs & Hrs & Hlf & Hlm & Hfield & Hmore).
  exists (f :: fields),
    ((if negb (IsPrimitive mt) && String.eqb (GetGroup mt) (GetGroup t)
      then [types.Member.Type_ m] else []) ++ more).
  split_and!.
  + by rewrite Hfs, Hf1, <- app_assoc.
  + by rewrite Hrs, Hr1, <- app_assoc.
  + simpl. by rewrite Hlf.
  + rewrite length_app. simpl.
    destruct (negb (IsPrimitive mt) && String.eqb (GetGroup mt) (GetGroup t));
      simpl; lia.
  + intros [|i] member Hi.
    * injection Hi as <-. by exists mt, f.
    * apply (Hfield i member Hi).
  + intros p. rewrite elem_of_app, Hmore. split.
    * intros [Hp|(member & mt' & Hin & Hrest)].
      -- destruct (negb (IsPrimitive mt) && String.eqb (GetGroup mt) (GetGroup t))
           eqn:Hc; [|by apply elem_of_nil in Hp].
         apply list_elem_of_singleton in Hp as ->.
         apply andb_true_iff in Hc as [Hp' Hg]. apply String.eqb_eq in Hg.
         exists m, mt. split_and!; try done; [left|by destruct (IsPrimitive mt)].
      -- exists member, mt'. split; [by right|done].
    * intros (member & mt' & Hin & Hty & Hd & Hp' & Hg).
      apply elem_of_cons in Hin as [->|Hin].
      -- left. rewrite Hty, Hd in Hmt. injection Hmt as <-.
         rewrite Hp', Hg, String.eqb_refl. simpl. rewrite Hty. by left.
      -- right. by exists member, mt'.
Qed.

End StructFacts.

Section WorklistFacts.
Context `{Classifier}.
Variable ctx : generator.Context.t.

Lemma DoType_inv t st more :
DoType ctx t = Ok (st, more) →
Struct.Name st = types.Name.Name (types.Type_.Name t) ∧
Struct.GenClient st = false ∧ Struct.GenDeepCopy st = false ∧
Struct.GenUnversioned st
= negb (existsb (λ c, strings.Contains c "+genregister:unversioned=false")
                (types.Type_.CommentLines t)) ∧
length (Struct.Fields st) = length (types.Type_.Members t) ∧
(length more ≤ length (types.Type_.Members t))%nat ∧
(∀ i member, types.Type_.Members t !! i = Some member →
   ∃ mt f, deref ctx (types.Member.Type_ member) = Ok mt ∧
           Struct.Fields st !! i = Some f ∧
           Field.Name f = (if types.Member.Embedded member then ""
                           else types.Member.Name member) ∧
           Field.VersionedPackage f
           = types.Name.Package (types.Type_.Name mt)) ∧
(∀ p, p ∈ more ↔
      ∃ member mt, member ∈ types.Type_.Members t ∧
                   types.Member.Type_ member = p ∧
                   deref ctx p = Ok mt ∧ IsPrimitive mt = false ∧
                   GetGroup mt = GetGroup t).
Proof.
unfold DoType.
destruct (foldM (DoType_member ctx t) (types.Type_.Members t) ([], []))
  as [fr|] eqn:Hf; [|done].
rewrite bind_unfold. intros [= <- <-].
destruct (DoType_members_inv ctx _ _ _ _ Hf)
  as (fields & more & Hfs & Hrs & Hlf & Hlm & Hfield & Hmore).
simpl in Hfs, Hrs. rewrite Hfs, Hrs. simpl. by split_and!.
Qed.

(** What a turn of the loop of [ParseStructs] that does not fail has done. *)
Lemma ParseStructs_step_inv s s' :
ParseStructs_step ctx s = Ok s' → worklist.remaining s ≠ [] →
∃ nextp rest next,
  pop (worklist.remaining s) = Some (nextp, rest) ∧
  deref ctx nextp = Ok next ∧
  ((types.Name.Name (types.Type_.Name next) ∈ worklist.done s ∧
    s' = worklist.mk rest (worklist.done s) (worklist.Structs s)) ∨
   ((types.Name.Name (types.Type_.Name next) ∉ worklist.done s) ∧
    (∃ st more st',
       DoType ctx next = Ok (st, more) ∧
       s' = worklist.mk (rest ++ more)
              ({[types.Name.Name (types.Type_.Name next)]} ∪ worklist.done s)
              (worklist.Structs s ++ [st']) ∧
       Struct.Name st' = types.Name.Name (types.Type_.Name next) ∧
       Struct.Fields st' = Struct.Fields st ∧
       Struct.GenUnversioned st' = Struct.GenUnversioned st ∧
       Struct.GenClient st' = GenClient next ∧
       Struct.GenDeepCopy st' = GenClient next || GenDeepCopy next))).
Proof.
unfold ParseStructs_step. intros Hstep Hne.
destruct (pop (worklist.remaining s)) as [[nextp rest]|] eqn:Hpop.
2: { by destruct (worklist.remaining s). }
destruct (deref ctx nextp) as [next|] eqn:Hnext; [|done].
rewrite bind_unfold in Hstep. exists nextp, rest, next.
split; [done|]. split; [done|].
case_decide as Hdone.
- left. by injection Hstep as <-.
- right. split; [done|].
  destruct (DoType ctx next) as [[st more]|] eqn:Hdo; [|done].
  rewrite bind_unfold in Hstep. injection Hstep as <-. simpl.
  destruct (DoType_inv _ _ _ Hdo) as (Hn & Hc & Hd & _).
  eexists st, more, _. split; [done|]. split; [reflexivity|].
  destruct (GenClient next), (GenDeepCopy next); simpl;
    rewrite ?Hc, ?Hd; by split_and!.
Qed.


Lemma deref_elem_of p t : deref ctx p = Ok t → t ∈ generator.Context.types ctx.
Proof.
unfold deref. destruct (generator.Context.types ctx !! p) eqn:E; [|done].
intros [= <-]. by eapply list_elem_of_lookup_2.
Qed.

Lemma names_elem_of t :
t ∈ generator.Context.types ctx →
types.Name.Name (types.Type_.Name t) ∈ names ctx.
Proof.
intros Ht. unfold names. apply elem_of_list_to_set, list_elem_of_fmap.
by exists t.
Qed.

Lemma max_members_bound t :
t ∈ generator.Context.types ctx →
(length (types.Type_.Members t) ≤ max_members ctx)%nat.
Proof.
intros Ht. unfold max_members. apply max_list_elem_of_le, list_elem_of_fmap.
by exists t.
Qed.

Lemma size_difference_insert (X Y : gset string) n :
n ∈ X → n ∉ Y → size (X ∖ Y) = S (size (X ∖ ({[n]} ∪ Y))).
Proof.
intros HX HY.
assert (X ∖ Y = {[n]} ∪ X ∖ ({[n]} ∪ Y)) as ->.
{ apply set_eq. intros x. rewrite elem_of_union, !elem_of_difference,
    elem_of_union, elem_of_singleton.
  destruct (decide (x = n)) as [->|]; tauto. }
rewrite size_union, size_singleton; [done|].
intros x. rewrite elem_of_singleton, elem_of_difference, elem_of_union,
  elem_of_singleton. tauto.
Qed.

(** Every turn brings the loop nearer to its end. *)
Lemma ParseStructs_step_turns s s' :
ParseStructs_step ctx s = Ok s' → worklist.remaining s ≠ [] →
(turns ctx s' < turns ctx s)%nat.
Proof.
intros Hstep Hne.
destruct (ParseStructs_step_inv _ _ Hstep Hne)
  as (nextp & rest & next & Hpop & Hnext &
      [[Hdone ->]|[Hdone (st & more & st' & Hdo & -> & _)]]).
- apply pop_perm in Hpop as [_ Hlen]. unfold turns. simpl. lia.
- apply pop_perm in Hpop as [_ Hlen].
  pose proof (deref_elem_of _ _ Hnext) as Hin.
  pose proof (max_members_bound _ Hin) as Hmax.
  destruct (DoType_inv _ _ _ Hdo) as (_ & _ & _ & _ & _ & Hmore & _).
  unfold turns. simpl.
  rewrite (size_difference_insert (names ctx) (worklist.done s) _
             (names_elem_of _ Hin) Hdone).
  rewrite length_app. nia.
Qed.

Lemma ParseStructs_loop_terminates fuel s :
(turns ctx s ≤ fuel)%nat → is_Some (ParseStructs_loop ctx fuel s).
Proof.
revert s. induction fuel as [|fuel IH]; intros s Hfuel.
- destruct (worklist.remaining s) as [|p l] eqn:Hr; simpl; rewrite Hr; [done|].
  unfold turns in Hfuel. rewrite Hr in Hfuel. simpl in Hfuel. lia.
- simpl. destruct (worklist.remaining s) as [|p l] eqn:Hr; [done|].
  destruct (ParseStructs_step ctx s) as [s'|e] eqn:Hstep; [|done].
  apply IH. pose proof (ParseStructs_step_turns _ _ Hstep) as Hlt.
  rewrite Hr in Hlt. specialize (Hlt ltac:(done)). lia.
Qed.

(** More fuel does not change the result. *)
Lemma ParseStructs_loop_fuel fuel fuel' s r :
ParseStructs_loop ctx fuel s = Some r → (fuel ≤ fuel')%nat →
ParseStructs_loop ctx fuel' s = Some r.
Proof.
revert fuel' s. induction fuel as [|fuel IH]; intros fuel' s Hl Hle.
- destruct fuel'; simpl in *; by destruct (worklist.remaining s).
- destruct fuel' as [|fuel']; [lia|]. simpl in *.
  destruct (worklist.remaining s); [done|].
  destruct (ParseStructs_step ctx s); [|done]. apply IH; [done|lia].
Qed.

(** A property that every turn keeps holds when the loop ends, and the list
  is empty then. *)
Lemma ParseStructs_loop_inv (P : worklist.t → Prop) fuel s s' :
(∀ s s', P s → worklist.remaining s ≠ [] →
         ParseStructs_step ctx s = Ok s' → P s') →
P s → ParseStructs_loop ctx fuel s = Some (Ok s') →
P s' ∧ worklist.remaining s' = [].
Proof.
intros Hstep. revert s. induction fuel as [|fuel IH]; intros s Hs Hl.
- simpl in Hl. destruct (worklist.remaining s) eqn:Hr; [|done].
  injection Hl as <-. done.
- simpl in Hl. destruct (worklist.remaining s) eqn:Hr.
  + injection Hl as <-. done.
  + destruct (ParseStructs_step ctx s) as [s1|] eqn:Hs1; [|done].
    apply (IH s1); [|done]. eapply Hstep; [done| |done]. by rewrite Hr.
Qed.

End WorklistFacts.

Section WorklistTheorems.
Context `{Classifier}.

(** X1. The loop of [ParseStructs] ends: on every universe and every work
  list, [turns] turns are enough, the result is then the same with any
  larger number of turns, and [ParseStructs] returns (a group or a
  failure). *)
Theorem ParseStructs_terminates :
(∀ ctx s fuel,
   (turns ctx s ≤ fuel)%nat →
   ∃ r, ParseStructs_loop ctx fuel s = Some r ∧
        ∀ fuel', (fuel ≤ fuel')%nat → ParseStructs_loop ctx fuel' s = Some r) ∧
(∀ b apigroup fuel,
   (turns (APIsBuilder.context b)
      (worklist.mk (seeds b apigroup) ∅ (APIGroup.Structs apigroup)) ≤ fuel)%nat →
   is_Some (ParseStructs b fuel apigroup)).
Proof.
split.
- intros ctx s fuel Hfuel.
  destruct (ParseStructs_loop_terminates ctx fuel s Hfuel) as [r Hr].
  exists r. split; [done|]. intros fuel' Hle.
  by apply (ParseStructs_loop_fuel ctx fuel).
- intros b apigroup fuel Hfuel. unfold ParseStructs.
  destruct (ParseStructs_loop_terminates _ fuel _ Hfuel) as [r ->].
  by destruct r.
Qed.

End WorklistTheorems.

Lemma ParseStructs_terminates_witness :
  is_Some (ParseStructs (H := example.classifier) (example.builder [0]%nat) 19
             example_group).
Proof.
  apply (proj2 (ParseStructs_terminates (H := example.classifier))
           (example.builder [0]%nat) example_group 19%nat).
  vm_compute. lia.
Defined.

Section WorklistInvariants.
Context `{Classifier}.
Variable ctx : generator.Context.t.

Lemma pending_step s s' p :
ParseStructs_step ctx s = Ok s' → worklist.remaining s ≠ [] →
pending ctx s p → pending ctx s' p.
Proof.
intros Hstep Hne Hp.
destruct (ParseStructs_step_inv _ _ _ Hstep Hne)
  as (nextp & rest & next & Hpop & Hnext &
      [[Hdone ->]|[Hdone (st & more & st' & Hdo & -> & _)]]);
  apply pop_perm in Hpop as [Hperm _]; unfold pending in *; simpl.
- destruct Hp as [Hp|Hp]; [|by right].
  rewrite Hperm in Hp. apply elem_of_cons in Hp as [->|Hp]; [|by left].
  right. by exists next.
- destruct Hp as [Hp|(t & Ht & Hin)].
  + rewrite Hperm in Hp. apply elem_of_cons in Hp as [->|Hp].
    * right. exists next. split; [done|]. apply elem_of_union. left.
      by apply elem_of_singleton.
    * left. apply elem_of_app. by left.
  + right. exists t. split; [done|]. apply elem_of_union. by right.
Qed.

(** The structs and the marked names go together, one struct per name. *)
Lemma ParseStructs_step_names s s' :
ParseStructs_step ctx s = Ok s' → worklist.remaining s ≠ [] →
NoDup (Struct.Name <$> worklist.Structs s) ∧
(∀ n, n ∈ worklist.done s ↔ n ∈ Struct.Name <$> worklist.Structs s) →
NoDup (Struct.Name <$> worklist.Structs s') ∧
(∀ n, n ∈ worklist.done s' ↔ n ∈ Struct.Name <$> worklist.Structs s').
Proof.
intros Hstep Hne [Hnd Hdone].
destruct (ParseStructs_step_inv _ _ _ Hstep Hne)
  as (nextp & rest & next & _ & _ &
      [[_ ->]|[Hnew (st & more & st' & _ & -> & Hname & _)]]); [done|].
simpl. rewrite fmap_app. simpl. rewrite Hname. split.
- apply NoDup_app. split_and!; [done| |apply NoDup_singleton].
  intros n Hn ->%list_elem_of_singleton. by apply Hnew, Hdone.
- intros n. rewrite elem_of_union, elem_of_app, elem_of_singleton,
    list_elem_of_singleton, Hdone. tauto.
Qed.

(** Every struct comes from a declaration of the universe, and the types that
  this declaration adds to the list stay pending. *)
Lemma ParseStructs_step_origin s s' :
ParseStructs_step ctx s = Ok s' → worklist.remaining s ≠ [] →
(∀ st, st ∈ worklist.Structs s →
       ∃ t more, t ∈ generator.Context.types ctx ∧
                 emitted_from ctx t st more ∧
                 ∀ p, p ∈ more → pending ctx s p) →
(∀ st, st ∈ worklist.Structs s' →
       ∃ t more, t ∈ generator.Context.types ctx ∧
                 emitted_from ctx t st more ∧
                 ∀ p, p ∈ more → pending ctx s' p).
Proof.
intros Hstep Hne Hs st Hst.
assert (st ∈ worklist.Structs s ∨
        (∃ t more, t ∈ generator.Context.types ctx ∧
                   emitted_from ctx t st more ∧
                   ∀ p, p ∈ more → p ∈ worklist.remaining s')) as [Hold|Hnew].
{ destruct (ParseStructs_step_inv _ _ _ Hstep Hne)
    as (nextp & rest & next & _ & Hnext &
        [[_ ->]|[_ (st0 & more & st' & Hdo & -> & Hn & Hf & Hu & Hc & Hd)]]);
    [by left|].
  simpl in *.
  apply elem_of_app in Hst as [?|Hst]; [by left|].
  apply list_elem_of_singleton in Hst as ->.
  right. exists next, more. split_and!.
  - by eapply deref_elem_of.
  - by exists st0.
  - intros p Hp. apply elem_of_app. by right. }
- destruct (Hs st Hold) as (t & more & Ht & Hem & Hpend).
  exists t, more. split_and!; try done.
  intros p Hp. eapply pending_step; eauto.
- destruct Hnew as (t & more & Ht & Hem & Hpend).
  exists t, more. split_and!; try done. intros p Hp. left. by apply Hpend.
Qed.

End WorklistInvariants.

Section WorklistResults.
Context `{Classifier}.
Variable ctx : generator.Context.t.

(** What holds when the loop, started with nothing marked and no struct, ends
  without a failure. *)
Lemma ParseStructs_loop_result fuel seeds s' :
ParseStructs_loop ctx fuel (worklist.mk seeds ∅ []) = Some (Ok s') →
worklist.remaining s' = [] ∧
NoDup (Struct.Name <$> worklist.Structs s') ∧
(∀ n, n ∈ worklist.done s' ↔ n ∈ Struct.Name <$> worklist.Structs s') ∧
(∀ st, st ∈ worklist.Structs s' →
       ∃ t more, t ∈ generator.Context.types ctx ∧
                 emitted_from ctx t st more ∧
                 ∀ p, p ∈ more → pending ctx s' p) ∧
(∀ p, p ∈ seeds → pending ctx s' p).
Proof.
intros Hl.
pose (P := λ s : worklist.t,
        (NoDup (Struct.Name <$> worklist.Structs s) ∧
         (∀ n, n ∈ worklist.done s ↔
               n ∈ Struct.Name <$> worklist.Structs s)) ∧
        (∀ st, st ∈ worklist.Structs s →
               ∃ t more, t ∈ generator.Context.types ctx ∧
                         emitted_from ctx t st more ∧
                         ∀ p, p ∈ more → pending ctx s p) ∧
        (∀ p, p ∈ seeds → pending ctx s p)).
assert (P s' ∧ worklist.remaining s' = [])
  as [([Hnd Hdone] & Horigin & Hseeds) Hrem]; [|done].
apply (ParseStructs_loop_inv ctx P fuel (worklist.mk seeds ∅ []) s');
  [| |exact Hl]; unfold P.
- intros s1 s2 (Hn & Ho & Hs) Hne Hstep. split_and!.
  + by eapply ParseStructs_step_names.
  + by eapply ParseStructs_step_names.
  + by eapply ParseStructs_step_origin.
  + intros p Hp. eapply pending_step; eauto.
- simpl. split_and!.
  + constructor.
  + intros n. rewrite elem_of_empty. split; [done|by intros ?%elem_of_nil].
  + by intros st ?%elem_of_nil.
  + intros p Hp. by left.
Qed.

Lemma pending_at_end s p :
worklist.remaining s = [] → pending ctx s p →
∃ t, deref ctx p = Ok t ∧
     types.Name.Name (types.Type_.Name t) ∈ worklist.done s.
Proof. intros Hr [Hp|Hp]; [|done]. rewrite Hr in Hp. by apply elem_of_nil in Hp. Qed.

(** X2. The loop of [ParseStructs], started with nothing marked, emits at
  most one struct per bare type name, and the marked names are the names of
  the structs emitted; so the structs that [ParseStructs] gives to a fresh
  group have distinct names. *)
Theorem ParseStructs_one_struct_per_name :
(∀ fuel seeds s',
   ParseStructs_loop ctx fuel (worklist.mk seeds ∅ []) = Some (Ok s') →
   NoDup (Struct.Name <$> worklist.Structs s') ∧
   ∀ n, n ∈ worklist.done s' ↔ n ∈ Struct.Name <$> worklist.Structs s') ∧
(∀ b fuel apigroup apigroup',
   APIsBuilder.context b = ctx → APIGroup.Structs apigroup = [] →
   ParseStructs b fuel apigroup = Some (Ok apigroup') →
   NoDup (Struct.Name <$> APIGroup.Structs apigroup')).
Proof.
split.
- intros fuel seeds s' Hl.
  by destruct (ParseStructs_loop_result _ _ _ Hl) as (_ & ? & ? & _).
- intros b fuel apigroup apigroup' Hctx Hs. unfold ParseStructs.
  rewrite Hs, Hctx.
  destruct (ParseStructs_loop _ _ _) as [[s'|]|] eqn:Hl; [|done..].
  intros [= <-]. simpl.
  by destruct (ParseStructs_loop_result _ _ _ Hl) as (_ & ? & _).
Qed.

(** X3. When the loop of [ParseStructs] ends without a failure, the struct
  list is closed: every struct is the one of a declaration of the universe
  (its name, the fields of [DoType], the flags of the classifier), every
  type that this declaration adds to the work list has a struct of its name
  in the list, and so has every type the loop started from. *)
Theorem ParseStructs_closure fuel seeds s' :
ParseStructs_loop ctx fuel (worklist.mk seeds ∅ []) = Some (Ok s') →
(∀ p, p ∈ seeds →
      ∃ t, deref ctx p = Ok t ∧
           types.Name.Name (types.Type_.Name t)
           ∈ Struct.Name <$> worklist.Structs s') ∧
(∀ st, st ∈ worklist.Structs s' →
       ∃ t more,
         t ∈ generator.Context.types ctx ∧ emitted_from ctx t st more ∧
         ∀ p, p ∈ more →
              ∃ t', deref ctx p = Ok t' ∧
                    types.Name.Name (types.Type_.Name t')
                    ∈ Struct.Name <$> worklist.Structs s').
Proof.
intros Hl.
destruct (ParseStructs_loop_result _ _ _ Hl)
  as (Hrem & _ & Hdone & Horigin & Hseeds).
split.
- intros p Hp.
  destruct (pending_at_end _ _ Hrem (Hseeds p Hp)) as (t & Ht & Hin).
  exists t. split; [done|]. by apply Hdone.
- intros st Hst. destruct (Horigin st Hst) as (t & more & Ht & Hem & Hpend).
  exists t, more. split_and!; try done. intros p Hp.
  destruct (pending_at_end _ _ Hrem (Hpend p Hp)) as (t' & Ht' & Hin).
  exists t'. split; [done|]. by apply Hdone.
Qed.

(** X4. Every struct that the loop of [ParseStructs] emits and marks for
  client generation is marked for deep-copy generation too. *)
Theorem ParseStructs_client_implies_deepcopy fuel seeds s' st :
ParseStructs_loop ctx fuel (worklist.mk seeds ∅ []) = Some (Ok s') →
st ∈ worklist.Structs s' →
Struct.GenClient st = true → Struct.GenDeepCopy st = true.
Proof.
intros Hl Hst Hc.
destruct (ParseStructs_loop_result _ _ _ Hl) as (_ & _ & _ & Horigin & _).
destruct (Horigin st Hst) as (t & more & _ & (st0 & _ & _ & _ & _ & Hgc & Hgd) & _).
rewrite Hgd. rewrite Hgc in Hc. by rewrite Hc.
Qed.

End WorklistResults.

Lemma worklist_example :
  ∃ s', ParseStructs_loop (H := example.classifier) example.ctx 19
          (worklist.mk [0]%nat ∅ []) = Some (Ok s') ∧
        Struct.Name <$> worklist.Structs s' = ["Widget"; "WidgetStatus"; "Node"].
Proof. eexists. split; vm_compute; reflexivity. Qed.

Lemma ParseStructs_one_struct_per_name_witness :
  ∃ s', ParseStructs_loop (H := example.classifier) example.ctx 19
          (worklist.mk [0]%nat ∅ []) = Some (Ok s') ∧
        NoDup (Struct.Name <$> worklist.Structs s').
Proof.
  destruct worklist_example as (s' & Hs' & _). exists s'. split; [exact Hs'|].
  exact (proj1 (proj1 (ParseStructs_one_struct_per_name
                         (H := example.classifier) example.ctx) _ _ _ Hs')).
Defined.

Lemma ParseStructs_closure_witness :
  ∃ s', ParseStructs_loop (H := example.classifier) example.ctx 19
          (worklist.mk [0]%nat ∅ []) = Some (Ok s') ∧
        ∃ t, deref example.ctx 0%nat = Ok t ∧
             types.Name.Name (types.Type_.Name t)
             ∈ Struct.Name <$> worklist.Structs s'.
Proof.
  destruct worklist_example as (s' & Hs' & _). exists s'. split; [exact Hs'|].
  apply (proj1 (ParseStructs_closure (H := example.classifier) example.ctx
                  _ _ _ Hs') 0%nat).
  by left.
Defined.

Lemma ParseStructs_client_implies_deepcopy_witness :
  ∃ s' st, ParseStructs_loop (H := example.classifier) example.ctx 19
             (worklist.mk [0]%nat ∅ []) = Some (Ok s') ∧
           worklist.Structs s' !! 0%nat = Some st ∧
           Struct.GenClient st = true ∧ Struct.GenDeepCopy st = true.
Proof.
  assert (∃ s' st, ParseStructs_loop (H := example.classifier) example.ctx 19
                     (worklist.mk [0]%nat ∅ []) = Some (Ok s') ∧
                   worklist.Structs s' !! 0%nat = Some st ∧
                   Struct.GenClient st = true) as (s' & st & Hs' & Hst & Hc)
    by (eexists _, _; split_and!; vm_compute; reflexivity).
  exists s', st. split_and!; try assumption.
  apply (ParseStructs_client_implies_deepcopy (H := example.classifier)
           example.ctx _ _ s' st Hs'); [|exact Hc].
  by eapply list_elem_of_lookup_2.
Defined.

Section NoPanic.
Context `{Classifier}.
Variable ctx : generator.Context.t.
Hypothesis Hclosed : closed ctx.

Lemma deref_is_Some p :
is_Some (generator.Context.types ctx !! p) → ∃ t, deref ctx p = Ok t.
Proof. intros [t Ht]. exists t. unfold deref. by rewrite Ht. Qed.

Lemma unversioned_ok mt base uType :
mt ∈ generator.Context.types ctx → is_Ok (unversioned ctx mt base uType).
Proof.
intros Hmt. unfold unversioned.
destruct (1 <? length (strings.Split base "."))%nat; [|by eexists].
destruct (String.eqb _ metav1_package); [eexists; reflexivity|].
destruct (types.Type_.Elem mt) as [e|] eqn:He.
- destruct (deref_is_Some e) as [t ->]; [by apply (proj2 (Hclosed mt Hmt))|].
  rewrite !bind_unfold. eexists; reflexivity.
- rewrite bind_unfold. eexists; reflexivity.
Qed.

Lemma DoType_ok t :
t ∈ generator.Context.types ctx → is_Ok (DoType ctx t).
Proof.
intros Ht. unfold DoType.
destruct (foldM_is_Ok (DoType_member ctx t) (types.Type_.Members t) ([], []))
  as [fr ->]; [|rewrite bind_unfold; eexists; reflexivity].
intros acc m Hm. unfold DoType_member.
destruct (deref_is_Some (types.Member.Type_ m)) as [mt Hmt];
  [by apply (proj1 (Hclosed t Ht))|].
rewrite Hmt, bind_unfold.
destruct (unversioned_ok mt (filepath.Base (types.Type_.String_ mt))
            (types.Name.Name (types.Type_.Name mt))) as [iu ->];
  [by eapply deref_elem_of|].
destruct (negb (String.eqb (types.Name.Package (types.Type_.Name t))
                           (types.Name.Package (types.Type_.Name mt))));
  rewrite bind_unfold; eexists; reflexivity.
Qed.

Lemma ParseStructs_step_ok s :
Forall (λ p, is_Some (generator.Context.types ctx !! p)) (worklist.remaining s) →
∃ s', ParseStructs_step ctx s = Ok s' ∧
      Forall (λ p, is_Some (generator.Context.types ctx !! p))
             (worklist.remaining s').
Proof.
intros Hall. unfold ParseStructs_step.
destruct (pop (worklist.remaining s)) as [[nextp rest]|] eqn:Hpop;
  [|by exists s].
apply pop_perm in Hpop as [Hperm _]. rewrite Hperm in Hall.
apply Forall_cons in Hall as [Hnext Hrest].
destruct (deref_is_Some _ Hnext) as [next Hn]. rewrite Hn, bind_unfold.
case_decide; [eexists; split; [reflexivity|done]|].
destruct (DoType_ok next) as [[st more] Hdo]; [by eapply deref_elem_of|].
rewrite Hdo, bind_unfold. eexists. split; [done|]. simpl.
apply Forall_app. split; [done|].
apply Forall_forall. intros p Hp.
destruct (DoType_inv _ _ _ _ Hdo) as (_ & _ & _ & _ & _ & _ & _ & Hmore).
apply Hmore in Hp as (m & mt & _ & _ & Hd & _).
unfold deref in Hd. by destruct (generator.Context.types ctx !! p).
Qed.

Lemma ParseStructs_loop_ok fuel s :
Forall (λ p, is_Some (generator.Context.types ctx !! p)) (worklist.remaining s) →
(turns ctx s ≤ fuel)%nat →
∃ s', ParseStructs_loop ctx fuel s = Some (Ok s').
Proof.
revert s. induction fuel as [|fuel IH]; intros s Hall Hfuel.
- destruct (ParseStructs_loop_terminates ctx 0 s Hfuel) as [r Hr].
  simpl in *. destruct (worklist.remaining s); [by eexists|done].
- simpl. destruct (worklist.remaining s) eqn:Hr; [eexists; reflexivity|].
  destruct (ParseStructs_step_ok s) as (s1 & Hs1 & Hall1); [by rewrite Hr|].
  rewrite Hs1. apply IH; [done|].
  pose proof (ParseStructs_step_turns ctx _ _ Hs1) as Hlt.
  rewrite Hr in Hlt. specialize (Hlt ltac:(done)). lia.
Qed.

End NoPanic.

(** X5. On a universe whose pointers all point into the universe, flattening
    never fails: [DoType] returns a struct for every declaration, and the loop
    of [ParseStructs], started from pointers into the universe, ends with a
    list of structs. *)
Theorem ParseStructs_no_panic `{Classifier} (ctx : generator.Context.t) :
  closed ctx →
  (∀ t, t ∈ generator.Context.types ctx → is_Ok (DoType ctx t)) ∧
  (∀ fuel s,
     Forall (λ p, is_Some (generator.Context.types ctx !! p))
            (worklist.remaining s) →
     (turns ctx s ≤ fuel)%nat →
     ∃ s', ParseStructs_loop ctx fuel s = Some (Ok s')).
Proof.
  intros Hclosed. split.
  - intros t. by apply DoType_ok.
  - intros fuel s. by apply ParseStructs_loop_ok.
Qed.

Lemma example_closed : closed example.ctx.
Proof.
  intros t Ht. apply list_elem_of_In in Ht. simpl in Ht.
  repeat (destruct Ht as [<-|Ht]; [split; [intros m Hm|intros e He; done]|]);
    try done;
    apply list_elem_of_In in Hm; simpl in Hm;
    repeat (destruct Hm as [<-|Hm]; [eexists; reflexivity|]); done.
Qed.

Lemma ParseStructs_no_panic_witness :
  ∃ s', ParseStructs_loop (H := example.classifier) example.ctx 19
          (worklist.mk [0]%nat ∅ []) = Some (Ok s').
Proof.
  apply (proj2 (ParseStructs_no_panic (H := example.classifier) example.ctx
                  example_closed) 19%nat (worklist.mk [0]%nat ∅ [])).
  - repeat constructor. eexists. reflexivity.
  - vm_compute. lia.
Defined.

(** ** Splitting and base names *)

Lemma split_scan_nonempty sep skip s : strings.split_scan sep skip s ≠ [].
Proof.
  revert skip. induction s as [|c s IH]; intros skip; [done|].
  simpl. destruct skip; [|apply IH].
  destruct (strings.HasPrefix (String c s) sep); [done|].
  specialize (IH 0%nat). by destruct (strings.split_scan sep 0 s).
Qed.

(** A string without the separator is one piece. *)
Lemma Split_no_sep s d :
  strings.Contains s (String d "") = false →
  strings.Split s (String d "") = [s].
Proof.
  unfold strings.Split. induction s as [|c s IH]; [done|].
  rewrite Contains_cons_char. intros [Hd Hs]%orb_false_iff.
  simpl. rewrite Hd. by rewrite (IH Hs).
Qed.

Lemma trimTrailingSlashes_no_slash s :
  strings.Contains s "/" = false → filepath.trimTrailingSlashes s = s.
Proof.
  induction s as [|c s IH]; [done|].
  rewrite Contains_cons_char. intros [Hc Hs]%orb_false_iff.
  simpl. rewrite (IH Hs). destruct s; [|done].
  unfold filepath.slash. rewrite Ascii.eqb_sym in Hc. by rewrite Hc.
Qed.

Lemma trimTrailingSlashes_app a c b :
  c ≠ filepath.slash → strings.Contains b "/" = false →
  filepath.trimTrailingSlashes (a +:+ String c b) = a +:+ String c b.
Proof.
  intros Hc Hb.
  assert (filepath.trimTrailingSlashes (String c b) = String c b) as Hcb.
  { simpl. rewrite (trimTrailingSlashes_no_slash _ Hb). destruct b; [|done].
    by rewrite (proj2 (Ascii.eqb_neq c filepath.slash) Hc). }
  induction a as [|x a IH]; [done|].
  rewrite string_app_cons. simpl. rewrite IH. by destruct a.
Qed.

(** The base name of [<dir>/<name>], for a name without a slash that is not
    empty. *)
Lemma Base_dir_name dir c name :
  c ≠ filepath.slash → strings.Contains name "/" = false →
  filepath.Base (dir +:+ "/" +:+ String c name) = String c name.
Proof.
  intros Hc Hn.
  assert (strings.LastIndex (dir +:+ "/" +:+ String c name) "/"
          = strings.len dir) as Hlast.
  { unfold strings.LastIndex.
    change (dir +:+ "/" +:+ String c name)
      with (dir +:+ String "/" (String c name)).
    rewrite LastIndex_from_last; [lia|done|].
    rewrite Contains_cons_char, Hn, orb_false_r.
    apply Ascii.eqb_neq. intros E. apply Hc. by rewrite <- E. }
  assert (filepath.trimTrailingSlashes (dir +:+ "/" +:+ String c name)
          = dir +:+ "/" +:+ String c name) as Htrim.
  { rewrite <- (string_app_assoc dir "/" (String c name)).
    by apply trimTrailingSlashes_app. }
  assert (filepath.drop (Z.to_nat (strings.len dir + 1))
            (dir +:+ "/" +:+ String c name) = String c name) as Hdrop.
  { replace (Z.to_nat (strings.len dir + 1))
      with (String.length (dir +:+ "/"))
      by (rewrite string_length_app; unfold strings.len; simpl; lia).
    rewrite <- (string_app_assoc dir "/" (String c name)). apply drop_app. }
  unfold filepath.Base. rewrite Htrim, Hlast, Hdrop.
  assert (String.eqb (dir +:+ "/" +:+ String c name) "" = false) as ->
    by (by destruct dir).
  assert ((0 <=? strings.len dir) = true) as ->
    by (apply Z.leb_le; unfold strings.len; lia).
  done.
Qed.

Lemma Split_v1_name n :
  strings.Contains n "." = false →
  strings.Split ("v1." +:+ n) "." = ["v1"; n].
Proof.
  intros Hn. pose proof (Split_no_sep n "." Hn) as Hs.
  unfold strings.Split in *.
  change ("v1." +:+ n) with (String "v" (String "1" (String "." n))).
  simpl. simpl in Hs. by rewrite Hs.
Qed.

Lemma Base_metav1_name n :
  strings.Contains n "/" = false →
  filepath.Base (metav1_package +:+ "." +:+ n) = "v1." +:+ n.
Proof.
  intros Hn.
  change (metav1_package +:+ "." +:+ n)
    with ("k8s.io/apimachinery/pkg/apis/meta" +:+ "/" +:+ String "v" ("1." +:+ n)).
  rewrite Base_dir_name; [done|done|].
  change ("1." +:+ n) with (String "1" (String "." n)).
  by rewrite !Contains_cons_char, Hn.
Qed.

Section DoTypeTheorems.
Context `{Classifier}.
Variable ctx : generator.Context.t.

(** X6. The struct of [DoType] follows the declaration: it has its name, no
  generation flag but [GenUnversioned], which is off exactly when a comment
  line has the opt-out marker, and one field per member in the order of the
  members, with an empty name for an embedded member and the package of the
  member type as versioned package. The types added to the work list are
  exactly the types of the members that are not primitive and in the group
  of the declaration, at most one per member: a declaration whose members
  are all primitive or of another group adds none. *)
Theorem DoType_shape (t : types.Type_.t) (st : Struct.t)
(more : list types.TypeRef) :
DoType ctx t = Ok (st, more) →
Struct.Name st = types.Name.Name (types.Type_.Name t) ∧
Struct.GenClient st = false ∧ Struct.GenDeepCopy st = false ∧
Struct.GenUnversioned st
= negb (existsb (λ c, strings.Contains c "+genregister:unversioned=false")
                (types.Type_.CommentLines t)) ∧
length (Struct.Fields st) = length (types.Type_.Members t) ∧
(length more ≤ length (types.Type_.Members t))%nat ∧
(∀ i member, types.Type_.Members t !! i = Some member →
   ∃ mt f, deref ctx (types.Member.Type_ member) = Ok mt ∧
           Struct.Fields st !! i = Some f ∧
           Field.Name f = (if types.Member.Embedded member then ""
                           else types.Member.Name member) ∧
           Field.VersionedPackage f
           = types.Name.Package (types.Type_.Name mt)) ∧
(∀ p, p ∈ more ↔
      ∃ member mt, member ∈ types.Type_.Members t ∧
                   types.Member.Type_ member = p ∧
                   deref ctx p = Ok mt ∧ IsPrimitive mt = false ∧
                   GetGroup mt = GetGroup t) ∧
((∀ member mt, member ∈ types.Type_.Members t →
               deref ctx (types.Member.Type_ member) = Ok mt →
               IsPrimitive mt = true ∨ GetGroup mt ≠ GetGroup t) →
 more = []).
Proof.
intros Hdo. destruct (DoType_inv ctx _ _ _ Hdo)
  as (Hn & Hc & Hd & Hu & Hlf & Hlm & Hfield & Hmore).
split_and!; try done.
intros Hleaf. destruct more as [|p more]; [done|].
destruct (proj1 (Hmore p) ltac:(left)) as (member & mt & Hin & <- & Hd' & Hp & Hg).
destruct (Hleaf member mt Hin Hd') as [Hp'|Hg']; [congruence|done].
Qed.

(** X7. A declaration with a member of its own package and a member of the
  package [k8s.io/apimachinery/pkg/apis/meta/v1] is flattened to two
  fields: the first keeps the bare name of the member type and has no
  import; the second has the import [metav1 "k8s.io/.../meta/v1"] and the
  type [metav1.<TypeName>], the versioned type. A member type is added to
  the work list when it is not primitive and in the group of the
  declaration. *)
Theorem DoType_same_package_and_metav1 (t : types.Type_.t)
(m1 m2 : types.Member.t) (mt1 mt2 : types.Type_.t) (n2 : string) :
types.Type_.Members t = [m1; m2] →
deref ctx (types.Member.Type_ m1) = Ok mt1 →
types.Name.Package (types.Type_.Name mt1)
= types.Name.Package (types.Type_.Name t) →
deref ctx (types.Member.Type_ m2) = Ok mt2 →
types.Type_.Name mt2 = types.Name.mk metav1_package n2 →
types.Name.Package (types.Type_.Name t) ≠ metav1_package →
strings.Contains n2 "." = false → strings.Contains n2 "/" = false →
∃ st more,
  DoType ctx t = Ok (st, more) ∧
  Struct.Name st = types.Name.Name (types.Type_.Name t) ∧
  Struct.Fields st
  = [Field.mk (if types.Member.Embedded m1 then "" else types.Member.Name m1)
              (types.Name.Package (types.Type_.Name t)) ""
              (types.Name.Name (types.Type_.Name mt1));
     Field.mk (if types.Member.Embedded m2 then "" else types.Member.Name m2)
              metav1_package
              ("metav1 " +:+ dquote +:+ metav1_package +:+ dquote)
              ("metav1." +:+ n2)] ∧
  more
  = (if negb (IsPrimitive mt1) && String.eqb (GetGroup mt1) (GetGroup t)
     then [types.Member.Type_ m1] else [])
    ++ (if negb (IsPrimitive mt2) && String.eqb (GetGroup mt2) (GetGroup t)
        then [types.Member.Type_ m2] else []).
Proof.
intros Hm Hd1 Hp1 Hd2 Hn2 Hpkg Hdot Hslash.
assert (∀ acc, DoType_member ctx t acc m1
               = Ok (acc.1 ++ [Field.mk
                                 (if types.Member.Embedded m1 then ""
                                  else types.Member.Name m1)
                                 (types.Name.Package (types.Type_.Name t)) ""
                                 (types.Name.Name (types.Type_.Name mt1))],
                     if negb (IsPrimitive mt1)
                        && String.eqb (GetGroup mt1) (GetGroup t)
                     then acc.2 ++ [types.Member.Type_ m1] else acc.2)) as H1.
{ intros acc. unfold DoType_member. rewrite Hd1, bind_unfold, Hp1.
  by rewrite String.eqb_refl. }
assert (∀ acc, DoType_member ctx t acc m2
               = Ok (acc.1 ++ [Field.mk
                                 (if types.Member.Embedded m2 then ""
                                  else types.Member.Name m2)
                                 metav1_package
                                 ("metav1 " +:+ dquote +:+ metav1_package
                                  +:+ dquote)
                                 ("metav1." +:+ n2)],
                     if negb (IsPrimitive mt2)
                        && String.eqb (GetGroup mt2) (GetGroup t)
                     then acc.2 ++ [types.Member.Type_ m2] else acc.2)) as H2.
{ intros acc. unfold DoType_member. rewrite Hd2, bind_unfold.
  unfold types.Type_.String_, types.Name.String_. rewrite Hn2. simpl types.Name.Package.
  simpl types.Name.Name.
  rewrite (proj2 (String.eqb_neq _ _) Hpkg).
  change (String.eqb metav1_package "") with false. cbv iota.
  rewrite Base_metav1_name by done. simpl negb. cbv iota.
  unfold unversioned. rewrite Split_v1_name by done. rewrite Hn2.
  simpl types.Name.Package. rewrite String.eqb_refl. by simpl. }
unfold DoType. rewrite Hm, foldM_cons, H1. cbv beta iota.
rewrite foldM_cons, H2. cbv beta iota.
change (foldM (DoType_member ctx t) [] ?s) with (Ok s).
rewrite bind_unfold. eexists _, _. split; [reflexivity|]. simpl.
split_and!; try done.
by destruct (negb (IsPrimitive mt1) && _), (negb (IsPrimitive mt2) && _).
Qed.

End DoTypeTheorems.

Lemma DoType_shape_witness :
  ∃ st more, DoType (H := example.classifier) example.ctx example.WidgetStatus
             = Ok (st, more) ∧
             length (Struct.Fields st) = 2%nat ∧ more = [4%nat].
Proof.
  assert (∃ st more, DoType (H := example.classifier) example.ctx
                       example.WidgetStatus = Ok (st, more) ∧ more = [4%nat])
    as (st & more & Hdo & Hmore)
    by (eexists _, _; split; vm_compute; reflexivity).
  exists st, more. split; [exact Hdo|]. split; [|exact Hmore].
  exact (proj1 (proj2 (proj2 (proj2 (proj2
           (DoType_shape (H := example.classifier) example.ctx _ _ _ Hdo)))))).
Defined.

Lemma DoType_same_package_and_metav1_witness :
  ∃ st more, DoType (H := example.classifier) example.ctx example.Widget
             = Ok (st, more) ∧
             Field.UnversionedType <$> Struct.Fields st
             = ["WidgetStatus"; "metav1.ObjectMeta"] ∧
             more = [1%nat].
Proof.
  destruct (DoType_same_package_and_metav1 (H := example.classifier)
              example.ctx example.Widget
              (types.Member.mk "Status" false 1%nat)
              (types.Member.mk "ObjectMeta" true 2%nat)
              example.WidgetStatus example.ObjectMeta "ObjectMeta"
              eq_refl eq_refl eq_refl eq_refl eq_refl)
    as (st & more & Hdo & _ & Hf & Hmore).
  - vm_compute. discriminate.
  - reflexivity.
  - reflexivity.
  - exists st, more. split; [exact Hdo|]. rewrite Hf, Hmore. split; reflexivity.
Defined.

(** X8. One turn of the loop of [ParseStructs] on the list [nextp :: tl]:
    the popped type is the first one and the others stay on the list, none
    lost and none twice. When its bare name is marked already, the turn emits
    no struct and marks nothing; otherwise it marks the name, emits one struct
    of that name and puts the types found by [DoType] on the list. A pointer
    that points to no declaration ends the run. *)
Theorem ParseStructs_turn `{Classifier} (ctx : generator.Context.t)
  (nextp : types.TypeRef) (tl : list types.TypeRef) (done : gset string)
  (structs : list Struct.t) :
  match generator.Context.types ctx !! nextp with
  | None => ∃ msg, ParseStructs_step ctx (worklist.mk (nextp :: tl) done structs)
                   = Err (Panic msg)
  | Some next =>
      let name := types.Name.Name (types.Type_.Name next) in
      if decide (name ∈ done) then
        ∃ rest, ParseStructs_step ctx (worklist.mk (nextp :: tl) done structs)
                = Ok (worklist.mk rest done structs) ∧ rest ≡ₚ tl
      else
        match DoType ctx next with
        | Err e => ParseStructs_step ctx (worklist.mk (nextp :: tl) done structs)
                   = Err e
        | Ok (st, more) =>
            ∃ rest st',
              ParseStructs_step ctx (worklist.mk (nextp :: tl) done structs)
              = Ok (worklist.mk (rest ++ more) ({[name]} ∪ done)
                                (structs ++ [st'])) ∧
              rest ≡ₚ tl ∧ Struct.Name st' = name ∧
              Struct.Fields st' = Struct.Fields st
        end
  end.
Proof.
  destruct (pop (nextp :: tl)) as [[p rest]|] eqn:Hpop; [|done].
  pose proof Hpop as Hpop'. simpl in Hpop'. injection Hpop' as <- Hrest.
  apply pop_perm in Hpop as [Hperm _]. apply Permutation_cons_inv in Hperm.
  unfold ParseStructs_step. simpl worklist.remaining.
  change (pop (nextp :: tl))
    with (Some (nextp, match tl with
                       | [] => []
                       | _ :: _ => List.last tl nextp :: removelast tl
                       end)).
  rewrite Hrest. cbv beta iota. unfold deref.
  destruct (generator.Context.types ctx !! nextp) as [next|]; [|by eexists].
  rewrite bind_unfold. simpl worklist.done. simpl worklist.Structs.
  cbv zeta. case_decide.
  - exists rest. by split.
  - destruct (DoType ctx next) as [[st more]|e] eqn:Hdo; [|done].
    rewrite bind_unfold. destruct (DoType_inv ctx _ _ _ Hdo) as (Hn & _).
    eexists rest, _. split; [reflexivity|]. split; [done|].
    by destruct (GenClient next), (GenDeepCopy next).
Qed.

(** ** The subresource resolver: the map of a successful run *)

Section ResolverResults.
Variables (b : APIsBuilder.t) (c : APIResource.t).

Lemma GetSubresources_loop_stored pre rest r r' :
(∀ q v, r !! q = Some v →
        ∃ d, d ∈ pre ∧ new_subresource b c d = Ok v ∧
             APISubresource.Path v = q) →
(∀ d, d ∈ pre →
      ∃ sr, new_subresource b c d = Ok sr ∧
            r !! APISubresource.Path sr = Some sr) →
foldM (GetSubresources_step b c) rest r = Ok r' →
(∀ q v, r' !! q = Some v →
        ∃ d, d ∈ pre ++ rest ∧ new_subresource b c d = Ok v ∧
             APISubresource.Path v = q) ∧
(∀ d, d ∈ pre ++ rest →
      ∃ sr, new_subresource b c d = Ok sr ∧
            r' !! APISubresource.Path sr = Some sr) ∧
size r' = (size r + length rest)%nat.
Proof.
revert pre r. induction rest as [|d rest IH]; intros pre r H1 H2 Hf.
- injection Hf as <-. rewrite app_nil_r. split_and!; [done|done|simpl; lia].
- rewrite foldM_cons in Hf.
  destruct (GetSubresources_step b c r d) as [r1|] eqn:Hstep; [|done].
  apply GetSubresources_step_inv in Hstep as (sr & Hsr & Hnone & ->).
  rewrite (cons_middle d), app_assoc.
  destruct (IH (pre ++ [d]) (<[APISubresource.Path sr := sr]> r))
    as (H1' & H2' & Hsize); [| |done|].
  + intros q v Hq. destruct (decide (APISubresource.Path sr = q)) as [<-|Hne].
    * rewrite lookup_insert_eq in Hq. injection Hq as <-.
      exists d. split_and!; try done. apply elem_of_app. right. by left.
    * rewrite lookup_insert_ne in Hq by done.
      destruct (H1 _ _ Hq) as (d' & Hd' & Hrest). exists d'.
      split; [apply elem_of_app; by left|done].
  + intros d' [Hd'|Hd']%elem_of_app.
    * destruct (H2 d' Hd') as (sr' & Hsr' & Hl). exists sr'. split; [done|].
      rewrite lookup_insert_ne; [done|]. intros E. rewrite E in Hnone.
      by rewrite Hnone in Hl.
    * apply list_elem_of_singleton in Hd' as ->. exists sr.
      by rewrite lookup_insert_eq.
  + split_and!; try done.
    rewrite Hsize, map_size_insert_None by done. simpl. lia.
Qed.

End ResolverResults.

(** *** The first collision *)

(** In a list with two positions of one image, the first position whose image
    is the image of an earlier one. *)
Lemma first_repeat {A B : Type} `{EqDecision B} (f : A → B) (l : list A) :
  ¬ NoDup (f <$> l) →
  ∃ i j a a',
    (i < j)%nat ∧ l !! i = Some a ∧ l !! j = Some a' ∧ f a = f a' ∧
    NoDup (f <$> take j l).
Proof.
  induction l as [|x l IH] using rev_ind; [intros []; constructor|].
  intros Hdup. destruct (decide (NoDup (f <$> l))) as [Hnd|Hnd].
  - assert (f x ∈ f <$> l) as (a & Ha & (i & Hi)%list_elem_of_lookup_1)%list_elem_of_fmap.
    { destruct (decide (f x ∈ f <$> l)) as [|Hnin]; [done|]. destruct Hdup.
      rewrite fmap_app. apply NoDup_app. split_and!; [done| |apply NoDup_singleton].
      intros y Hy ->%list_elem_of_singleton. done. }
    exists i, (length l), a, x. split_and!; try done.
    + by apply lookup_lt_Some in Hi.
    + by apply lookup_app_l_Some.
    + by apply list_lookup_middle.
    + by rewrite take_app_length.
  - destruct (IH Hnd) as (i & j & a & a' & Hij & Hi & Hj & Heq & Hfirst).
    exists i, j, a, a'. split_and!; try done.
    + by apply lookup_app_l_Some.
    + by apply lookup_app_l_Some.
    + rewrite take_app_le; [done|]. apply lookup_lt_Some in Hj. lia.
Qed.

Section FirstCollision.
Variables (b : APIsBuilder.t) (c : APIResource.t).

(** The loop of [GetSubresources] over well-formed directives of different
    paths, then a directive [d] for the path of one of them: fatal at [d],
    whatever follows. *)
Lemma GetSubresources_first_collision pre d post i e1 v sr2 :
  Forall (λ d, well_formed d = true) pre →
  NoDup (resolved_path b c <$> pre) →
  pre !! i = Some e1 →
  new_subresource b c e1 = Ok v →
  new_subresource b c d = Ok sr2 →
  APISubresource.Path v = APISubresource.Path sr2 →
  foldM (GetSubresources_step b c) (pre ++ d :: post) ∅
  = Err (Fatal (duplicate_subresource (APISubresource.Path sr2) v d)).
Proof.
  intros Hwf Hnd Hi Hv Hsr2 Hp. rewrite foldM_app.
  destruct (GetSubresources_loop b c [] pre ∅)
    as [(r & Hr & _)|(e & _ & Hcol)]; [|done|..].
  { split; [intros q w; by rewrite lookup_empty|by intros [|?] ? ? ?]. }
  - rewrite Hr, bind_unfold, foldM_cons.
    destruct (GetSubresources_loop_stored b c [] pre ∅ r) as (_ & Hst & _);
      [by intros q w Hq|by intros ? ?%elem_of_nil|done|].
    destruct (Hst e1) as (v' & Hv' & Hstored);
      [by eapply list_elem_of_lookup_2|].
    assert (v' = v) as -> by congruence.
    unfold GetSubresources_step. rewrite Hsr2, bind_unfold, <- Hp, Hstored.
    by rewrite Hp.
  - exfalso. rewrite app_nil_l in Hcol.
    destruct Hcol
      as (k & l & d1 & d2 & w & sr & Hlt & Hd1 & Hd2 & Hw & Hsr & Heq & _).
    assert (k = l); [|lia].
    eapply (proj1 (NoDup_alt _) Hnd k l (Some (APISubresource.Path sr))).
    + rewrite list_lookup_fmap, Hd1. simpl. unfold resolved_path.
      by rewrite Hw, Heq.
    + rewrite list_lookup_fmap, Hd2. simpl. unfold resolved_path.
      by rewrite Hsr.
Qed.

Lemma resolved_path_well_formed d p :
  resolved_path b c d = Some p → well_formed d = true.
Proof.
  intros (sr & Hsr & _)%resolved_path_Some.
  destruct (new_subresource_inv _ _ _ _ Hsr) as [tags Htags].
  by eapply ParseSubresourceTag_well_formed.
Qed.

End FirstCollision.

(** C3, as the code has it. When two subresource directives on the type of a
    resource resolve to the same path and every directive before the later of
    the two is well-formed, [GetSubresources] is fatal and produces no map. The
    diagnostic is that of the first directive, in the order of the directives,
    whose path is already registered: no two directives before it resolve to
    one path. It names that path, the descriptor registered for it by the
    earlier directive (printed as a structure, not as the directive string),
    and the string of the later directive. *)
Theorem duplicate_path_is_fatal `{Classifier} (b : APIsBuilder.t)
  (c : APIResource.t) (t : types.Type_.t) (i j : nat) (d1 d2 p : string) :
  deref (APIsBuilder.context b) (APIResource.Type_ c) = Ok t →
  i ≠ j →
  GetSubresourceTags t !! i = Some d1 →
  GetSubresourceTags t !! j = Some d2 →
  resolved_path b c d1 = Some p →
  resolved_path b c d2 = Some p →
  Forall (λ d, well_formed d = true) (take (Nat.max i j) (GetSubresourceTags t)) →
  ∃ i' j' e1 e2 v sr2,
    (i' < j')%nat ∧ (j' ≤ Nat.max i j)%nat ∧
    GetSubresourceTags t !! i' = Some e1 ∧
    GetSubresourceTags t !! j' = Some e2 ∧
    new_subresource b c e1 = Ok v ∧
    new_subresource b c e2 = Ok sr2 ∧
    APISubresource.Path v = APISubresource.Path sr2 ∧
    NoDup (resolved_path b c <$> take j' (GetSubresourceTags t)) ∧
    let msg := duplicate_subresource (APISubresource.Path sr2) v e2 in
    GetSubresources b c = Err (Fatal msg) ∧
    names_string msg (APISubresource.Path sr2) ∧
    names_string msg (APISubresource.format v) ∧
    names_string msg e2.
Proof.
  intros Ht Hij Hd1 Hd2 Hp1 Hp2 Hwf.
  rewrite (GetSubresources_fold _ _ _ Ht).
  set (ds := GetSubresourceTags t) in *. set (m := Nat.max i j) in *.
  assert (∃ dm, ds !! m = Some dm ∧ well_formed dm = true) as (dm & Hdm & Hwm).
  { destruct (Nat.max_spec i j) as [[_ Hm]|[_ Hm]]; fold m in Hm; rewrite Hm.
    - exists d2. split; [done|]. by eapply resolved_path_well_formed.
    - exists d1. split; [done|]. by eapply resolved_path_well_formed. }
  assert (Forall (λ d, well_formed d = true) (take (S m) ds)) as Hwf'.
  { rewrite (take_S_r _ _ _ Hdm). apply Forall_app. split; [done|].
    by apply Forall_singleton. }
  assert (¬ NoDup (resolved_path b c <$> take (S m) ds)) as Hdup.
  { intros Hnd. apply Hij.
    apply (proj1 (NoDup_alt _) Hnd i j (Some p));
      rewrite list_lookup_fmap, lookup_take_lt by (unfold m; lia).
    - by rewrite Hd1; simpl; rewrite Hp1.
    - by rewrite Hd2; simpl; rewrite Hp2. }
  destruct (first_repeat _ _ Hdup)
    as (i' & j' & e1 & e2 & Hlt & He1 & He2 & Heq & Hfirst).
  apply lookup_take_Some in He1 as [He1 _].
  apply lookup_take_Some in He2 as [He2 Hj'].
  rewrite take_take, Nat.min_l in Hfirst by lia.
  assert (Forall (λ d, well_formed d = true) (take j' ds)) as Hpre.
  { replace (take j' ds) with (take j' (take (S m) ds))
      by (rewrite take_take; f_equal; lia).
    by apply Forall_take. }
  destruct (new_subresource_ok b c e2) as [sr2 Hsr2].
  { rewrite Forall_forall in Hwf'. apply Hwf'.
    apply (list_elem_of_lookup_2 _ j'). apply lookup_take_Some. by split. }
  assert (resolved_path b c e1 = Some (APISubresource.Path sr2)) as Hq.
  { rewrite Heq. unfold resolved_path. by rewrite Hsr2. }
  apply resolved_path_Some in Hq as (v & Hv & Hpv).
  exists i', j', e1, e2, v, sr2. cbv zeta. split_and!; try done; [lia| |..].
  - rewrite <- (take_drop_middle ds j' e2 He2) at 1.
    apply (GetSubresources_first_collision b c _ e2 _ i' e1 v sr2); try done.
    apply lookup_take_Some. by split.
  - apply duplicate_subresource_names.
  - apply duplicate_subresource_names_descriptor.
  - apply duplicate_subresource_names.
Qed.

(** On a type with three directives for the path [scale] and a malformed
    fourth one, the diagnostic is that of the second directive and carries the
    descriptor of the first. *)
Example duplicate_path_first_collision :
  GetSubresources (H := example.classifier) example_tripled_builder
    example_tripled
  = Err (Fatal
           (duplicate_subresource "scale"
              (APISubresource.mk "example.com" "core" "v1" "" "tripleds"
                 "ScaleRequest" "ScaleREST" "scale" "")
              "request=OtherRequest,path=scale,rest=OtherREST")).
Proof. vm_compute. reflexivity. Qed.

Lemma duplicate_path_is_fatal_witness :
  ∃ i' j' e1 e2 v sr2,
    (i' < j')%nat ∧ (j' ≤ Nat.max 1 2)%nat ∧
    GetSubresourceTags (H := example.classifier) example_Tripled !! i' = Some e1 ∧
    GetSubresourceTags (H := example.classifier) example_Tripled !! j' = Some e2 ∧
    new_subresource example_tripled_builder example_tripled e1 = Ok v ∧
    new_subresource example_tripled_builder example_tripled e2 = Ok sr2 ∧
    APISubresource.Path v = APISubresource.Path sr2 ∧
    NoDup (resolved_path example_tripled_builder example_tripled
             <$> take j' (GetSubresourceTags (H := example.classifier)
                            example_Tripled)) ∧
    let msg := duplicate_subresource (APISubresource.Path sr2) v e2 in
    GetSubresources (H := example.classifier) example_tripled_builder
      example_tripled
    = Err (Fatal msg) ∧
    names_string msg (APISubresource.Path sr2) ∧
    names_string msg (APISubresource.format v) ∧
    names_string msg e2.
Proof.
  apply (duplicate_path_is_fatal (H := example.classifier)
           example_tripled_builder example_tripled example_Tripled 1 2
           "request=OtherRequest,path=scale,rest=OtherREST"
           "request=ThirdRequest,path=scale,rest=ThirdREST"
           "scale").
  - reflexivity.
  - lia.
  - reflexivity.
  - reflexivity.
  - vm_compute. reflexivity.
  - vm_compute. reflexivity.
  - repeat constructor.
Defined.

Section ResolverTheorems.
Context `{Classifier}.

(** X11. The map of a successful [GetSubresources] has exactly one entry per
  directive of the type: the descriptor built for the directive, under its
  own path, with the domain of the builder and the group, version and
  resource name of the resource; and it has no other entry. A type without
  directives gets the empty map. *)
Theorem GetSubresources_entries (b : APIsBuilder.t) (c : APIResource.t)
(m : gmap string APISubresource.t) :
GetSubresources b c = Ok m →
∃ t, deref (APIsBuilder.context b) (APIResource.Type_ c) = Ok t ∧
  size m = length (GetSubresourceTags t) ∧
  (∀ d, d ∈ GetSubresourceTags t →
        ∃ sr, new_subresource b c d = Ok sr ∧
              m !! APISubresource.Path sr = Some sr) ∧
  (∀ path sr, m !! path = Some sr →
     APISubresource.Path sr = path ∧
     APISubresource.Domain sr = APIsBuilder.Domain b ∧
     APISubresource.Group sr = APIResource.Group c ∧
     APISubresource.Version sr = APIResource.Version c ∧
     APISubresource.Resource sr = APIResource.Resource c ∧
     ∃ d, d ∈ GetSubresourceTags t ∧ new_subresource b c d = Ok sr).
Proof.
intros Hm. destruct (GetSubresources_deref _ _ _ Hm) as [t Ht].
exists t. split; [done|]. rewrite (GetSubresources_fold _ _ _ Ht) in Hm.
destruct (GetSubresources_loop_stored b c [] (GetSubresourceTags t) ∅ m) as (H1 & H2 & Hsize);
  [by intros q v Hq|by intros d ?%elem_of_nil|done|].
rewrite app_nil_l in H1, H2. rewrite map_size_empty in Hsize.
split_and!; [done|done|].
intros path sr Hsr. destruct (H1 _ _ Hsr) as (d & Hd & Hnew & Hp).
destruct (new_subresource_inv _ _ _ _ Hnew) as [tags Htags].
destruct (new_subresource_fields b c d tags Htags)
  as (sr' & Hsr' & Hdom & Hg & Hv & Hr & _).
rewrite Hnew in Hsr'. injection Hsr' as <-.
split_and!; try done. by exists d.
Qed.

Lemma GetSubresources_ok_iff (b : APIsBuilder.t) (c : APIResource.t)
(t : types.Type_.t) :
deref (APIsBuilder.context b) (APIResource.Type_ c) = Ok t →
(is_Ok (GetSubresources b c) ↔
 Forall (λ d, well_formed d = true) (GetSubresourceTags t) ∧
 NoDup (resolved_path b c <$> GetSubresourceTags t)).
Proof.
intros Ht. rewrite (GetSubresources_fold _ _ _ Ht).
assert (is_Ok (foldM (GetSubresources_step b c) (GetSubresourceTags t) ∅) →
        Forall (λ d, well_formed d = true) (GetSubresourceTags t)) as Hwf.
{ intros [m Hm]. apply Forall_forall. intros d Hd.
  destruct (GetSubresources_loop_stored b c [] (GetSubresourceTags t) ∅ m) as (_ & H2 & _);
    [by intros q v Hq|by intros ? ?%elem_of_nil|done|].
  destruct (H2 d Hd) as (sr & Hsr & _).
  destruct (new_subresource_inv _ _ _ _ Hsr) as [tags Htags].
  by eapply ParseSubresourceTag_well_formed. }
split.
- intros Hok. pose proof (Hwf Hok) as Hall. split; [done|].
  destruct Hok as [m Hm].
  destruct (GetSubresources_loop b c [] (GetSubresourceTags t) ∅)
    as [(r' & _ & Hfree)|(e & He & _)]; [|done| |congruence].
  { split; [intros q v; by rewrite lookup_empty|by intros [|?] ? ? ?]. }
  rewrite app_nil_l in Hfree. apply NoDup_alt. intros i j x Hi Hj.
  apply list_lookup_fmap_Some in Hi as (d1 & -> & Hd1).
  apply list_lookup_fmap_Some in Hj as (d2 & Heq & Hd2).
  destruct (decide (i = j)) as [|Hne]; [done|exfalso].
  rewrite Forall_forall in Hall.
  destruct (new_subresource_ok b c d1) as [sr1 Hsr1];
    [by eapply Hall, list_elem_of_lookup_2|].
  destruct (new_subresource_ok b c d2) as [sr2 Hsr2];
    [by eapply Hall, list_elem_of_lookup_2|].
  unfold resolved_path in Heq. rewrite Hsr1, Hsr2 in Heq. injection Heq as Heq.
  destruct (decide (i < j)%nat).
  + eapply (Hfree i j d1 d2 sr1 sr2); simpl; try done; lia.
  + eapply (Hfree j i d2 d1 sr2 sr1); simpl; try done; lia.
- intros [Hall Hnd].
  destruct (GetSubresources_loop b c [] (GetSubresourceTags t) ∅)
    as [(r' & Hr' & _)|(e & He & Hcol)]; [|done|by exists r'|exfalso].
  { split; [intros q v; by rewrite lookup_empty|by intros [|?] ? ? ?]. }
  rewrite app_nil_l in Hcol.
  destruct Hcol as (i & j & d1 & d2 & v & sr2 & Hlt & Hd1 & Hd2 & Hv & Hsr2 & Hp & _).
  assert (i = j); [|lia].
  eapply (proj1 (NoDup_alt _) Hnd i j (Some (APISubresource.Path sr2))).
  + rewrite list_lookup_fmap, Hd1. simpl. unfold resolved_path.
    by rewrite Hv, Hp.
  + rewrite list_lookup_fmap, Hd2. simpl. unfold resolved_path.
    by rewrite Hsr2.
Qed.

(** X12. [GetSubresources] succeeds exactly when every directive of the type
  is well-formed and no two of them resolve to the same path. *)
Theorem GetSubresources_succeeds_iff (b : APIsBuilder.t) (c : APIResource.t)
(t : types.Type_.t) :
deref (APIsBuilder.context b) (APIResource.Type_ c) = Ok t →
(is_Ok (GetSubresources b c) ↔
 Forall (λ d, well_formed d = true) (GetSubresourceTags t) ∧
 NoDup (resolved_path b c <$> GetSubresourceTags t)).
Proof. apply GetSubresources_ok_iff. Qed.

End ResolverTheorems.

Lemma GetSubresources_entries_witness :
  ∃ m t, GetSubresources (H := example.classifier) (example.builder [])
           (example.resource "widgets") = Ok m ∧
         deref (APIsBuilder.context (example.builder []))
           (APIResource.Type_ (example.resource "widgets")) = Ok t ∧
         size m = length (GetSubresourceTags (H := example.classifier) t).
Proof.
  assert (∃ m, GetSubresources (H := example.classifier) (example.builder [])
                 (example.resource "widgets") = Ok m) as [m Hm]
    by (eexists; vm_compute; reflexivity).
  destruct (GetSubresources_entries (H := example.classifier) _ _ m Hm)
    as (t & Ht & Hsize & _).
  by exists m, t.
Defined.

Lemma GetSubresources_succeeds_iff_witness :
  is_Ok (GetSubresources (H := example.classifier) (example.builder [])
           (example.resource "widgets")) ∧
  ¬ is_Ok (GetSubresources (H := example.classifier) (example.builder [])
             example.scaled).
Proof.
  split.
  - apply (proj2 (GetSubresources_succeeds_iff (H := example.classifier)
                    (example.builder []) (example.resource "widgets")
                    example.Widget eq_refl)).
    split; [repeat constructor|vm_compute; repeat constructor; set_solver].
  - intros Hok.
    apply (proj1 (GetSubresources_succeeds_iff (H := example.classifier)
                    (example.builder []) example.scaled
                    example.Scaled eq_refl)) in Hok as [_ Hnd].
    vm_compute in Hnd. apply NoDup_cons in Hnd as [Hnd _].
    apply Hnd. by left.
Defined.

(** ** The grammar of tags *)

(** The piece before the first separator. *)
Lemma Split_first a b d :
  strings.Contains a (String d "") = false →
  strings.Split (a +:+ String d b) (String d "")
  = a :: strings.Split b (String d "").
Proof.
  unfold strings.Split. induction a as [|c a IH].
  - intros _. rewrite string_app_nil_l. simpl. by rewrite Ascii.eqb_refl.
  - rewrite Contains_cons_char. intros [Hc Ha]%orb_false_iff.
    rewrite string_app_cons. simpl. rewrite Hc. by rewrite (IH Ha).
Qed.

Lemma first_sep s d :
  strings.Contains s (String d "") = true →
  ∃ a b, s = a +:+ String d b ∧ strings.Contains a (String d "") = false.
Proof.
  induction s as [|c s IH]; [done|].
  rewrite Contains_cons_char. destruct (Ascii.eqb_spec d c) as [<-|Hne].
  - intros _. by exists "", s.
  - simpl. intros (a & b & -> & Ha)%IH. exists (String c a), b.
    split; [done|]. rewrite Contains_cons_char, Ha.
    by rewrite (proj2 (Ascii.eqb_neq d c) Hne).
Qed.

Lemma Split_length_1 s d :
  length (strings.Split s (String d "")) = 1%nat ↔
  strings.Contains s (String d "") = false.
Proof.
  split.
  - intros Hl. destruct (strings.Contains s (String d "")) eqn:Hc; [|done].
    destruct (first_sep _ _ Hc) as (a & b & -> & Ha).
    rewrite (Split_first _ _ _ Ha) in Hl.
    pose proof (split_scan_nonempty (String d "") 0 b) as Hne.
    unfold strings.Split in Hl. simpl in Hl.
    by destruct (strings.split_scan (String d "") 0 b).
  - intros Hc. by rewrite Split_no_sep.
Qed.

(** X13. An element of a tag is accepted exactly when it holds one "=": it
    is [key=value] with no "=" in the key nor in the value, and then the two
    parts are the key and the value. *)
Theorem two_parts_iff (elem : string) :
  two_parts elem = true ↔
  ∃ key value,
    elem = key +:+ "=" +:+ value ∧
    strings.Contains key "=" = false ∧ strings.Contains value "=" = false ∧
    strings.Split elem "=" = [key; value].
Proof.
  unfold two_parts. rewrite Nat.eqb_eq. split.
  - intros Hl. destruct (strings.Contains elem "=") eqn:Hc.
    + destruct (first_sep _ _ Hc) as (k & v & -> & Hk).
      rewrite (Split_first _ _ _ Hk) in Hl. simpl in Hl.
      assert (strings.Contains v "=" = false) as Hv
        by (apply Split_length_1; lia).
      exists k, v. split_and!; try done.
      by rewrite (Split_first _ _ _ Hk), (Split_no_sep _ _ Hv).
    + rewrite (Split_no_sep _ _ Hc) in Hl. done.
  - intros (k & v & -> & Hk & Hv & ->). done.
Qed.

Lemma Split_key_value key value :
  strings.Contains key "=" = false → strings.Contains value "=" = false →
  strings.Split (key +:+ "=" +:+ value) "=" = [key; value].
Proof.
  intros Hk Hv.
  change (key +:+ "=" +:+ value) with (key +:+ String "=" value).
  by rewrite (Split_first _ _ _ Hk), (Split_no_sep _ _ Hv).
Qed.

Lemma Contains_literal_app lit s d :
  strings.Contains lit (String d "") = false →
  strings.Contains s (String d "") = false →
  strings.Contains (lit +:+ s) (String d "") = false.
Proof. intros Hl Hs. by apply Contains_app_char_false. Qed.

Lemma ParseResourceTag_elem_key tag res key value :
  strings.Contains key "=" = false → strings.Contains value "=" = false →
  ParseResourceTag_elem tag res (key +:+ "=" +:+ value)
  = if String.eqb key "rest" then
      Ok (ResourceTags.mk (ResourceTags.Resource res) value
                          (ResourceTags.Strategy res))
    else if String.eqb key "path" then
      Ok (ResourceTags.mk value (ResourceTags.REST res)
                          (ResourceTags.Strategy res))
    else if String.eqb key "strategy" then
      Ok (ResourceTags.mk (ResourceTags.Resource res) (ResourceTags.REST res)
                          value)
    else Ok res.
Proof.
  intros Hk Hv. unfold ParseResourceTag_elem.
  by rewrite (Split_key_value key value Hk Hv).
Qed.

Lemma ParseControllerTag_elem_key tag res key value :
  strings.Contains key "=" = false → strings.Contains value "=" = false →
  ParseControllerTag_elem tag res (key +:+ "=" +:+ value)
  = if String.eqb key "group" then Ok (with_gvk_Group value res)
    else if String.eqb key "version" then Ok (with_gvk_Version value res)
    else if String.eqb key "kind" then Ok (with_gvk_Kind value res)
    else if String.eqb key "resource" then
      Ok (ControllerTags.mk (ControllerTags.gvk res) value)
    else Ok res.
Proof.
  intros Hk Hv. unfold ParseControllerTag_elem.
  by rewrite (Split_key_value key value Hk Hv).
Qed.

(** X14. Writing the recognized keys of a parsed [+resource] or
    [+controller] record as a tag and parsing the tag gives the record back,
    when the values hold no "," and no "=". *)
Theorem parse_written_tag :
  (∀ rt,
     plain (ResourceTags.Resource rt) → plain (ResourceTags.REST rt) →
     plain (ResourceTags.Strategy rt) →
     ParseResourceTag (resource_tag_string rt) = Ok rt) ∧
  (∀ ct,
     plain (schema.GroupVersionKind.Group (ControllerTags.gvk ct)) →
     plain (schema.GroupVersionKind.Version (ControllerTags.gvk ct)) →
     plain (schema.GroupVersionKind.Kind (ControllerTags.gvk ct)) →
     plain (ControllerTags.resource ct) →
     ParseControllerTag (controller_tag_string ct) = Ok ct).
Proof.
  split.
  - intros [p r s]. simpl. intros [Hp1 Hp2] [Hr1 Hr2] [Hs1 Hs2].
    unfold ParseResourceTag, resource_tag_string. simpl.
    change ("path=" +:+ p +:+ ",rest=" +:+ r +:+ ",strategy=" +:+ s)
      with ("path=" +:+ p +:+ String "," ("rest=" +:+ r +:+ ",strategy=" +:+ s)).
    rewrite <- (string_app_assoc "path=" p).
    rewrite (Split_first ("path=" +:+ p)) by (by apply Contains_literal_app).
    change ("rest=" +:+ r +:+ ",strategy=" +:+ s)
      with ("rest=" +:+ r +:+ String "," ("strategy=" +:+ s)).
    rewrite <- (string_app_assoc "rest=" r).
    rewrite (Split_first ("rest=" +:+ r)) by (by apply Contains_literal_app).
    rewrite (Split_no_sep ("strategy=" +:+ s)) by (by apply Contains_literal_app).
    rewrite foldM_cons.
    rewrite (ParseResourceTag_elem_key _ _ "path" p eq_refl Hp2). cbv beta iota.
    change (String.eqb "path" "rest") with false.
    change (String.eqb "path" "path") with true. cbv beta iota.
    rewrite foldM_cons.
    rewrite (ParseResourceTag_elem_key _ _ "rest" r eq_refl Hr2).
    change (String.eqb "rest" "rest") with true. cbv beta iota.
    rewrite foldM_cons.
    rewrite (ParseResourceTag_elem_key _ _ "strategy" s eq_refl Hs2).
    reflexivity.
  - intros [[g v k] r]. simpl. intros [Hg1 Hg2] [Hv1 Hv2] [Hk1 Hk2] [Hr1 Hr2].
    unfold ParseControllerTag, controller_tag_string. simpl.
    change ("group=" +:+ g +:+ ",version=" +:+ v +:+ ",kind=" +:+ k
            +:+ ",resource=" +:+ r)
      with ("group=" +:+ g +:+ String "," ("version=" +:+ v +:+ ",kind=" +:+ k
                                           +:+ ",resource=" +:+ r)).
    rewrite <- (string_app_assoc "group=" g).
    rewrite (Split_first ("group=" +:+ g)) by (by apply Contains_literal_app).
    change ("version=" +:+ v +:+ ",kind=" +:+ k +:+ ",resource=" +:+ r)
      with ("version=" +:+ v +:+ String "," ("kind=" +:+ k +:+ ",resource=" +:+ r)).
    rewrite <- (string_app_assoc "version=" v).
    rewrite (Split_first ("version=" +:+ v)) by (by apply Contains_literal_app).
    change ("kind=" +:+ k +:+ ",resource=" +:+ r)
      with ("kind=" +:+ k +:+ String "," ("resource=" +:+ r)).
    rewrite <- (string_app_assoc "kind=" k).
    rewrite (Split_first ("kind=" +:+ k)) by (by apply Contains_literal_app).
    rewrite (Split_no_sep ("resource=" +:+ r)) by (by apply Contains_literal_app).
    rewrite foldM_cons.
    rewrite (ParseControllerTag_elem_key _ _ "group" g eq_refl Hg2).
    change (String.eqb "group" "group") with true. cbv beta iota.
    rewrite foldM_cons.
    rewrite (ParseControllerTag_elem_key _ _ "version" v eq_refl Hv2).
    change (String.eqb "version" "group") with false.
    change (String.eqb "version" "version") with true. cbv beta iota.
    rewrite foldM_cons.
    rewrite (ParseControllerTag_elem_key _ _ "kind" k eq_refl Hk2).
    change (String.eqb "kind" "group") with false.
    change (String.eqb "kind" "version") with false.
    change (String.eqb "kind" "kind") with true. cbv beta iota.
    rewrite foldM_cons.
    rewrite (ParseControllerTag_elem_key _ _ "resource" r eq_refl Hr2).
    reflexivity.
Qed.

Lemma parse_written_tag_witness :
  ParseResourceTag "path=widgets,rest=WidgetREST,strategy=core.WidgetStrategy"
  = Ok (ResourceTags.mk "widgets" "WidgetREST" "core.WidgetStrategy").
Proof.
  apply (proj1 parse_written_tag
           (ResourceTags.mk "widgets" "WidgetREST" "core.WidgetStrategy"));
    split; reflexivity.
Defined.

Lemma Split_last_sep a d :
  strings.Split (a +:+ String d "") (String d "")
  = strings.Split a (String d "") ++ [""].
Proof.
  unfold strings.Split. induction a as [|c a IH].
  - rewrite string_app_nil_l. simpl. by rewrite Ascii.eqb_refl.
  - rewrite string_app_cons. simpl. destruct (Ascii.eqb d c).
    + by rewrite IH.
    + rewrite IH. pose proof (split_scan_nonempty (String d "") 0 a) as Hne.
      by destruct (strings.split_scan (String d "") 0 a).
Qed.

Lemma Split_leading_sep a d :
  strings.Split (String d a) (String d "") = "" :: strings.Split a (String d "").
Proof. unfold strings.Split. simpl. by rewrite Ascii.eqb_refl. Qed.

Lemma empty_element_ill_formed tag :
  "" ∈ strings.Split tag "," → well_formed tag = false.
Proof.
  intros Hin. destruct (well_formed tag) eqn:Hw; [|done].
  by pose proof (well_formed_elem tag "" Hw Hin).
Qed.

(** X15. An empty element makes a tag malformed: the empty tag, a tag that
    ends with a comma and a tag that begins with one are fatal in each of the
    three parsers. *)
Theorem empty_element_is_fatal (c : APIResource.t) (tag : string) :
  ∀ bad, bad ∈ [""; tag +:+ ","; "," +:+ tag] →
    ParseResourceTag bad = Err (Fatal (malformed_resource bad)) ∧
    ParseControllerTag bad = Err (Fatal (malformed_controller bad)) ∧
    ParseSubresourceTag c bad = Err (Fatal (malformed_subresource bad)).
Proof.
  intros bad Hbad.
  assert (well_formed bad = false) as Hw.
  { apply empty_element_ill_formed. set_unfold in Hbad.
    destruct Hbad as [->|[->|[->|[]]]].
    - by left.
    - change (tag +:+ ",") with (tag +:+ String "," "").
      rewrite Split_last_sep. apply elem_of_app. right. by left.
    - change ("," +:+ tag) with (String "," tag).
      rewrite Split_leading_sep. by left. }
  apply ill_formed_elem in Hw as (x & Hx & Hn).
  split_and!; apply foldM_fails.
  - intros s y _. destruct (two_parts y) eqn:Ey.
    + left. by apply ParseResourceTag_elem_ok.
    + right. by apply ParseResourceTag_elem_err.
  - exists x. split; [done|]. intros s. by apply ParseResourceTag_elem_err.
  - intros s y _. destruct (two_parts y) eqn:Ey.
    + left. by apply ParseControllerTag_elem_ok.
    + right. by apply ParseControllerTag_elem_err.
  - exists x. split; [done|]. intros s. by apply ParseControllerTag_elem_err.
  - intros s y _. destruct (two_parts y) eqn:Ey.
    + left. by apply ParseSubresourceTag_elem_ok.
    + right. by apply ParseSubresourceTag_elem_err.
  - exists x. split; [done|]. intros s. by apply ParseSubresourceTag_elem_err.
Qed.

Lemma empty_element_is_fatal_witness :
  ParseResourceTag "path=widgets,"
  = Err (Fatal (malformed_resource "path=widgets,")).
Proof.
  apply (empty_element_is_fatal (example.resource "widgets") "path=widgets"
           "path=widgets,").
  right. left.
Defined.

(** X16. [GetNameAndImport] needs the guard of its caller: on a request kind
    without a "." the slice [RequestKind[:last]] is out of range and the call
    panics; on a request kind with a "." it returns the base name of what
    precedes the last ".", a "." and what follows it, together with what
    precedes the last "." as the import package. [new_subresource] calls it
    only in the second case. *)
Theorem GetNameAndImport_guard (tags : SubresourceTags.t) :
  (strings.Contains (SubresourceTags.RequestKind tags) "." = false →
   GetNameAndImport tags = Err (Panic "slice bounds out of range")) ∧
  (strings.Contains (SubresourceTags.RequestKind tags) "." = true →
   ∃ imp bare,
     SubresourceTags.RequestKind tags = imp +:+ "." +:+ bare ∧
     strings.Contains bare "." = false ∧
     GetNameAndImport tags = Ok (filepath.Base imp +:+ "." +:+ bare, imp)).
Proof.
  split.
  - intros Hc. unfold GetNameAndImport, strings.LastIndex.
    by rewrite (LastIndex_from_none 0 _ "." Hc).
  - intros (imp & bare & Hr & Hb)%last_dot. exists imp, bare.
    split_and!; try done. by apply GetNameAndImport_last_dot.
Qed.

Lemma GetNameAndImport_guard_witness :
  GetNameAndImport (SubresourceTags.mk "scale" "" "ScaleRequest" "ScaleREST")
  = Err (Panic "slice bounds out of range") ∧
  ∃ imp bare,
    "k8s.io/api/autoscaling/v1.Scale" = imp +:+ "." +:+ bare ∧
    strings.Contains bare "." = false ∧
    GetNameAndImport
      (SubresourceTags.mk "scale" "" "k8s.io/api/autoscaling/v1.Scale" "R")
    = Ok (filepath.Base imp +:+ "." +:+ bare, imp).
Proof.
  split.
  - exact (proj1 (GetNameAndImport_guard
                    (SubresourceTags.mk "scale" "" "ScaleRequest" "ScaleREST"))
             eq_refl).
  - exact (proj2 (GetNameAndImport_guard
                    (SubresourceTags.mk "scale" "" "k8s.io/api/autoscaling/v1.Scale" "R"))
             eq_refl).
Defined.

(** ** The declaration indexer: the resources and the subresource types *)

Lemma foldM_ext {S A : Type} (f g : S → A → result S) (l : list A) (s : S) :
  (∀ s x, f s x = g s x) → foldM f l s = foldM g l s.
Proof.
  intros Hfg. revert s. induction l as [|x l IH]; intros s; [done|].
  rewrite !foldM_cons, Hfg. by destruct (g s x).
Qed.

Lemma ParseSubresourceTag_ext c c' tag :
  APIResource.Resource c = APIResource.Resource c' →
  ParseSubresourceTag c tag = ParseSubresourceTag c' tag.
Proof.
  intros Hr. unfold ParseSubresourceTag. apply foldM_ext. intros s x.
  unfold ParseSubresourceTag_elem. by rewrite Hr.
Qed.

Lemma new_subresource_ext b b' c c' d :
  APIsBuilder.Domain b = APIsBuilder.Domain b' →
  APIResource.Group c = APIResource.Group c' →
  APIResource.Version c = APIResource.Version c' →
  APIResource.Resource c = APIResource.Resource c' →
  new_subresource b c d = new_subresource b' c' d.
Proof.
  intros Hd Hg Hv Hr. unfold new_subresource.
  by rewrite (ParseSubresourceTag_ext c c' d Hr), Hd, Hg, Hv, Hr.
Qed.

Section IndexEntries.
Context `{Classifier}.

Lemma GetSubresources_ext b b' c c' :
APIsBuilder.context b = APIsBuilder.context b' →
APIsBuilder.Domain b = APIsBuilder.Domain b' →
APIResource.Type_ c = APIResource.Type_ c' →
APIResource.Group c = APIResource.Group c' →
APIResource.Version c = APIResource.Version c' →
APIResource.Resource c = APIResource.Resource c' →
GetSubresources b c = GetSubresources b' c'.
Proof.
intros Hc Hd Ht Hg Hv Hr. unfold GetSubresources. rewrite Hc, Ht.
destruct (deref _ _) as [t|]; [|done]. rewrite !bind_unfold.
destruct (GetSubresourceTags t) as [|d l]; [done|].
apply foldM_ext. intros s x. unfold GetSubresources_step.
by rewrite (new_subresource_ext b b' c c' x Hd Hg Hv Hr).
Qed.

(** The resource that the indexing of an API resource puts in the store. *)
Lemma ParseIndex_resource_built b0 b c t b' :
APIsBuilder.context b = APIsBuilder.context b0 →
APIsBuilder.Domain b = APIsBuilder.Domain b0 →
ParseIndex_resource b c t = Ok b' →
∃ r, APIsBuilder.resources b' = APIsBuilder.resources b ++ [r] ∧
     APIResource.Type_ r = c ∧ resource_of b0 t r.
Proof.
intros Hctx Hdom. unfold ParseIndex_resource. intros Hstep.
destruct (GetResourceTag t) as [tag|] eqn:Htag; [|done].
rewrite bind_unfold in Hstep.
destruct (ParseResourceTag tag) as [rt|] eqn:Hrt; [|done].
rewrite bind_unfold in Hstep. cbv zeta in Hstep.
destruct (new_resource_fields b c t rt) as (Hg & Hv & Hk & Hty).
cbv zeta in Hg, Hv, Hk, Hty.
assert (APIResource.Domain (new_resource b c t rt) = APIsBuilder.Domain b ∧
        APIResource.Resource (new_resource b c t rt)
        = ResourceTags.Resource rt ∧
        APIResource.REST (new_resource b c t rt) = ResourceTags.REST rt ∧
        APIResource.NonNamespaced (new_resource b c t rt) = IsNonNamespaced t ∧
        APIResource.Subresources (new_resource b c t rt) = ∅)
  as (Hd & Hres & Hrest & Hns & Hsub) by done.
set (r := new_resource b c t rt) in *.
rewrite Hg, Hv, Hk in Hstep.
destruct (index_assign (A := ResourceRef) (GetGroup t) (GetKind t (GetGroup t))
            (GetVersion t (GetGroup t)) (length (APIsBuilder.resources b))
            (APIsBuilder.ByGroupKindVersion b))
  as (gkv2 & gkv & Hgkv2 & Hgkv' & _).
destruct (index_assign (A := ResourceRef) (GetGroup t)
            (GetVersion t (GetGroup t))
            (GetKind t (GetGroup t)) (length (APIsBuilder.resources b))
            (APIsBuilder.ByGroupVersionKind b))
  as (gvk2 & gvk & Hgvk2 & Hgvk' & _).
rewrite Hgkv2, bind_unfold, Hgvk2, bind_unfold, Hgkv', bind_unfold,
  Hgvk', bind_unfold in Hstep.
destruct (HasSubresource t) eqn:Hhas; simpl negb in Hstep; cbv iota in Hstep.
- match type of Hstep with
  | (?m ≫= _) = _ => destruct m as [subs|] eqn:Hsubs; [|done]
  end.
  rewrite bind_unfold in Hstep. injection Hstep as <-. simpl.
  exists (APIResource.with_Subresources subs r). split_and!.
  + replace (length (APIsBuilder.resources b))
      with (length (APIsBuilder.resources b) + 0)%nat by lia.
    by rewrite insert_app_r.
  + done.
  + exists tag, rt. rewrite Hhas. simpl. split_and!; try done; try congruence.
    rewrite <- Hsubs. by apply GetSubresources_ext.
- injection Hstep as <-. simpl. exists r. split_and!; try done.
  exists tag, rt. rewrite Hhas. split_and!; try done; congruence.
Qed.

Lemma ParseIndex_step_built b0 b c b' :
APIsBuilder.context b = APIsBuilder.context b0 →
APIsBuilder.Domain b = APIsBuilder.Domain b0 →
ParseIndex_step b c = Ok b' →
∃ t, deref (APIsBuilder.context b) c = Ok t ∧
     (IsAPIResource t = true →
      ∃ r, APIsBuilder.resources b' = APIsBuilder.resources b ++ [r] ∧
           APIResource.Type_ r = c ∧ resource_of b0 t r).
Proof.
intros Hctx Hdom. unfold ParseIndex_step. intros Hstep.
destruct (deref (APIsBuilder.context b) c) as [t|] eqn:Ht; [|done].
rewrite bind_unfold in Hstep.
destruct (ParseIndex_subresource_spec b c t)
  as (b1 & Hb1 & Hctx1 & Hdom1 & _ & _ & Hres).
rewrite Hb1, bind_unfold in Hstep. exists t. split; [done|].
intros Hapi. rewrite Hapi in Hstep. simpl negb in Hstep. cbv iota in Hstep.
rewrite <- Hres.
apply (ParseIndex_resource_built b0 b1 c t b'); congruence.
Qed.

(** The entries of the index agree with the resources they point to. *)
Lemma ParseIndex_step_keyed b0 b c b' :
APIsBuilder.context b = APIsBuilder.context b0 →
APIsBuilder.Domain b = APIsBuilder.Domain b0 →
(∀ g v k p,
   lookup3 (APIsBuilder.ByGroupVersionKind b) g v k = Some p →
   ∃ r t, APIsBuilder.resources b !! p = Some r ∧
          deref (APIsBuilder.context b0) (APIResource.Type_ r) = Ok t ∧
          IsAPIResource t = true ∧ resource_of b0 t r ∧
          APIResource.Group r = g ∧ APIResource.Version r = v ∧
          APIResource.Kind r = k) →
ParseIndex_step b c = Ok b' →
(∀ g v k p,
   lookup3 (APIsBuilder.ByGroupVersionKind b') g v k = Some p →
   ∃ r t, APIsBuilder.resources b' !! p = Some r ∧
          deref (APIsBuilder.context b0) (APIResource.Type_ r) = Ok t ∧
          IsAPIResource t = true ∧ resource_of b0 t r ∧
          APIResource.Group r = g ∧ APIResource.Version r = v ∧
          APIResource.Kind r = k).
Proof.
intros Hctx Hdom Hb Hstep g v k p.
destruct (ParseIndex_step_built b0 _ _ _ Hctx Hdom Hstep) as (t & Ht & Hbuilt).
destruct (ParseIndex_step_inv _ _ _ Hstep)
  as (t' & Ht' & _ & _ &
      [(_ & _ & Hv & Hr)|(Hapi & r' & _ & _ & Hr' & _ & Hv)]);
  rewrite Ht in Ht'; injection Ht' as <-.
- rewrite Hv, Hr. apply Hb.
- destruct (Hbuilt Hapi) as (r & Hr & Hty & Hof).
  rewrite Hv, Hr. case_decide as Hd.
  + destruct Hd as (<- & <- & <-). intros [= <-]. exists r, t.
    rewrite Hty, <- Hctx.
    pose proof Hof as (tag & rt & _ & _ & _ & Hg & Hvv & Hk & _).
    split_and!; [by rewrite list_lookup_middle|done..].
  + intros (r0 & t0 & Hr0 & Hrest)%Hb. exists r0, t0.
    split; [by apply lookup_app_l_Some|done].
Qed.

End IndexEntries.

Section IndexEntriesTheorems.
Context `{Classifier}.

(** X17. After [ParseIndex], the entry of the index at group [g], version
  [v] and kind [k] points to a resource with that group, version and kind,
  built from a declaration that is an API resource: it has the domain of
  the builder, the resource and REST names of the parsed [+resource] tag, the
  non-namespaced flag of the classifier, and the subresources of
  [GetSubresources] when the declaration has subresources, none otherwise. *)
Theorem ParseIndex_entries (b b' : APIsBuilder.t) :
ParseIndex b = Ok b' →
APIsBuilder.context b' = APIsBuilder.context b ∧
APIsBuilder.Domain b' = APIsBuilder.Domain b ∧
∀ g v k p,
  lookup3 (APIsBuilder.ByGroupVersionKind b') g v k = Some p →
  ∃ r t, resource_at b' p = Some r ∧
         deref (APIsBuilder.context b) (APIResource.Type_ r) = Ok t ∧
         IsAPIResource t = true ∧ resource_of b t r ∧
         APIResource.Group r = g ∧ APIResource.Version r = v ∧
         APIResource.Kind r = k.
Proof.
unfold ParseIndex. intros Hf.
pose (P := λ bi : APIsBuilder.t,
        APIsBuilder.context bi = APIsBuilder.context b ∧
        APIsBuilder.Domain bi = APIsBuilder.Domain b ∧
        ∀ g v k p,
          lookup3 (APIsBuilder.ByGroupVersionKind bi) g v k = Some p →
          ∃ r t, APIsBuilder.resources bi !! p = Some r ∧
                 deref (APIsBuilder.context b) (APIResource.Type_ r) = Ok t ∧
                 IsAPIResource t = true ∧ resource_of b t r ∧
                 APIResource.Group r = g ∧ APIResource.Version r = v ∧
                 APIResource.Kind r = k).
assert (P b') as HP; [|exact HP].
eapply (foldM_inv P); [| |exact Hf]; unfold P.
- intros bi c bi' _ (Hctx & Hdom & Hkeyed) Hstep.
  destruct (ParseIndex_step_inv _ _ _ Hstep) as (t & _ & Hctx' & Hdom' & _).
  split_and!; [congruence..|].
  by eapply ParseIndex_step_keyed.
- simpl. split_and!; done.
Qed.

Lemma ParseIndex_subresource_lookup b c t :
∃ b1,
  ParseIndex_subresource b c t = Ok b1 ∧
  ∀ g v k,
    lookup3 (APIsBuilder.SubByGroupVersionKind b1) g v k
    = if declares_subresource t g v k then Some c
      else lookup3 (APIsBuilder.SubByGroupVersionKind b) g v k.
Proof.
unfold ParseIndex_subresource, declares_subresource.
destruct (IsAPISubresource t); [|by exists b].
cbv zeta.
destruct (index_assign (A := types.TypeRef) (GetGroup t)
            (GetVersion t (GetGroup t))
            (GetKind t (GetGroup t)) c (APIsBuilder.SubByGroupVersionKind b))
  as (m2 & m' & -> & Hm' & Hl).
rewrite bind_unfold, Hm', bind_unfold. eexists. split; [done|].
intros g v k. simpl. rewrite Hl.
destruct (String.eqb_spec (GetGroup t) g) as [<-|Hg];
  [|rewrite decide_False; [done|tauto]].
destruct (String.eqb_spec (GetVersion t (GetGroup t)) v) as [<-|Hv];
  [|rewrite decide_False; [done|tauto]].
destruct (String.eqb_spec (GetKind t (GetGroup t)) k) as [<-|Hk];
  [|rewrite decide_False; [done|tauto]].
by rewrite decide_True.
Qed.

Lemma ParseIndex_resource_subresource_types b c t b' :
ParseIndex_resource b c t = Ok b' →
APIsBuilder.SubByGroupVersionKind b' = APIsBuilder.SubByGroupVersionKind b.
Proof.
unfold ParseIndex_resource. intros Hstep.
destruct (GetResourceTag t) as [tag|]; [|done].
rewrite bind_unfold in Hstep.
destruct (ParseResourceTag tag) as [rt|]; [|done].
rewrite bind_unfold in Hstep. cbv zeta in Hstep.
repeat match type of Hstep with
       | (?m ≫= _) = _ => destruct m; [|done]; rewrite bind_unfold in Hstep
       end.
destruct (negb (HasSubresource t)).
- by injection Hstep as <-.
- match type of Hstep with
  | (?m ≫= _) = _ => destruct m; [|done]; rewrite bind_unfold in Hstep
  end.
  by injection Hstep as <-.
Qed.

Lemma ParseIndex_step_subresource_types b c b' :
ParseIndex_step b c = Ok b' →
∃ t, deref (APIsBuilder.context b) c = Ok t ∧
     APIsBuilder.context b' = APIsBuilder.context b ∧
     ∀ g v k,
       lookup3 (APIsBuilder.SubByGroupVersionKind b') g v k
       = if declares_subresource t g v k then Some c
         else lookup3 (APIsBuilder.SubByGroupVersionKind b) g v k.
Proof.
intros Hstep.
destruct (ParseIndex_step_inv _ _ _ Hstep) as (t & Ht & Hctx & _).
exists t. split_and!; try done.
unfold ParseIndex_step in Hstep. rewrite Ht, bind_unfold in Hstep.
destruct (ParseIndex_subresource_lookup b c t) as (b1 & Hb1 & Hl).
rewrite Hb1, bind_unfold in Hstep.
destruct (negb (IsAPIResource t)).
- by injection Hstep as <-.
- by rewrite (ParseIndex_resource_subresource_types _ _ _ _ Hstep).
Qed.

(** X18. After [ParseIndex], the index of subresource types holds, for every
  group, version and kind, the last declaration of the universe that is a
  subresource type of that group, version and kind, and nothing for the
  triples that no subresource type declares. *)
Theorem ParseIndex_subresource_types (b b' : APIsBuilder.t) :
ParseIndex b = Ok b' →
∀ g v k,
  lookup3 (APIsBuilder.SubByGroupVersionKind b') g v k
  = last_subresource_type (APIsBuilder.context b)
      (generator.Context.Order (APIsBuilder.context b)) g v k.
Proof.
unfold ParseIndex. intros Hf g v k.
assert (∀ l b1 b2,
          foldM ParseIndex_step l b1 = Ok b2 →
          lookup3 (APIsBuilder.SubByGroupVersionKind b2) g v k
          = match last_subresource_type (APIsBuilder.context b1) l g v k with
            | Some c => Some c
            | None => lookup3 (APIsBuilder.SubByGroupVersionKind b1) g v k
            end) as Hloop.
{ induction l as [|c l IH]; intros b1 b2 Hl.
  - by injection Hl as <-.
  - rewrite foldM_cons in Hl.
    destruct (ParseIndex_step b1 c) as [b1'|] eqn:Hstep; [|done].
    destruct (ParseIndex_step_subresource_types _ _ _ Hstep)
      as (t & Ht & Hctx & Hlk).
    rewrite (IH _ _ Hl), Hctx. simpl last_subresource_type.
    destruct (last_subresource_type (APIsBuilder.context b1) l g v k); [done|].
    rewrite Hlk. apply deref_lookup in Ht. rewrite Ht.
    by destruct (declares_subresource t g v k). }
rewrite (Hloop _ _ _ Hf). simpl.
by destruct (last_subresource_type _ _ g v k).
Qed.

End IndexEntriesTheorems.

Lemma ParseIndex_entries_witness :
  ∃ b' p, ParseIndex (H := example.classifier) (example.builder [0; 1; 5]%nat)
          = Ok b' ∧
          lookup3 (APIsBuilder.ByGroupVersionKind b') "core" "v1" "Widget"
          = Some p ∧
          ∃ r, resource_at b' p = Some r ∧ APIResource.Kind r = "Widget".
Proof.
  assert (∃ b' p, ParseIndex (H := example.classifier)
                    (example.builder [0; 1; 5]%nat) = Ok b' ∧
                  lookup3 (APIsBuilder.ByGroupVersionKind b') "core" "v1" "Widget"
                  = Some p) as (b' & p & Hb' & Hp)
    by (eexists _, _; split; vm_compute; reflexivity).
  exists b', p. split; [exact Hb'|]. split; [exact Hp|].
  destruct (proj2 (proj2 (ParseIndex_entries (H := example.classifier) _ b' Hb'))
              "core" "v1" "Widget" p Hp) as (r & t & Hr & _ & _ & _ & _ & _ & Hk).
  exists r. split; [exact Hr|exact Hk].
Defined.

Lemma ParseIndex_subresource_types_witness :
  ∃ b', ParseIndex (H := example.classifier) example_requests_builder = Ok b' ∧
        lookup3 (APIsBuilder.SubByGroupVersionKind b') "core" "v1" "ScaleRequest"
        = Some 1%nat ∧
        lookup3 (APIsBuilder.SubByGroupVersionKind b') "core" "v1" "Widget"
        = None.
Proof.
  assert (∃ b', ParseIndex (H := example.classifier) example_requests_builder
                = Ok b') as [b' Hb']
    by (eexists; vm_compute; reflexivity).
  exists b'. split; [exact Hb'|]. split.
  - exact (ParseIndex_subresource_types (H := example.classifier) _ b' Hb'
             "core" "v1" "ScaleRequest").
  - exact (ParseIndex_subresource_types (H := example.classifier) _ b' Hb'
             "core" "v1" "Widget").
Defined.

(** ** When the indexer succeeds *)

Lemma ParseResourceTag_well_formed tag rt :
  ParseResourceTag tag = Ok rt → well_formed tag = true.
Proof.
  intros Hp. destruct (well_formed tag) eqn:Hw; [done|].
  apply ill_formed_elem in Hw as (x & Hx & Hn).
  unfold ParseResourceTag in Hp.
  rewrite (foldM_fails _ (Fatal (malformed_resource tag))) in Hp; [done|..].
  - intros s y _. destruct (two_parts y) eqn:Ey.
    + left. by apply ParseResourceTag_elem_ok.
    + right. by apply ParseResourceTag_elem_err.
  - exists x. split; [done|]. intros s. by apply ParseResourceTag_elem_err.
Qed.

Lemma len_0 s : (strings.len s =? 0) = true ↔ s = "".
Proof.
  unfold strings.len. destruct s; [done|].
  split; [|done]. intros ?%Z.eqb_eq. simpl String.length in *. lia.
Qed.

(** A loop whose turns keep an invariant, and succeed from the states of the
    invariant exactly on the elements of [Q], succeeds exactly on the lists
    of elements of [Q]. *)
Lemma foldM_ok_iff {S A : Type} (I : S → Prop) (Q : A → Prop)
  (f : S → A → result S) (l : list A) (s : S) :
  (∀ s x s', I s → f s x = Ok s' → I s') →
  (∀ s x, I s → (is_Ok (f s x) ↔ Q x)) →
  I s → (is_Ok (foldM f l s) ↔ Forall Q l).
Proof.
  intros Hkeep Hok. revert s. induction l as [|x l IH]; intros s Hs.
  - split; [by constructor|]. intros _. by exists s.
  - rewrite foldM_cons, Forall_cons. destruct (f s x) as [s1|e] eqn:E.
    + rewrite (IH s1) by (by eapply Hkeep). rewrite <- (Hok s x Hs), E.
      split; [intros ?; split; [by eexists|done]|by intros [_ ?]].
    + split; [by intros [? ?]|]. intros [[s1 Hq]%(Hok s x Hs) _]. congruence.
Qed.

Section IndexSuccess.
Context `{Classifier}.

Lemma ParseIndex_resource_ok_iff b0 b c t :
APIsBuilder.context b = APIsBuilder.context b0 →
APIsBuilder.Domain b = APIsBuilder.Domain b0 →
deref (APIsBuilder.context b0) c = Ok t →
is_Ok (ParseIndex_resource b c t) ↔
GetTag (types.Type_.CommentLines t) "resource" ":" ≠ "" ∧
well_formed (GetTag (types.Type_.CommentLines t) "resource" ":") = true ∧
(HasSubresource t = true →
 ∃ rt, ParseResourceTag (GetTag (types.Type_.CommentLines t) "resource" ":")
       = Ok rt ∧
       Forall (λ d, well_formed d = true) (GetSubresourceTags t) ∧
       NoDup (resolved_path b0 (new_resource b0 c t rt)
                <$> GetSubresourceTags t)).
Proof.
intros Hctx Hdom Ht. unfold ParseIndex_resource, GetResourceTag. cbv zeta.
destruct (strings.len (GetTag (types.Type_.CommentLines t) "resource" ":") =? 0)
  eqn:Hlen.
{ apply len_0 in Hlen. rewrite bind_unfold.
  split; [by intros [? ?]|]. by intros [? _]. }
assert (GetTag (types.Type_.CommentLines t) "resource" ":" ≠ "") as Hne.
{ intros He. apply len_0 in He. congruence. }
rewrite bind_unfold.
set (tag := GetTag (types.Type_.CommentLines t) "resource" ":") in *.
destruct (ParseResourceTag tag) as [rt|e] eqn:Hrt.
2:{ rewrite bind_unfold. split; [by intros [? ?]|].
    intros (_ & [rt' Hrt']%ParseResourceTag_ok & _). congruence. }
pose proof (ParseResourceTag_well_formed _ _ Hrt) as Hwf.
rewrite bind_unfold.
destruct (new_resource_fields b c t rt) as (Hg & Hv & Hk & Hty).
cbv zeta in Hg, Hv, Hk, Hty.
rewrite (new_resource_Domain b0 b c t rt Hdom) in *.
set (r := new_resource b0 c t rt) in *.
rewrite Hg, Hv, Hk.
destruct (index_assign (A := ResourceRef) (GetGroup t) (GetKind t (GetGroup t))
            (GetVersion t (GetGroup t)) (length (APIsBuilder.resources b))
            (APIsBuilder.ByGroupKindVersion b))
  as (gkv2 & gkv & Hgkv2 & Hgkv' & _).
destruct (index_assign (A := ResourceRef) (GetGroup t)
            (GetVersion t (GetGroup t))
            (GetKind t (GetGroup t)) (length (APIsBuilder.resources b))
            (APIsBuilder.ByGroupVersionKind b))
  as (gvk2 & gvk & Hgvk2 & Hgvk' & _).
rewrite Hgkv2, bind_unfold, Hgvk2, bind_unfold, Hgkv', bind_unfold,
  Hgvk', bind_unfold.
destruct (HasSubresource t); simpl negb; cbv iota.
2:{ split; [intros _; split_and!; done|]. intros _. by eexists. }
set (b1 := APIsBuilder.mk _ _ gkv gvk _ _).
assert (deref (APIsBuilder.context b1) (APIResource.Type_ r) = Ok t) as Ht1.
{ rewrite Hty. simpl. by rewrite Hctx. }
pose proof (GetSubresources_ok_iff b1 r t Ht1) as Hiff.
assert (resolved_path b1 r <$> GetSubresourceTags t
        = resolved_path b0 r <$> GetSubresourceTags t) as Hpaths.
{ apply list_fmap_ext. intros i d _. unfold resolved_path.
  by rewrite (new_subresource_ext b1 b0 r r d Hdom). }
rewrite Hpaths in Hiff.
split.
- intros Hok. split_and!; try done. intros _. exists rt. split; [done|].
  apply Hiff. destruct (GetSubresources b1 r) as [subs|e]; [by eexists|].
  rewrite bind_unfold in Hok. by destruct Hok.
- intros (_ & _ & Hsub). destruct (Hsub eq_refl) as (rt' & Hrt' & Hall & Hnd).
  assert (rt' = rt) as -> by congruence.
  destruct (proj2 Hiff (conj Hall Hnd)) as [subs ->].
  rewrite bind_unfold. by eexists.
Qed.

Lemma ParseIndex_step_ok_iff b0 b c :
APIsBuilder.context b = APIsBuilder.context b0 →
APIsBuilder.Domain b = APIsBuilder.Domain b0 →
is_Ok (ParseIndex_step b c) ↔ indexable b0 c.
Proof.
intros Hctx Hdom. unfold ParseIndex_step, indexable. rewrite Hctx.
destruct (deref (APIsBuilder.context b0) c) as [t|e] eqn:Ht.
2:{ rewrite bind_unfold. split; [by intros [? ?]|]. by intros (t & ? & _). }
rewrite bind_unfold.
destruct (ParseIndex_subresource_spec b c t)
  as (b1 & -> & Hctx1 & Hdom1 & _).
rewrite bind_unfold.
assert (APIsBuilder.context b1 = APIsBuilder.context b0) as Hc by congruence.
assert (APIsBuilder.Domain b1 = APIsBuilder.Domain b0) as Hd by congruence.
destruct (IsAPIResource t) eqn:Hres; simpl negb; cbv iota.
- rewrite (ParseIndex_resource_ok_iff b0 b1 c t Hc Hd Ht). split.
  + intros Hall. exists t. by split.
  + intros (t' & Ht' & Hall). assert (t' = t) as -> by congruence.
    by apply Hall.
- split; [|intros _; by eexists]. intros _. exists t. split; [done|]. congruence.
Qed.

(** X19. [ParseIndex] returns a builder exactly when every declaration of the
  universe can be indexed: its pointer points to a declaration and, when this
  is an API resource, its [+resource] tag is not empty and is well-formed,
  and, when it has subresources, its subresource directives are well-formed
  and resolve to different paths. *)
Theorem ParseIndex_succeeds_iff (b : APIsBuilder.t) :
is_Ok (ParseIndex b) ↔
Forall (indexable b) (generator.Context.Order (APIsBuilder.context b)).
Proof.
unfold ParseIndex.
apply (foldM_ok_iff
         (λ bi, APIsBuilder.context bi = APIsBuilder.context b ∧
                APIsBuilder.Domain bi = APIsBuilder.Domain b)).
- intros bi c bi' [Hctx Hdom] Hstep.
  destruct (ParseIndex_step_inv _ _ _ Hstep) as (t & _ & Hctx' & Hdom' & _).
  split; congruence.
- intros bi c [Hctx Hdom]. by apply ParseIndex_step_ok_iff.
- done.
Qed.

End IndexSuccess.

(** ** The package scanner *)

Lemma Clean_nonempty p : path.Clean p ≠ "".
Proof.
  unfold path.Clean. cbv zeta.
  match goal with |- (if String.eqb ?o "" then _ else _) ≠ _ =>
    destruct (String.eqb_spec o "") end; done.
Qed.

Lemma filepath_Dir_nonempty p : filepath_Dir p ≠ "".
Proof. apply Clean_nonempty. Qed.

Lemma len_pos s : (0 <? strings.len s) = false ↔ s = "".
Proof.
  unfold strings.len. destruct s; [done|].
  split; [|done]. intros ?%Z.ltb_ge. simpl String.length in *. lia.
Qed.

Section PackageFacts.
Context `{Classifier}.
Variable ctx : generator.Context.t.

(** What a turn of [ParsePackages] that does not fail has done. *)
Lemma ParsePackages_step_inv s c s1 :
ParsePackages_step ctx s c = Ok s1 →
∃ t, deref ctx c = Ok t ∧
  ((IsAPIResource t = false ∧ s1 = s) ∨
   (IsAPIResource t = true ∧
    (Packages.APIsPkg s = "" ∨ Packages.APIsPkg s = apis_of t) ∧
    s1 = Packages.mk
           ({[types.Name.Package (types.Type_.Name t)]}
            ∪ Packages.VersionedPkgs s)
           ({[filepath_Dir (types.Name.Package (types.Type_.Name t))]}
            ∪ Packages.UnversionedPkgs s)
           (apis_of t))).
Proof.
unfold ParsePackages_step. intros Hstep.
destruct (deref ctx c) as [t|] eqn:Ht; [|done].
rewrite bind_unfold in Hstep. exists t. split; [done|].
destruct (IsAPIResource t); [|left; split; congruence].
right. cbv zeta in Hstep. fold (apis_of t) in Hstep.
destruct (String.eqb_spec (apis_of t) (Packages.APIsPkg s)) as [He|Hne];
  simpl negb in Hstep.
- injection Hstep as <-. split_and!; auto.
- destruct (0 <? strings.len (Packages.APIsPkg s)) eqn:Hlen; [done|].
  apply len_pos in Hlen. injection Hstep as <-. split_and!; auto.
Qed.

(** A turn fails exactly at a pointer to no declaration and at an API
  resource below another root than the one held, when one is held. *)
Lemma ParsePackages_step_ok s c :
is_Ok (ParsePackages_step ctx s c) ↔
∃ t, deref ctx c = Ok t ∧
     (IsAPIResource t = true →
      Packages.APIsPkg s = "" ∨ Packages.APIsPkg s = apis_of t).
Proof.
split.
- intros [s1 Hs1]. destruct (ParsePackages_step_inv _ _ _ Hs1)
    as (t & Ht & [[Hres _]|(_ & Hroot & _)]); exists t; split; try done.
  congruence.
- intros (t & Ht & Hroot). unfold ParsePackages_step.
  rewrite Ht, bind_unfold. destruct (IsAPIResource t); [|by eexists].
  cbv zeta. fold (apis_of t).
  destruct (Hroot eq_refl) as [He|He]; rewrite He.
  + rewrite andb_false_r. by eexists.
  + rewrite String.eqb_refl. by eexists.
Qed.

Lemma ParsePackages_loop l s s' :
foldM (ParsePackages_step ctx) l s = Ok s' →
(∀ p, p ∈ Packages.VersionedPkgs s' ↔
      p ∈ Packages.VersionedPkgs s ∨
      ∃ c t, c ∈ l ∧ deref ctx c = Ok t ∧ IsAPIResource t = true ∧
             types.Name.Package (types.Type_.Name t) = p) ∧
(∀ p, p ∈ Packages.UnversionedPkgs s' ↔
      p ∈ Packages.UnversionedPkgs s ∨
      ∃ c t, c ∈ l ∧ deref ctx c = Ok t ∧ IsAPIResource t = true ∧
             filepath_Dir (types.Name.Package (types.Type_.Name t)) = p) ∧
(∀ c t, c ∈ l → deref ctx c = Ok t → IsAPIResource t = true →
        apis_of t = Packages.APIsPkg s') ∧
((∀ c t, c ∈ l → deref ctx c = Ok t → IsAPIResource t = false) →
 Packages.APIsPkg s' = Packages.APIsPkg s) ∧
(Packages.APIsPkg s ≠ "" → Packages.APIsPkg s' = Packages.APIsPkg s).
Proof.
revert s. induction l as [|c l IH]; intros s Hl.
- injection Hl as <-. split_and!; try done.
  + intros p. split; [by left|]. intros [?|(c & t & Hc%elem_of_nil & _)]; done.
  + intros p. split; [by left|]. intros [?|(c & t & Hc%elem_of_nil & _)]; done.
  + by intros c t ?%elem_of_nil.
- rewrite foldM_cons in Hl.
  destruct (ParsePackages_step ctx s c) as [s1|] eqn:Hstep; [|done].
  destruct (IH _ Hl) as (HV & HU & Hall & Hnone & Hkeep).
  destruct (ParsePackages_step_inv _ _ _ Hstep)
    as (t & Ht & [[Hres ->]|(Hres & Hroot & ->)]).
  + split_and!.
    * intros p. rewrite HV. split; (intros [?|(c' & t' & Hc' & ?)]; [by left|right]).
      -- exists c', t'. split; [by right|done].
      -- apply elem_of_cons in Hc' as [->|Hc']; [|by exists c', t'].
         destruct H0 as (Ht' & Hres' & _). congruence.
    * intros p. rewrite HU. split; (intros [?|(c' & t' & Hc' & ?)]; [by left|right]).
      -- exists c', t'. split; [by right|done].
      -- apply elem_of_cons in Hc' as [->|Hc']; [|by exists c', t'].
         destruct H0 as (Ht' & Hres' & _). congruence.
    * intros c' t' [->|Hc']%elem_of_cons Ht' Hres'; [congruence|by eapply Hall].
    * intros Hno. apply Hnone. intros c' t' Hc'. apply Hno. by right.
    * done.
  + simpl in HV, HU, Hnone, Hkeep.
    pose proof (Hkeep (filepath_Dir_nonempty _)) as Hroot'.
    split_and!.
    * intros p. rewrite HV, elem_of_union, elem_of_singleton. split.
      -- intros [[->|?]|(c' & t' & Hc' & ?)]; [right|by left|right].
         ++ exists c, t. split; [by left|done].
         ++ exists c', t'. split; [by right|done].
      -- intros [?|(c' & t' & Hc' & Ht' & Hres' & Hp)]; [by left; right|].
         apply elem_of_cons in Hc' as [->|Hc'].
         ++ left; left. congruence.
         ++ right. by exists c', t'.
    * intros p. rewrite HU, elem_of_union, elem_of_singleton. split.
      -- intros [[->|?]|(c' & t' & Hc' & ?)]; [right|by left|right].
         ++ exists c, t. split; [by left|done].
         ++ exists c', t'. split; [by right|done].
      -- intros [?|(c' & t' & Hc' & Ht' & Hres' & Hp)]; [by left; right|].
         apply elem_of_cons in Hc' as [->|Hc'].
         ++ left; left. congruence.
         ++ right. by exists c', t'.
    * intros c' t' [->|Hc']%elem_of_cons Ht' Hres'; [|by eapply Hall].
      assert (t' = t) as -> by congruence. by rewrite Hroot'.
    * intros Hno. specialize (Hno c t ltac:(left) Ht). congruence.
    * intros Hne. rewrite Hroot'. by destruct Hroot.
Qed.

Lemma ParsePackages_loop_ok l s :
is_Ok (foldM (ParsePackages_step ctx) l s) ↔
Forall (λ c, is_Ok (deref ctx c)) l ∧
∃ a, (Packages.APIsPkg s = "" ∨ Packages.APIsPkg s = a) ∧
     ∀ c t, c ∈ l → deref ctx c = Ok t → IsAPIResource t = true →
            apis_of t = a.
Proof.
revert s. induction l as [|c l IH]; intros s.
- split; [|intros _; by exists s]. intros _. split; [by constructor|].
  exists (Packages.APIsPkg s). split; [by right|]. by intros c t ?%elem_of_nil.
- rewrite foldM_cons, Forall_cons.
  destruct (ParsePackages_step ctx s c) as [s1|e] eqn:Hstep.
  + rewrite IH.
    destruct (ParsePackages_step_inv _ _ _ Hstep)
      as (t & Ht & [[Hres ->]|(Hres & Hroot & ->)]).
    * split.
      -- intros (Hder & a & Ha & Hall). split_and!; [by eexists|done|].
         exists a. split; [done|].
         intros c' t' [->|Hc']%elem_of_cons Ht' Hres'; [congruence|by eapply Hall].
      -- intros ((_ & Hder) & a & Ha & Hall). split; [done|].
         exists a. split; [done|]. intros c' t' Hc'. apply Hall. by right.
    * simpl. split.
      -- intros (Hder & a & [He|<-] & Hall);
           [by destruct (filepath_Dir_nonempty _ He)|].
         split_and!; [by eexists|done|]. exists (apis_of t). split; [done|].
         intros c' t' [->|Hc']%elem_of_cons Ht' Hres'; [congruence|by eapply Hall].
      -- intros ((_ & Hder) & a & Ha & Hall). split; [done|].
         exists a. split.
         ++ right. apply (Hall c t); [by left|done..].
         ++ intros c' t' Hc'. apply Hall. by right.
  + split; [by intros [? ?]|]. intros ((Hder & _) & a & Ha & Hall).
    assert (is_Ok (ParsePackages_step ctx s c)) as [s1 Hs1]; [|congruence].
    apply ParsePackages_step_ok. destruct Hder as [t Ht]. exists t.
    split; [done|]. intros Hres.
    destruct Ha as [? | ->]; [by left|right]. symmetry.
    apply (Hall c t); [by left|done..].
Qed.

End PackageFacts.

Section PackageTheorems.
Context `{Classifier}.

(** X20. When [ParsePackages] returns, the versioned packages are the
  packages of the declarations that are API resources, the unversioned
  packages are the directories of the versioned ones, and every API
  resource lies two directories below the root that is returned. *)
Theorem ParsePackages_sets (ctx : generator.Context.t) (APIsPkg : string)
(s : Packages.t) :
ParsePackages ctx APIsPkg = Ok s →
(∀ p, p ∈ Packages.VersionedPkgs s ↔
      ∃ t, declared ctx t ∧ IsAPIResource t = true ∧
           types.Name.Package (types.Type_.Name t) = p) ∧
(∀ p, p ∈ Packages.UnversionedPkgs s ↔
      ∃ v, v ∈ Packages.VersionedPkgs s ∧ p = filepath_Dir v) ∧
(∀ t, declared ctx t → IsAPIResource t = true →
      apis_of t = Packages.APIsPkg s).
Proof.
intros Hs.
destruct (ParsePackages_loop ctx _ _ _ Hs) as (HV & HU & Hall & _ & _).
simpl in HV, HU.
assert (∀ p, p ∈ Packages.VersionedPkgs s ↔
             ∃ t, declared ctx t ∧ IsAPIResource t = true ∧
                  types.Name.Package (types.Type_.Name t) = p) as HV'.
{ intros p. rewrite HV. split.
  - intros [Hp%elem_of_empty|(c & t & Hc & Ht & Hres & Hp)]; [done|].
    exists t. split; [by exists c|done].
  - intros (t & (c & Hc & Ht) & Hres & Hp). right. by exists c, t. }
split_and!; [done| |].
- intros p. rewrite HU. split.
  + intros [Hp%elem_of_empty|(c & t & Hc & Ht & Hres & Hp)]; [done|].
    exists (types.Name.Package (types.Type_.Name t)). split; [|done].
    apply HV'. exists t. split; [by exists c|done].
  + intros (v & (t & (c & Hc & Ht) & Hres & <-)%HV' & ->).
    right. by exists c, t.
- intros t (c & Hc & Ht) Hres. by eapply Hall.
Qed.

(** X21. The root that [ParsePackages] returns is the one that the builder
  held, when it held one or when no declaration is an API resource; it is
  not empty when some declaration is an API resource. *)
Theorem ParsePackages_root (ctx : generator.Context.t) (APIsPkg : string)
(s : Packages.t) :
ParsePackages ctx APIsPkg = Ok s →
(APIsPkg ≠ "" → Packages.APIsPkg s = APIsPkg) ∧
((∀ t, declared ctx t → IsAPIResource t = false) →
 Packages.APIsPkg s = APIsPkg) ∧
((∃ t, declared ctx t ∧ IsAPIResource t = true) → Packages.APIsPkg s ≠ "").
Proof.
intros Hs.
destruct (ParsePackages_loop ctx _ _ _ Hs) as (_ & _ & Hall & Hnone & Hkeep).
simpl in Hnone, Hkeep. split_and!; [done| |].
- intros Hno. apply Hnone. intros c t Hc Ht. apply Hno. by exists c.
- intros (t & (c & Hc & Ht) & Hres). rewrite <- (Hall c t Hc Ht Hres).
  apply filepath_Dir_nonempty.
Qed.

(** X22. [ParsePackages] returns exactly when the API resources all lie two
  directories below one root, which is the root that the builder holds if
  it holds one; otherwise it panics. *)
Theorem ParsePackages_succeeds_iff (ctx : generator.Context.t)
(APIsPkg : string) :
is_Ok (ParsePackages ctx APIsPkg) ↔
Forall (λ c, is_Ok (deref ctx c)) (generator.Context.Order ctx) ∧
∃ a, (APIsPkg = "" ∨ APIsPkg = a) ∧
     ∀ t, declared ctx t → IsAPIResource t = true → apis_of t = a.
Proof.
unfold ParsePackages. rewrite ParsePackages_loop_ok. simpl.
split; intros (Hder & a & Ha & Hall); (split; [done|]); exists a;
  (split; [done|]).
- intros t (c & Hc & Ht). by eapply Hall.
- intros c t Hc Ht. apply Hall. by exists c.
Qed.

End PackageTheorems.

Lemma ParsePackages_sets_witness :
  ∃ s, ParsePackages (H := example.classifier) example.ctx "" = Ok s ∧
       Packages.APIsPkg s = "example.com/apis" ∧
       "example.com/apis/core" ∈ Packages.UnversionedPkgs s.
Proof.
  assert (∃ s, ParsePackages (H := example.classifier) example.ctx "" = Ok s ∧
               Packages.APIsPkg s = "example.com/apis") as (s & Hs & Hroot)
    by (eexists; split; vm_compute; reflexivity).
  exists s. split; [exact Hs|]. split; [exact Hroot|].
  destruct (ParsePackages_sets (H := example.classifier) _ _ s Hs)
    as (HV & HU & _).
  apply HU. exists example.v1. split; [|reflexivity].
  apply HV. exists example.Widget. split; [|split; reflexivity].
  exists 0%nat. split; [|reflexivity]. apply list_elem_of_In. simpl. auto.
Defined.

Lemma ParsePackages_root_witness :
  ∃ s, ParsePackages (H := example.classifier) example.ctx "" = Ok s ∧
       Packages.APIsPkg s ≠ "".
Proof.
  assert (∃ s, ParsePackages (H := example.classifier) example.ctx "" = Ok s)
    as [s Hs] by (eexists; vm_compute; reflexivity).
  exists s. split; [exact Hs|].
  apply (ParsePackages_root (H := example.classifier) _ _ s Hs).
  exists example.Widget. split; [|reflexivity].
  exists 0%nat. split; [|reflexivity]. apply list_elem_of_In. simpl. auto.
Defined.

(** ** The group names *)

Section GroupNameFacts.
Variable universe : Universe.

Lemma ParseGroupNames_loop ps names g :
g ∈ fold_left (ParseGroupNames_step universe) ps names ↔
g ∈ names ∨ ∃ p, p ∈ ps ∧ is_Some (universe !! p) ∧ filepath.Base p = g.
Proof.
revert names. induction ps as [|p ps IH]; intros names; simpl.
- split; [by left|]. by intros [?|(p & Hp%elem_of_nil & _)].
- rewrite IH. unfold ParseGroupNames_step.
  destruct (universe !! p) as [pkg|] eqn:Hp.
  + rewrite elem_of_union, elem_of_singleton. split.
    * intros [[->|?]|(q & Hq & ?)]; [right|by left|right].
      -- exists p. split_and!; [by left|by rewrite Hp|done].
      -- exists q. split; [by right|done].
    * intros [?|(q & [->|Hq]%elem_of_cons & Hsome & Hg)];
        [by left; right|by left; left|right].
      by exists q.
  + split.
    * intros [?|(q & Hq & ?)]; [by left|right].
      exists q. split; [by right|done].
    * intros [?|(q & [->|Hq]%elem_of_cons & Hsome & Hg)]; [by left| |right].
      -- rewrite Hp in Hsome. by destruct Hsome.
      -- by exists q.
Qed.

End GroupNameFacts.

(** X23. The group names that [ParseGroupNames] collects are the base names
    of the unversioned packages that the universe holds, in whatever order
    the loop takes the packages. *)
Theorem ParseGroupNames_names (universe : Universe)
  (UnversionedPkgs : gset string) (ps : list string) :
  ps ≡ₚ elements UnversionedPkgs →
  ParseGroupNames_in universe ps = ParseGroupNames universe UnversionedPkgs ∧
  ∀ g, g ∈ ParseGroupNames universe UnversionedPkgs ↔
       ∃ p, p ∈ UnversionedPkgs ∧ is_Some (universe !! p) ∧
            filepath.Base p = g.
Proof.
  intros Hperm.
  assert (∀ l g, l ≡ₚ elements UnversionedPkgs →
            g ∈ ParseGroupNames_in universe l ↔
            ∃ p, p ∈ UnversionedPkgs ∧ is_Some (universe !! p) ∧
                 filepath.Base p = g) as Hin.
  { intros l g Hl. unfold ParseGroupNames_in. rewrite ParseGroupNames_loop.
    split.
    - intros [Hg%elem_of_empty|(p & Hp & ?)]; [done|]. exists p.
      split; [|done]. apply elem_of_elements. by rewrite <- Hl.
    - intros (p & Hp & ?). right. exists p. split; [|done].
      rewrite Hl. by apply elem_of_elements. }
  split.
  - apply set_eq. intros g. unfold ParseGroupNames.
    by rewrite (Hin ps g Hperm), (Hin (elements UnversionedPkgs) g).
  - intros g. by apply Hin.
Qed.

Lemma ParseGroupNames_names_witness :
  ParseGroupNames_in example_universe
    ["example.com/apis/core"; "example.com/apis/missing"]
  = ParseGroupNames example_universe
      {[ "example.com/apis/missing"; "example.com/apis/core" ]}.
Proof.
  apply (ParseGroupNames_names example_universe
           {[ "example.com/apis/missing"; "example.com/apis/core" ]}).
  apply NoDup_Permutation.
  - apply NoDup_cons. split; [by intros ?%list_elem_of_singleton|].
    apply NoDup_singleton.
  - apply NoDup_elements.
  - intros x.
    rewrite elem_of_elements, elem_of_union, !elem_of_singleton, elem_of_cons,
      list_elem_of_singleton.
    tauto.
Defined.

(** ** The controller scanner *)

(** The first piece of a split. *)
Lemma split_scan_head sep s :
  sep ≠ "" →
  ∃ r ps, strings.split_scan sep 0 s = r :: ps ∧
    if strings.Contains s sep
    then ∃ rest, s = r +:+ sep +:+ rest ∧
           ∀ a b, s = a +:+ sep +:+ b → (String.length r ≤ String.length a)%nat
    else r = s.
Proof.
  intros Hsep. induction s as [|c s IH].
  - exists "", []. split; [done|]. by destruct sep.
  - simpl strings.split_scan. simpl strings.Contains.
    destruct (strings.HasPrefix (String c s) sep) eqn:Hp.
    + eexists "", _. split; [done|]. simpl.
      apply HasPrefix_inv in Hp as [rest Hrest]. exists rest.
      rewrite string_app_nil_l. split; [done|]. intros; simpl; lia.
    + destruct IH as (r & ps & -> & Hr). exists (String c r), ps.
      split; [done|]. simpl orb.
      destruct (strings.Contains s sep).
      * destruct Hr as (rest & -> & Hmin). exists rest.
        split; [by rewrite string_app_cons|].
        intros a b Hab. destruct a as [|d a].
        { rewrite string_app_nil_l in Hab.
          rewrite Hab, HasPrefix_app in Hp. done. }
        rewrite string_app_cons in Hab. injection Hab as -> Hab.
        specialize (Hmin a b Hab). simpl. lia.
      * by rewrite Hr.
Qed.

Lemma Split_repo pkg :
  ∃ repo ps, strings.Split pkg "/pkg/controller" = repo :: ps ∧
             repo_of pkg repo.
Proof.
  destruct (split_scan_head "/pkg/controller" pkg ltac:(done))
    as (r & ps & Hs & Hr).
  exists r, ps. split; [exact Hs|exact Hr].
Qed.

Lemma ParseControllerTag_well_formed tag tags :
  ParseControllerTag tag = Ok tags → well_formed tag = true.
Proof.
  intros Hp. destruct (well_formed tag) eqn:Hw; [done|].
  apply ill_formed_elem in Hw as (x & Hx & Hn).
  unfold ParseControllerTag in Hp.
  rewrite (foldM_fails _ (Fatal (malformed_controller tag))) in Hp; [done|..].
  - intros s y _. destruct (two_parts y) eqn:Ey.
    + left. by apply ParseControllerTag_elem_ok.
    + right. by apply ParseControllerTag_elem_err.
  - exists x. split; [done|]. intros s. by apply ParseControllerTag_elem_err.
Qed.

Section ControllerFacts.
Context `{Classifier}.
Variable IsController : types.Type_.t → bool.
Variable ctx : generator.Context.t.
Variable universe : Universe.

Lemma GetControllerTag_ok t tag :
GetControllerTag t = Ok tag ↔
tag = GetTag (types.Type_.CommentLines t) "controller" ":" ∧ tag ≠ "".
Proof.
unfold GetControllerTag. cbv zeta.
destruct (strings.len (GetTag (types.Type_.CommentLines t) "controller" ":") =? 0)
  eqn:Hlen.
- apply len_0 in Hlen. split; [done|]. intros [-> ?]. done.
- split.
  + intros [= <-]. split; [done|]. intros He. apply len_0 in He. congruence.
  + by intros [-> _].
Qed.

(** What a turn of [ParseControllers] that does not fail has done. *)
Lemma ParseControllers_step_inv cs c cs' :
ParseControllers_step IsController ctx universe cs c = Ok cs' →
∃ t, deref ctx c = Ok t ∧
  ((IsController t = false ∧ cs' = cs) ∨
   (IsController t = true ∧
    ∃ ctl, cs' = cs ++ [ctl] ∧ controller_of universe t ctl)).
Proof.
unfold ParseControllers_step. intros Hstep.
destruct (deref ctx c) as [t|] eqn:Ht; [|done].
rewrite bind_unfold in Hstep. exists t. split; [done|].
destruct (IsController t); [right|left; split; congruence].
split; [done|].
destruct (GetControllerTag t) as [tag|] eqn:Htag; [|done].
rewrite bind_unfold in Hstep. apply GetControllerTag_ok in Htag as [-> _].
destruct (ParseControllerTag _) as [tags|] eqn:Htags; [|done].
rewrite bind_unfold in Hstep.
destruct (Split_repo (types.Name.Package (types.Type_.Name t)))
  as (repo & ps & Hsplit & Hrepo).
rewrite Hsplit in Hstep. injection Hstep as <-.
eexists. split; [done|]. exists tags. by split_and!.
Qed.

Lemma ParseControllers_step_ok cs c :
is_Ok (ParseControllers_step IsController ctx universe cs c) ↔
scannable IsController ctx c.
Proof.
unfold scannable, ParseControllers_step.
destruct (deref ctx c) as [t|] eqn:Ht.
2:{ rewrite bind_unfold. split; [by intros [? ?]|]. by intros (t & ? & _). }
rewrite bind_unfold.
destruct (IsController t) eqn:Hctl.
2:{ split; [|intros _; by eexists]. intros _. exists t. split; [done|].
    congruence. }
destruct (GetControllerTag t) as [tag|e] eqn:Htag.
- rewrite bind_unfold. pose proof Htag as [-> Hne]%GetControllerTag_ok.
  destruct (ParseControllerTag _) as [tags|e] eqn:Htags.
  + rewrite bind_unfold.
    destruct (Split_repo (types.Name.Package (types.Type_.Name t)))
      as (repo & ps & -> & _).
    split; [|intros _; by eexists]. intros _. exists t. split; [done|].
    intros _. split; [done|].
    by eapply ParseControllerTag_well_formed.
  + rewrite bind_unfold. split; [by intros [? ?]|].
    intros (t' & [= <-] & Hwf). destruct (Hwf Hctl) as [_ Hw].
    apply ParseControllerTag_ok in Hw as [tags Hw]. congruence.
- rewrite bind_unfold. split; [by intros [? ?]|].
  intros (t' & [= <-] & Hwf). destruct (Hwf Hctl) as [Hne _].
  assert (GetControllerTag t = Ok (GetTag (types.Type_.CommentLines t)
                                     "controller" ":")) as Hok
    by by apply GetControllerTag_ok.
  congruence.
Qed.

Lemma ParseControllers_loop l ts cs cs' :
Forall2 (λ c t, deref ctx c = Ok t) l ts →
foldM (ParseControllers_step IsController ctx universe) l cs = Ok cs' →
∃ new, cs' = cs ++ new ∧
       Forall2 (controller_of universe) (List.filter IsController ts) new.
Proof.
intros Hts. revert cs. induction Hts as [|c t l ts Ht Hts IH]; intros cs Hl.
- injection Hl as <-. exists []. split; [by rewrite app_nil_r|constructor].
- rewrite foldM_cons in Hl.
  destruct (ParseControllers_step IsController ctx universe cs c)
    as [cs1|] eqn:Hstep; [|done].
  destruct (IH _ Hl) as (new & -> & Hnew).
  destruct (ParseControllers_step_inv _ _ _ Hstep)
    as (t' & Ht' & [[Hctl ->]|(Hctl & ctl & -> & Hof)]);
    assert (t' = t) as -> by congruence; simpl; rewrite Hctl.
  + by exists new.
  + exists (ctl :: new). split; [by rewrite <- app_assoc|]. by constructor.
Qed.

Lemma declarations_deref l :
Forall (λ c, is_Ok (deref ctx c)) l →
Forall2 (λ c t, deref ctx c = Ok t) l
  (omap (λ c, generator.Context.types ctx !! c) l).
Proof.
induction 1 as [|c l [t Ht] Hl IH]; [constructor|].
simpl. pose proof Ht as Ht'. apply deref_lookup in Ht'. rewrite Ht'.
by constructor.
Qed.

End ControllerFacts.

Section ControllerTheorems.
Context `{Classifier}.
Variable IsController : types.Type_.t → bool.

(** X24. When [ParseControllers] returns, it has added one controller for each
  declaration that is a controller, in the order of the declarations: its
  target and resource are those of the parsed [+controller] tag, its package
  is the one the universe holds for the package of the declaration, and its
  repository is the part of that package path before the first
  "/pkg/controller". *)
Theorem ParseControllers_entries (ctx : generator.Context.t)
(universe : Universe) (Controllers cs : list Controller.t) :
ParseControllers IsController ctx universe Controllers = Ok cs →
∃ new, cs = Controllers ++ new ∧
       Forall2 (controller_of universe)
         (List.filter IsController (declarations ctx)) new.
Proof.
unfold ParseControllers. intros Hcs.
apply (ParseControllers_loop IsController ctx universe
         (generator.Context.Order ctx)); [|done].
apply declarations_deref. apply Forall_forall. intros c Hc.
destruct (list_elem_of_split _ _ Hc) as (l1 & l2 & Hsplit).
rewrite Hsplit, foldM_app in Hcs.
destruct (foldM _ l1 Controllers) as [cs1|] eqn:H1; [|done].
rewrite bind_unfold, foldM_cons in Hcs.
destruct (ParseControllers_step IsController ctx universe cs1 c)
  as [cs2|] eqn:Hstep; [|done].
destruct (ParseControllers_step_inv _ _ _ _ _ _ Hstep) as (t & Ht & _).
by exists t.
Qed.

(** X25. [ParseControllers] returns exactly when every pointer of the
  universe points to a declaration and every declaration that is a
  controller has a [+controller] tag that is not empty and is well-formed. *)
Theorem ParseControllers_succeeds_iff (ctx : generator.Context.t)
(universe : Universe) (Controllers : list Controller.t) :
is_Ok (ParseControllers IsController ctx universe Controllers) ↔
Forall (scannable IsController ctx) (generator.Context.Order ctx).
Proof.
unfold ParseControllers.
apply (foldM_ok_iff (λ _, True)); [done| |done].
intros cs c _. apply ParseControllers_step_ok.
Qed.

End ControllerTheorems.

Lemma ParseControllers_entries_witness :
  ∃ cs, ParseControllers (H := example.classifier) example_IsController
          example_ctx example_universe [] = Ok cs ∧
        ∃ new, cs = [] ++ new ∧
               Forall2 (controller_of (H := example.classifier) example_universe)
                 (List.filter example_IsController (declarations example_ctx))
                 new.
Proof.
  assert (∃ cs, ParseControllers (H := example.classifier) example_IsController
                  example_ctx example_universe [] = Ok cs) as [cs Hcs]
    by (eexists; vm_compute; reflexivity).
  exists cs. split; [exact Hcs|].
  exact (ParseControllers_entries (H := example.classifier)
           example_IsController example_ctx example_universe [] cs Hcs).
Defined.
